(** * A shallow embedding of the asset builder (main.go)

    The build reads a tree of static assets, rewrites the references
    between them, fingerprints every result and writes one generated Go
    file holding two map literals, [Paths] and [Assets].

    Go [string] values are modelled as [string], [[]byte] values as
    [bytes] (lists of characters); the conversions [string(b)] and
    [[]byte(s)] of the source appear as [str] and [raw].  Go maps are
    [gmap]s; a panic is the [Panic] result. *)

From Stdlib Require Import Ascii String List Bool Arith NArith Lia Permutation.
From stdpp Require Import gmap strings list fin_maps sorting.

Local Open Scope string_scope.
Local Open Scope list_scope.

(** ** Byte slices and strings *)

Abbreviation bytes := (list ascii).

Definition str (b : bytes) : string := string_of_list_ascii b.
Definition raw (s : string) : bytes := list_ascii_of_string s.

(** The double-quote character, and the newline that [.] refuses. *)
Definition dq : ascii := "034"%char.
Definition nl : ascii := "010"%char.

(** ** Panics *)

Inductive panic : Type :=
| PanicMsg (msg : string)          (* panic("...") with a message      *)
| PanicIO (file : string)          (* an error from the file system    *)
| PanicLib (what : string)         (* an error returned by a library   *)
| PanicIndex.                      (* index out of range on a slice    *)

Inductive Result (A : Type) : Type :=
| Ok (a : A)
| Panic (e : panic).
Arguments Ok {A} a.
Arguments Panic {A} e.

Definition bind {A B} (m : Result A) (k : A -> Result B) : Result B :=
  match m with
  | Ok a => k a
  | Panic e => Panic e
  end.

Declare Scope go_scope.
Delimit Scope go_scope with go.
Notation "x <- m ;; k" := (bind m (fun x => k))
  (at level 100, m at next level, right associativity) : go_scope.
Local Open Scope go_scope.

Definition orPanic {A} (o : option A) (e : panic) : Result A :=
  match o with
  | Some a => Ok a
  | None => Panic e
  end.

(** ** package strings, bytes, path *)

Definition byte_eqb (a b : ascii) : bool := Ascii.eqb a b.

(** [bytes.HasPrefix]. *)
Fixpoint hasPrefix (s p : bytes) {struct p} : bool :=
  match p, s with
  | [], _ => true
  | _ :: _, [] => false
  | c :: p', d :: s' => byte_eqb c d && hasPrefix s' p'
  end.

(** [strings.HasPrefix(s, prefix)]. *)
Definition HasPrefix (s prefix : string) : bool := String.prefix prefix s.

(** [strings.HasSuffix(s, suffix)]:
    [len(s) >= len(suffix) && s[len(s)-len(suffix):] == suffix]. *)
Definition HasSuffix (s suffix : string) : bool :=
  (String.length suffix <=? String.length s)%nat &&
  String.eqb
    (String.substring (String.length s - String.length suffix)
                      (String.length suffix) s)
    suffix.

(** [filepath.Ext]: the loop walks the path from its last byte towards
    the first, stops at a slash, and returns the path from the first dot
    it meets.  [seen] holds the bytes already walked over. *)
Fixpoint ext_loop (rpath seen : bytes) : bytes :=
  match rpath with
  | [] => []
  | c :: r =>
      if byte_eqb c "/" then []
      else if byte_eqb c "." then c :: seen
      else ext_loop r (c :: seen)
  end.

Definition Ext (path : string) : string :=
  str (ext_loop (rev (raw path)) []).

(** [path.Base]: the empty path gives ".", trailing slashes are dropped,
    the last element is kept, and a path of slashes only gives "/". *)
Fixpoint dropSlashes (rpath : bytes) : bytes :=
  match rpath with
  | c :: r => if byte_eqb c "/" then dropSlashes r else rpath
  | [] => []
  end.

Fixpoint lastElem (rpath seen : bytes) : bytes :=
  match rpath with
  | [] => seen
  | c :: r => if byte_eqb c "/" then seen else lastElem r (c :: seen)
  end.

Definition Base (path : string) : string :=
  if String.eqb path "" then "."
  else match lastElem (dropSlashes (rev (raw path))) [] with
       | [] => "/"
       | b => str b
       end.

(** [bytes.ReplaceAll(s, old, new)] for a non-empty [old], which is all
    this program passes: the instances of [old] are replaced from the
    left and do not overlap.  [skip] counts the bytes of an instance
    still to be dropped.  (For an empty [old] the library inserts [new]
    around every rune; this model returns [s] there.) *)
Fixpoint replaceAll_go (old new s : bytes) (skip : nat) : bytes :=
  match s with
  | [] => []
  | c :: t =>
      match skip with
      | S k => replaceAll_go old new t k
      | O =>
          if hasPrefix s old
          then new ++ replaceAll_go old new t (length old - 1)
          else c :: replaceAll_go old new t 0
      end
  end.

Definition ReplaceAll (s old new : bytes) : bytes :=
  match old with
  | [] => s
  | _ => replaceAll_go old new s 0
  end.

(** ** package regexp

    The five patterns of the program use literals, the lazy capture
    [(.*?)], concatenation and one optional non-capturing group.  The
    matcher below is the backtracking one whose first match the library
    promises to return (leftmost, then by preference: a lazy star tries
    the short match first, an optional group tries to take its body
    first).  [.] matches anything but a newline.  The library steps over
    runes where this model steps over bytes: every capture here is
    followed by an ASCII literal, which cannot start inside a rune, so
    the matches are the same. *)

Inductive regex : Type :=
| Lit (l : bytes)              (* a literal, metacharacters unescaped *)
| LazyCap                      (* (.*?) *)
| Seq (r1 r2 : regex)
| Opt (r : regex).             (* (?:r)? *)

Fixpoint ngroups (r : regex) : nat :=
  match r with
  | Lit _ => 0
  | LazyCap => 1
  | Seq a b => ngroups a + ngroups b
  | Opt a => ngroups a
  end.

(** The lazy star: hand the continuation the shortest capture first and
    lengthen it by one byte each time the continuation fails. *)
Fixpoint lazyDot {R} (k : bytes -> bytes -> option R) (acc s : bytes)
  : option R :=
  match k acc s with
  | Some r => Some r
  | None =>
      match s with
      | [] => None
      | c :: s' => if byte_eqb c nl then None else lazyDot k (acc ++ [c]) s'
      end
  end.

(** [matchK r s caps k]: match [r] at the start of [s]; [caps] are the
    groups captured so far, [k] receives the rest of the input. *)
Fixpoint matchK {R} (r : regex) (s : bytes) (caps : list bytes)
    (k : bytes -> list bytes -> option R) : option R :=
  match r with
  | Lit l => if hasPrefix s l then k (drop (length l) s) caps else None
  | LazyCap => lazyDot (fun cap rest => k rest (caps ++ [cap])) [] s
  | Seq a b => matchK a s caps (fun s' caps' => matchK b s' caps' k)
  | Opt a =>
      match matchK a s caps k with
      | Some x => Some x
      | None => k s (caps ++ repeat [] (ngroups a))
      end
  end.

(** A match anchored at the start of [s]: its length and its groups. *)
Definition matchHere (r : regex) (s : bytes) : option (nat * list bytes) :=
  matchK r s [] (fun rest caps => Some (length s - length rest, caps)).

(** [re.FindStringSubmatch(s)]: the leftmost match and its groups, the
    whole match at index 0; [None] is the nil slice. *)
Fixpoint findSubmatch (r : regex) (s : bytes) : option (list bytes) :=
  match matchHere r s with
  | Some (n, caps) => Some (take n s :: caps)
  | None =>
      match s with
      | [] => None
      | _ :: t => findSubmatch r t
      end
  end.

Definition FindStringSubmatch (r : regex) (s : string) : option (list string) :=
  option_map (map str) (findSubmatch r (raw s)).

(** Indexing the result of [FindStringSubmatch]; out of range panics. *)
Definition index (l : option (list string)) (i : nat) : Result string :=
  match l with
  | Some xs => orPanic (nth_error xs i) PanicIndex
  | None => Panic PanicIndex
  end.

(** The input cut into the bytes left alone and the matches, from the
    left, matches not overlapping.  Every pattern of the program starts
    with a literal, so a match is never empty. *)
Inductive segment : Type :=
| Keep (c : ascii)
| Found (m : bytes).

Fixpoint segments_go (r : regex) (s : bytes) (skip : nat) : list segment :=
  match s with
  | [] => []
  | c :: t =>
      match skip with
      | S k => segments_go r t k
      | O =>
          match matchHere r s with
          | Some (S n, _) => Found (take (S n) s) :: segments_go r t n
          | _ => Keep c :: segments_go r t 0
          end
      end
  end.

Definition segments (r : regex) (s : bytes) : list segment :=
  segments_go r s 0.

Fixpoint rebuild (f : bytes -> Result bytes) (segs : list segment)
  : Result bytes :=
  match segs with
  | [] => Ok []
  | Keep c :: rest => out <- rebuild f rest ;; Ok (c :: out)
  | Found m :: rest =>
      new <- f m ;;
      out <- rebuild f rest ;;
      Ok (new ++ out)
  end.

(** [re.ReplaceAllFunc(src, repl)]; [repl] may panic. *)
Definition ReplaceAllFunc (r : regex) (src : bytes)
    (repl : bytes -> Result bytes) : Result bytes :=
  rebuild repl (segments r src).

(** ** encoding/base64: [RawURLEncoding.EncodeToString]

    Three bytes give four characters of the URL-safe alphabet; one or
    two bytes left over give two or three characters; there is no
    padding. *)

Definition encodeURL : bytes :=
  raw "ABCDEFGHIJKLMNOPQRSTUVWXYZabcdefghijklmnopqrstuvwxyz0123456789-_".

Definition sextet (val : N) (shift : N) : ascii :=
  nth (N.to_nat (N.land (N.shiftr val shift) 63)) encodeURL "A"%char.

Fixpoint base64_encode (src : bytes) : bytes :=
  match src with
  | [] => []
  | [a] =>
      let val := N.shiftl (N_of_ascii a) 16 in
      [sextet val 18; sextet val 12]
  | [a; b] =>
      let val := N.lor (N.shiftl (N_of_ascii a) 16) (N.shiftl (N_of_ascii b) 8) in
      [sextet val 18; sextet val 12; sextet val 6]
  | a :: b :: c :: rest =>
      let val := N.lor (N.lor (N.shiftl (N_of_ascii a) 16)
                              (N.shiftl (N_of_ascii b) 8)) (N_of_ascii c) in
      sextet val 18 :: sextet val 12 :: sextet val 6 :: sextet val 0
        :: base64_encode rest
  end.

Definition RawURLEncoding_EncodeToString (src : bytes) : string :=
  str (base64_encode src).

(** ** The program *)

(** [type Asset struct { Br, Data, WebP []byte; Mime string }] *)
Record Asset : Type := mkAsset {
  Br : bytes;
  Data : bytes;
  WebP : bytes;
  Mime : string
}.

(** The patterns, as the source spells them:
    [asset-url\('(.*?)'\)], [svg-embed\('(.*?)'(?:,(.*?))?\)],
    [var\(--(.*?)\)], [assetPath\('(.*?)'\)] and ["src":"(.*?)"]. *)
Definition cssAssetURL : regex :=
  Seq (Lit (raw "asset-url('")) (Seq LazyCap (Lit (raw "')"))).

Definition cssSVGEmbed : regex :=
  Seq (Lit (raw "svg-embed('"))
   (Seq LazyCap
    (Seq (Lit (raw "'"))
     (Seq (Opt (Seq (Lit (raw ",")) LazyCap))
          (Lit (raw ")"))))).

Definition cssVariable : regex :=
  Seq (Lit (raw "var(--")) (Seq LazyCap (Lit (raw ")"))).

Definition jsAssetPath : regex :=
  Seq (Lit (raw "assetPath('")) (Seq LazyCap (Lit (raw "')"))).

Definition srcKey : bytes := dq :: raw "src" ++ [dq; ":"%char; dq].

Definition manifestSrc : regex :=
  Seq (Lit srcKey) (Seq LazyCap (Lit [dq])).

Definition mimes : gmap string string :=
  list_to_map
    [ (".css", "text/css");
      (".jpg", "image/jpeg");
      (".js", "application/javascript");
      (".png", "image/png");
      (".svg", "image/svg+xml");
      (".webmanifest", "application/manifest+json");
      (".woff2", "font/woff2") ].

Definition variables : gmap string bytes :=
  list_to_map
    [ ("blue", raw "#007bff");
      ("green", raw "#28a745");
      ("green-dark", raw "#155724");
      ("green-light", raw "#d4edda");
      ("grey", raw "#ced4da");
      ("grey-dark", raw "#343a40");
      ("grey-light", raw "#f8f9fa");
      ("red", raw "#dc3545");
      ("red-dark", raw "#721c24");
      ("red-light", raw "#f8d7da");
      ("yellow", raw "#ffc107");
      ("yellow-light", raw "#fff3cd");
      ("yellow-dark", raw "#856404") ].

(** Reading a Go map at a key it does not hold gives the zero value. *)
Definition mapStr (m : gmap string string) (k : string) : string :=
  default "" (m !! k).
Definition mapBytes (m : gmap string bytes) (k : string) : bytes :=
  default [] (m !! k).

(** The file system the build runs in: what [filepath.Walk(".")] hands
    to its callback (path and [IsDir]), in its order, or an error; what
    [ioutil.ReadFile] returns; and, for the file the build writes,
    whether [os.Create] succeeds, whether a write of [chunk] to a file
    that holds [written] succeeds, and whether [Close] does. *)
Record FS : Type := mkFS {
  walk : option (list (string * bool));
  readFile : string -> option bytes;
  createFile : string -> bool;
  writeFile : string -> string -> bool;   (* written, chunk *)
  closeFile : string -> bool              (* written        *)
}.

(** The libraries the build calls and this file does not look into. *)
Record Libs : Type := mkLibs {
  md5_Sum : bytes -> bytes;                    (* crypto/md5             *)
  min_Bytes : string -> bytes -> option bytes; (* minify: min.Bytes      *)
  enc_CompressBuffer : bytes -> option bytes;  (* brotli                 *)
  webp_of_png : bytes -> option bytes;         (* png.Decode, webp.Encode *)
  fmt_quote : string -> string                 (* fmt's %#v of a string  *)
}.

(** The package-level [assets] and [paths]. *)
Record State : Type := mkState {
  assets : gmap string Asset;
  paths : gmap string string
}.

Definition ReadFile (fs : FS) (file : string) : Result bytes :=
  orPanic (readFile fs file) (PanicIO file).

Section Resolvers.
Variable fs : FS.
Variable pathTable : gmap string string.

Definition cssAssetURLFunc (match_ : bytes) : Result bytes :=
  file <- index (FindStringSubmatch cssAssetURL (str match_)) 1 ;;
  Ok (raw ("url(" +:+ mapStr pathTable file +:+ ")")).

Definition cssVariableFunc (match_ : bytes) : Result bytes :=
  name <- index (FindStringSubmatch cssVariable (str match_)) 1 ;;
  Ok (mapBytes variables name).

Definition cssSVGEmbedFunc (match_ : bytes) : Result bytes :=
  let matches := FindStringSubmatch cssSVGEmbed (str match_) in
  m1 <- index matches 1 ;;
  svg <- ReadFile fs m1 ;;
  m2 <- index matches 2 ;;
  let svg := if String.eqb m2 "" then svg
             else ReplaceAll svg (raw "FILL") (raw m2) in
  svg <- ReplaceAllFunc cssVariable svg cssVariableFunc ;;
  let svg := ReplaceAll svg [dq] ["'"%char] in
  let svg := ReplaceAll svg ["#"%char] (raw "%23") in
  Ok ((raw "url(" ++ dq :: raw "data:image/svg+xml,") ++ (svg ++ [dq; ")"%char])).

Definition jsAssetPathFunc (match_ : bytes) : Result bytes :=
  file <- index (FindStringSubmatch jsAssetPath (str match_)) 1 ;;
  Ok (raw ("'" +:+ mapStr pathTable file +:+ "'")).

Definition manifestSrcFunc (match_ : bytes) : Result bytes :=
  file <- index (FindStringSubmatch manifestSrc (str match_)) 1 ;;
  Ok (raw (str srcKey +:+ mapStr pathTable file +:+ str [dq])).
End Resolvers.

(** The comparison handed to [sort.Slice] in [run]. *)
Definition less (fi fj : string) : bool :=
  let iImg := HasPrefix fi "images/" in
  let jImg := HasPrefix fj "images/" in
  if negb (Bool.eqb iImg jImg) then iImg
  else
    let iServiceWorker := HasSuffix fi "service-worker.js" in
    let jServiceWorker := HasSuffix fj "service-worker.js" in
    if negb (Bool.eqb iServiceWorker jServiceWorker) then iServiceWorker
    else String.ltb fi fj.

(** [sort.Slice]: the library promises a permutation in which no element
    is [less] than one before it, and nothing about the order of
    elements neither of which is [less] than the other.  [less] leaves no
    two different paths unordered and the walk lists every path once, so
    there is one such permutation ([sorted_unique] below); an insertion
    sort computes it. *)
Section Sort.
Context {A : Type} (lt : A -> A -> bool).

Fixpoint insertSorted (x : A) (l : list A) : list A :=
  match l with
  | [] => [x]
  | y :: t => if lt x y then x :: l else y :: insertSorted x t
  end.

Fixpoint sortSlice (l : list A) : list A :=
  match l with
  | [] => []
  | x :: t => insertSorted x (sortSlice t)
  end.
End Sort.

(** The callback of [filepath.Walk]: directories and files whose base
    name starts with an underscore are left out. *)
Definition discover (entries : list (string * bool)) : list string :=
  map fst
    (filter (fun e => negb (snd e) && negb (HasPrefix (Base (fst e)) "_"))
            entries).

Definition fingerprintOf (L : Libs) (data : bytes) : string :=
  RawURLEncoding_EncodeToString (md5_Sum L data).

Section Build.
Variable L : Libs.
Variable fs : FS.
Variable dev : bool.

Definition isExt (ext : string) (cases : list string) : bool :=
  existsb (String.eqb ext) cases.

(** The [switch ext] of the loop body.  The [".css"] case falls
    through into the case of [".js"] and [".webmanifest"], whose body
    ends in a second [switch ext]. *)
Definition transform (pathTable : gmap string string)
    (ext mime : string) (data : bytes) : Result bytes :=
  data <-
    (if isExt ext [".css"] then
       data <- ReplaceAllFunc cssAssetURL data (cssAssetURLFunc pathTable) ;;
       ReplaceAllFunc cssVariable data cssVariableFunc
     else Ok data) ;;
  if isExt ext [".css"; ".js"; ".webmanifest"] then
    data <- ReplaceAllFunc jsAssetPath data (jsAssetPathFunc pathTable) ;;
    data <- orPanic (min_Bytes L mime data) (PanicLib "minify") ;;
    if isExt ext [".css"] then
      ReplaceAllFunc cssSVGEmbed data (cssSVGEmbedFunc fs)
    else if isExt ext [".webmanifest"] then
      ReplaceAllFunc manifestSrc data (manifestSrcFunc pathTable)
    else Ok data
  else if isExt ext [".svg"] then
    ReplaceAllFunc cssVariable data cssVariableFunc
  else Ok data.

(** The [if !dev] block: Brotli for text, WebP for PNG images. *)
Definition encode (ext : string) (data : bytes) : Result (bytes * bytes) :=
  if dev then Ok ([], [])
  else if isExt ext [".css"; ".js"; ".svg"] then
    br <- orPanic (enc_CompressBuffer L data) (PanicLib "brotli") ;;
    Ok (br, [])
  else if isExt ext [".png"] then
    webp <- orPanic (webp_of_png L data) (PanicLib "webp") ;;
    Ok ([], webp)
  else Ok ([], []).

(** One turn of [for _, file := range files]. *)
Definition processFile (st : State) (file : string) : Result State :=
  let ext := Ext file in
  if String.eqb ext ".go" then Ok st
  else
    let mime := mapStr mimes ext in
    if String.eqb mime "" then Panic (PanicMsg ("Unsupported: " +:+ file))
    else
      data <- ReadFile fs file ;;
      data <- transform (paths st) ext mime data ;;
      enc <- encode ext data ;;
      let asset := mkAsset (fst enc) data (snd enc) mime in
      let fingerprint := fingerprintOf L data in
      Ok (mkState (<[fingerprint := asset]> (assets st))
                  (<[file := "/assets/" +:+ fingerprint]> (paths st))).

Fixpoint processFiles (st : State) (files : list string) : Result State :=
  match files with
  | [] => Ok st
  | file :: rest => st' <- processFile st file ;; processFiles st' rest
  end.

(** The files in the order [run] processes them. *)
Definition processingOrder (entries : list (string * bool)) : list string :=
  sortSlice less (discover entries).

(** The first part of [run] (main.go 142-247): the walk, the sort and
    the loop, from empty tables.  [sort.Slice] is taken to return the
    sorted permutation that the insertion sort computes. *)
Definition buildTables : Result State :=
  entries <- orPanic (walk fs) (PanicIO ".") ;;
  processFiles (mkState ∅ ∅) (processingOrder entries).

(** The second part of [run] (main.go 249-290) writes assets.go. *)
Definition pathEntry (e : string * string) : string :=
  fmt_quote L (fst e) +:+ ":" +:+ fmt_quote L (snd e) +:+ ",".

Definition assetEntry (e : string * Asset) : string :=
  fmt_quote L (fst e) +:+ ":{[]byte(" +:+ fmt_quote L (str (Br (snd e)))
    +:+ "),[]byte(" +:+ fmt_quote L (str (Data (snd e)))
    +:+ "),[]byte(" +:+ fmt_quote L (str (WebP (snd e)))
    +:+ ")," +:+ fmt_quote L (Mime (snd e)) +:+ "},".

(** [file.WriteString(chunk)] and [fmt.Fprintf(file, ...)], one write
    each, on a file that holds [written]; an error is a panic. *)
Definition WriteString (written chunk : string) : Result string :=
  if writeFile fs written chunk then Ok (written +:+ chunk)
  else Panic (PanicIO "assets.go").

(** The body of a [range] loop over the entries [visited], in the order
    in which the loop visits them. *)
Fixpoint writeEntries {E} (entry : E -> string) (written : string)
    (visited : list E) : Result string :=
  match visited with
  | [] => Ok written
  | e :: rest =>
      written <- WriteString written (entry e) ;;
      writeEntries entry written rest
  end.

(** From [os.Create] to [file.Close]: what assets.go holds at the end,
    when [ps] and [as_] are the entries of the two maps in the order the
    [range] loops visit them. *)
Definition writeOutput (ps : list (string * string))
    (as_ : list (string * Asset)) : Result string :=
  if createFile fs "assets.go" then
    written <- WriteString "" "package assets;var Paths=map[string]string{" ;;
    written <- writeEntries pathEntry written ps ;;
    written <- WriteString written
                 "};var Assets=map[string]struct{Br,Data,WebP[]byte;Mime string}{" ;;
    written <- writeEntries assetEntry written as_ ;;
    written <- WriteString written "}" ;;
    if closeFile fs written then Ok written else Panic (PanicIO "assets.go")
  else Panic (PanicIO "assets.go").

(** [for k, v := range m]: Go fixes no order, and none from one loop to
    the next; every entry is visited once. *)
Definition ranges {V} (m : gmap string V) (visited : list (string * V)) : Prop :=
  visited ≡ₚ map_to_list m.

(** [sort.Slice(files, less)] may leave [order]: a permutation in which
    no element is [less] than one before it. *)
Definition sorts (files order : list string) : Prop :=
  order ≡ₚ files /\
  forall i j x y, i < j -> order !! i = Some x -> order !! j = Some y ->
                  less y x = false.

(** [run]: how one call can end.  [Ok (st, out)]: the tables [st] are
    built and assets.go is closed holding [out]; [Panic e]: the call
    panics with [e].  The sort and the two [range] loops are held to
    what the language and the library promise of them, not more.  The
    clock and the line printed at the end have no part in either. *)
Definition run (r : Result (State * string)) : Prop :=
  match walk fs with
  | None => r = Panic (PanicIO ".")
  | Some entries =>
      exists order,
        sorts (discover entries) order /\
        match processFiles (mkState ∅ ∅) order with
        | Panic e => r = Panic e
        | Ok st =>
            exists ps as_,
              ranges (paths st) ps /\ ranges (assets st) as_ /\
              r = (out <- writeOutput ps as_ ;; Ok (st, out))
        end
  end.

End Build.

(** ** Small trees to run the build on

    Stand-ins for the libraries, simple enough to evaluate: a digest
    that keeps the first sixteen bytes (zero-padded), a minifier and
    encoders that return their input, and a [%#v] that only adds the
    quotes. *)
Module Fixture.
Definition libs : Libs :=
  mkLibs (fun b => take 16 (b ++ repeat "000"%char 16))
         (fun _ b => Some b)
         (fun b => Some b)
         (fun b => Some b)
         (fun s => String dq (s +:+ String dq "")).

Fixpoint content (files : list (string * string)) (file : string)
  : option bytes :=
  match files with
  | [] => None
  | (name, text) :: rest =>
      if String.eqb name file then Some (raw text) else content rest file
  end.

(** A tree of plain files, listed in the order of the walk; assets.go
    can be created, written and closed. *)
Definition tree (files : list (string * string)) : FS :=
  mkFS (Some (map (fun f => (fst f, false)) files)) (content files)
       (fun _ => true) (fun _ _ => true) (fun _ => true).

Definition start : State := mkState ∅ ∅.

Definition twoImages : FS := tree [("a.png", "A"); ("b.png", "B")].

Definition withWorker : FS :=
  tree [("app.js", "go()"); ("service-worker.js", "cache()")].

Definition dangling : FS := tree [("a.css", "a{b:asset-url('missing.png')}")].

Definition generated : FS := tree [("assets.go", "package assets")].

Definition unknownType : FS := tree [("notes.txt", "hello")].

Definition imageAndStyle : FS :=
  tree [("images/a.png", "PNG");
        ("styles/b.css", "a{b:asset-url('images/a.png')}")].

Definition twins : FS := tree [("a.png", "same"); ("b.png", "same")].

Definition styled : FS :=
  tree [("_dot.svg", "<svg fill='FILL'/>");
        ("images/a.png", "PNG");
        ("s.css", "a{b:assetPath('images/a.png');c:var(--nope)}")].

(** The tables a build of [fs] ends with; [start] if it panics. *)
Definition built (fs : FS) (dev : bool) : State :=
  match buildTables libs fs dev with
  | Ok st => st
  | Panic _ => start
  end.

(** The state after the first [n] turns of the loop. *)
Definition after (fs : FS) (dev : bool) (n : nat) : State :=
  match walk fs with
  | Some entries =>
      match processFiles libs fs dev start (take n (processingOrder entries)) with
      | Ok st => st
      | Panic _ => start
      end
  | None => start
  end.
End Fixture.

(** * The vocabulary of the properties *)

Definition isImage (file : string) : bool := HasPrefix file "images/".
Definition isServiceWorker (file : string) : bool :=
  HasSuffix file "service-worker.js".

(** The rank that [less] compares before it compares the paths. *)
Definition tier (file : string) : nat :=
  (if isImage file then 0 else 2) + (if isServiceWorker file then 0 else 1).

(** [x] is handled at an earlier turn of the loop than [y]. *)
Definition processedBefore (order : list string) (x y : string) : Prop :=
  exists i j, order !! i = Some x /\ order !! j = Some y /\ i < j.

(** [b] does not sort before [a]. *)
Definition notAfter (a b : string) : Prop := less b a = false.

Definition delim (open close : bytes) : regex :=
  Seq (Lit open) (Seq LazyCap (Lit close)).

(** What follows the capture of [open(.*?)close] in a match of [s]. *)
Definition closes (close s : bytes) (cap rest : bytes)
  : option (nat * list bytes) :=
  if hasPrefix rest close
  then Some (length s - length (drop (length close) rest), [cap])
  else None.

(** The three markers that name a path of the tree. *)
Inductive pathReference : Type := StyleURL | ScriptPath | ManifestIcon.

Definition refPattern (kind : pathReference) : regex :=
  match kind with
  | StyleURL => cssAssetURL
  | ScriptPath => jsAssetPath
  | ManifestIcon => manifestSrc
  end.

Definition refResolver (kind : pathReference)
  : gmap string string -> bytes -> Result bytes :=
  match kind with
  | StyleURL => cssAssetURLFunc
  | ScriptPath => jsAssetPathFunc
  | ManifestIcon => manifestSrcFunc
  end.

Definition refMarker (kind : pathReference) (file : bytes) : bytes :=
  match kind with
  | StyleURL => raw "asset-url('" ++ file ++ raw "')"
  | ScriptPath => raw "assetPath('" ++ file ++ raw "')"
  | ManifestIcon => srcKey ++ file ++ [dq]
  end.

(** What is written for a path of public path [public]. *)
Definition refResolved (kind : pathReference) (public : string) : bytes :=
  match kind with
  | StyleURL => raw "url(" ++ raw public ++ raw ")"
  | ScriptPath => raw "'" ++ raw public ++ raw "'"
  | ManifestIcon => srcKey ++ raw public ++ [dq]
  end.

(** The bytes in [asset.Data] when the loop body reaches [md5.Sum]. *)
Definition transformedBytes (L : Libs) (fs : FS)
    (pathTable : gmap string string) (file : string) : Result bytes :=
  data <- ReadFile fs file ;;
  transform L fs pathTable (Ext file) (mapStr mimes (Ext file)) data.

(** The text of a complete assets.go: the two map literals, their
    entries in the order given. *)
Definition emit (L : Libs) (ps : list (string * string))
    (as_ : list (string * Asset)) : string :=
  "package assets;var Paths=map[string]string{"
    +:+ String.concat "" (map (pathEntry L) ps)
    +:+ "};var Assets=map[string]struct{Br,Data,WebP[]byte;Mime string}{"
    +:+ String.concat "" (map (assetEntry L) as_)
    +:+ "}".



(** A marker [svg-embed('file')] or [svg-embed('file',override)]. *)
Definition overrideText (override : option bytes) : bytes :=
  match override with
  | Some color => raw "," ++ color
  | None => []
  end.

Definition svgMarker (file : bytes) (override : option bytes) : bytes :=
  raw "svg-embed('" ++ file ++ raw "'" ++ overrideText override ++ raw ")".

(** What follows the first capture of [cssSVGEmbed] in a match of [s]:
    the quote, the optional group and the closing parenthesis. *)
Definition svgTail (s cap rest : bytes) : option (nat * list bytes) :=
  matchK (Seq (Lit (raw "'")) (Seq (Opt (Seq (Lit (raw ",")) LazyCap))
                                   (Lit (raw ")"))))
         rest [cap]
         (fun rest' caps => Some (length s - length rest', caps)).

(** An override that the pattern captures whole. *)
Definition plainOverride (override : option bytes) : Prop :=
  match override with
  | Some color => (")"%char ∉ color) /\ (nl ∉ color)
  | None => True
  end.

(** The bytes read, with [FILL] replaced when a non-empty override is
    given. *)
Definition withFill (override : option bytes) (svg : bytes) : bytes :=
  match override with
  | Some (c :: color) => ReplaceAll svg (raw "FILL") (c :: color)
  | _ => svg
  end.


(** A tree with an icon and a manifest that names it. *)
Definition manifestTree : FS :=
  Fixture.tree
    [("images/i.png", "PNG");
     ("site.webmanifest",
      "{" +:+ str srcKey +:+ "images/i.png" +:+ str [dq] +:+ "}")].

(** The tree of two images in a directory where no file can be
    created. *)
Definition readOnly : FS :=
  mkFS (walk Fixture.twoImages) (readFile Fixture.twoImages)
       (fun _ => false) (fun _ _ => true) (fun _ => true).

(** A JPEG and a PNG with the same bytes, and a stylesheet that is
    processed between them. *)
Definition threeFiles : FS :=
  Fixture.tree [("a.jpg", "same"); ("b.css", "x{}"); ("c.png", "same")].

(** The five patterns of the program. *)
Definition patterns : list regex :=
  [cssAssetURL; cssSVGEmbed; cssVariable; jsAssetPath; manifestSrc].

(** What the two modes must agree on in an asset: its bytes and type. *)
Definition served (asset : Asset) : bytes * string := (Data asset, Mime asset).

(** [bytes.Contains(s, lit)]: [lit] occurs somewhere in [s]. *)
Fixpoint occurs (lit s : bytes) : bool :=
  hasPrefix s lit ||
  match s with
  | [] => false
  | _ :: t => occurs lit t
  end.

(** The libraries [L], but for what the two encoders return. *)
Definition withEncoders (L : Libs) (br webp : bytes -> option bytes) : Libs :=
  mkLibs (md5_Sum L) (min_Bytes L) br webp (fmt_quote L).

(** Encoders that double their input. *)
Definition doubling (b : bytes) : option bytes := Some (b ++ b).

(** What a build of [fs] with the libraries [L] writes when both
    [range] loops visit the maps in the order of [map_to_list]. *)
Definition written (L : Libs) (fs : FS) (dev : bool) : string :=
  match buildTables L fs dev with
  | Ok st => emit L (map_to_list (paths st)) (map_to_list (assets st))
  | Panic _ => ""
  end.


(** [lit] starts nowhere in [t], not even at the end of [t] when [lit]
    itself follows. *)
Definition litFree (lit t : bytes) : bool :=
  negb (occurs lit (t ++ removelast lit)).

Definition oneLine (t : bytes) : bool := forallb (fun c => negb (byte_eqb c nl)) t.

(** A text with markers [open cap close]: the bytes [t0] before the
    first marker, then the capture of each marker with the bytes that
    follow it. *)
Fixpoint withMarkers (open close t0 : bytes) (more : list (bytes * bytes))
  : bytes :=
  match more with
  | [] => t0
  | (cap, t) :: rest => t0 ++ open ++ cap ++ close ++ withMarkers open close t rest
  end.

(** The same text with [value cap] in the place of each marker. *)
Fixpoint withValues (value : bytes -> bytes) (t0 : bytes)
    (more : list (bytes * bytes)) : bytes :=
  match more with
  | [] => t0
  | (cap, t) :: rest => t0 ++ value cap ++ withValues value t rest
  end.

(** The markers of the text are those listed: the text between them
    holds no opening literal, and each capture lies on one line and
    holds no closing literal. *)
Fixpoint wellMarked (open close t0 : bytes) (more : list (bytes * bytes))
  : bool :=
  litFree open t0 &&
  match more with
  | [] => true
  | (cap, t) :: rest =>
      oneLine cap && litFree close cap && wellMarked open close t rest
  end.

(** The literals around the path in the three markers that name one. *)
Definition refOpen (kind : pathReference) : bytes :=
  match kind with
  | StyleURL => raw "asset-url('"
  | ScriptPath => raw "assetPath('"
  | ManifestIcon => srcKey
  end.

Definition refClose (kind : pathReference) : bytes :=
  match kind with
  | StyleURL => raw "')"
  | ScriptPath => raw "')"
  | ManifestIcon => [dq]
  end.

(** What the path table [pathTable] makes of the path in a marker. *)
Definition publicRef (kind : pathReference) (pathTable : gmap string string)
    (path : bytes) : bytes :=
  refResolved kind (mapStr pathTable (str path)).

(** The value of a color variable; empty for an unknown name. *)
Definition colorOf (name : bytes) : bytes := mapBytes variables (str name).

(** The bytes of a stylesheet when its case of the [switch] falls
    through into the case of the scripts. *)
Definition stylePasses (pathTable : gmap string string) (raw0 : bytes)
  : Result bytes :=
  a <- ReplaceAllFunc cssAssetURL raw0 (cssAssetURLFunc pathTable) ;;
  ReplaceAllFunc cssVariable a cssVariableFunc.

(** The order of the passes over a stylesheet as the specification
    words it: the asset-path references of both spellings, then the
    color variables, then the minifier, then the embedded graphics. *)
Definition claimedStylesheetOrder (L : Libs) (fs : FS)
    (pathTable : gmap string string) (raw0 : bytes) : Result bytes :=
  a <- ReplaceAllFunc cssAssetURL raw0 (cssAssetURLFunc pathTable) ;;
  j <- ReplaceAllFunc jsAssetPath a (jsAssetPathFunc pathTable) ;;
  v <- ReplaceAllFunc cssVariable j cssVariableFunc ;;
  m <- orPanic (min_Bytes L "text/css" v) (PanicLib "minify") ;;
  ReplaceAllFunc cssSVGEmbed m (cssSVGEmbedFunc fs).

(** An image named after a color, and a stylesheet that spells its
    name with the color variable. *)
Definition tinted : FS :=
  Fixture.tree
    [("images/#007bff.png", "PNG");
     ("s.css", "a{b:assetPath('images/var(--blue).png')}")].

(** The literal that [cssSVGEmbedFunc] returns around the inlined
    bytes: [url("data:image/svg+xml,...")]. *)
Definition dataURI (inlined : bytes) : bytes :=
  raw "url(" ++ [dq] ++ raw "data:image/svg+xml," ++ inlined ++ [dq] ++ raw ")".


(** A graphic to inline, with a FILL token and a color variable. *)
Definition icon : FS :=
  Fixture.tree
    [("i.svg", "<svg fill='FILL' stroke='var(--blue)'/>")].

(** Two states with the same paths and the same bytes and types. *)
Definition agree (st1 st2 : State) : Prop :=
  paths st1 = paths st2 /\ served <$> assets st1 = served <$> assets st2.

(** * Properties *)

(** ** Results *)

Lemma bind_Ok {A B} (m : Result A) (k : A -> Result B) (b : B) :
  bind m k = Ok b -> exists a, m = Ok a /\ k a = Ok b.
Proof. destruct m as [a|e]; simpl; [eauto | discriminate]. Qed.

Lemma orPanic_Ok {A} (o : option A) e (a : A) :
  orPanic o e = Ok a -> o = Some a.
Proof. destruct o; simpl; congruence. Qed.

Lemma raw_str (b : bytes) : raw (str b) = b.
Proof. apply list_ascii_of_string_of_list_ascii. Qed.

Lemma str_raw (s : string) : str (raw s) = s.
Proof. apply string_of_list_ascii_of_string. Qed.

Lemma str_inj (a b : bytes) : str a = str b -> a = b.
Proof. intros H. rewrite <- (raw_str a), <- (raw_str b). now rewrite H. Qed.

(** ** The processing order *)

Lemma ltb_leb (a b : string) : String.ltb b a = negb (String.leb a b).
Proof.
  unfold String.ltb, String.leb. rewrite (String.compare_antisym a b).
  destruct (String.compare b a); reflexivity.
Qed.

Lemma leb_refl (a : string) : String.leb a a = true.
Proof. destruct (String.leb_total a a); assumption. Qed.

Lemma leb_trans (a b c : string) :
  String.leb a b = true -> String.leb b c = true -> String.leb a c = true.
Proof.
  intros H1 H2. apply Is_true_true.
  apply (@transitivity _ String.le _ a b c); apply Is_true_true; assumption.
Qed.

Lemma less_true (a b : string) :
  less a b = true <->
  tier a < tier b \/ (tier a = tier b /\ String.leb b a = false).
Proof.
  unfold less, tier, isImage, isServiceWorker. rewrite ltb_leb.
  destruct (HasPrefix a "images/"), (HasPrefix b "images/"),
    (HasSuffix a "service-worker.js"), (HasSuffix b "service-worker.js");
    simpl; destruct (String.leb b a); simpl; split; intros H;
    try discriminate; try reflexivity; try lia; auto;
    destruct H as [H | [H H']]; try lia; try discriminate.
Qed.

Lemma notAfter_spec (a b : string) :
  notAfter a b <->
  tier a < tier b \/ (tier a = tier b /\ String.leb a b = true).
Proof.
  unfold notAfter. pose proof (less_true b a) as H.
  destruct (less b a).
  - split; [discriminate |]. intros [Hlt | [Heq Hle]].
    + destruct (proj1 H eq_refl) as [? | [? ?]]; lia.
    + destruct (proj1 H eq_refl) as [? | [? ?]]; [lia | congruence].
  - split; [| reflexivity]. intros _.
    destruct (Nat.lt_trichotomy (tier a) (tier b)) as [Hlt | [Heq | Hgt]].
    + now left.
    + right. split; [assumption |].
      destruct (String.leb a b) eqn:E; [reflexivity |].
      assert (false = true) by (apply H; right; split; [lia | reflexivity]).
      discriminate.
    + assert (false = true) by (apply H; now left). discriminate.
Qed.

#[local] Instance notAfter_trans : Transitive notAfter.
Proof.
  intros a b c Hab Hbc. apply notAfter_spec.
  apply notAfter_spec in Hab, Hbc.
  destruct Hab as [? | [? ?]], Hbc as [? | [? ?]]; try (left; lia).
  right. split; [lia | eauto using leb_trans].
Qed.

#[local] Instance notAfter_antisymm : AntiSymm (=) notAfter.
Proof.
  intros a b Hab Hba. apply notAfter_spec in Hab, Hba.
  destruct Hab as [? | [? ?]], Hba as [? | [? ?]]; try lia.
  now apply String.leb_antisym.
Qed.

Lemma notAfter_total (a b : string) : notAfter a b \/ notAfter b a.
Proof.
  destruct (Nat.lt_trichotomy (tier a) (tier b)) as [Hlt | [Heq | Hgt]].
  - left. apply notAfter_spec. now left.
  - destruct (String.leb_total a b).
    + left. apply notAfter_spec. now right.
    + right. apply notAfter_spec. right. split; [lia | assumption].
  - right. apply notAfter_spec. now left.
Qed.

Lemma less_notAfter (a b : string) : less a b = true -> notAfter a b.
Proof.
  intros H. destruct (notAfter_total a b) as [? | Hba]; [assumption |].
  unfold notAfter in Hba. congruence.
Qed.

Lemma insertSorted_perm (x : string) (l : list string) :
  insertSorted less x l ≡ₚ x :: l.
Proof.
  induction l as [| y t IH]; simpl; [reflexivity |].
  destruct (less x y); [reflexivity |].
  rewrite IH. apply perm_swap.
Qed.

Lemma sortSlice_perm (l : list string) : sortSlice less l ≡ₚ l.
Proof.
  induction l as [| x t IH]; simpl; [reflexivity |].
  rewrite insertSorted_perm. now rewrite IH.
Qed.

Lemma insertSorted_sorted (x : string) (l : list string) :
  Sorted notAfter l -> Sorted notAfter (insertSorted less x l).
Proof.
  induction l as [| y t IH]; intros Hs; simpl.
  - repeat constructor.
  - destruct (less x y) eqn:E.
    + constructor; [assumption |]. constructor. now apply less_notAfter.
    + inversion Hs as [| ? ? Ht Hhd]; subst. constructor; [auto |].
      destruct t as [| z t']; simpl.
      * constructor. exact E.
      * destruct (less x z); constructor; [exact E |].
        now inversion Hhd.
Qed.

Lemma sortSlice_sorted (l : list string) : Sorted notAfter (sortSlice less l).
Proof.
  induction l as [| x t IH]; simpl; [constructor |].
  now apply insertSorted_sorted.
Qed.

(** Whatever algorithm [sort.Slice] runs, its result is this one. *)
Lemma sorted_unique (l sorted : list string) :
  sorted ≡ₚ l -> Sorted notAfter sorted -> sorted = sortSlice less l.
Proof.
  intros Hp Hs. apply (Sorted_unique notAfter); [assumption | |].
  - apply sortSlice_sorted.
  - rewrite Hp. symmetry. apply sortSlice_perm.
Qed.

(** A file of a lower tier is processed before one of a higher tier. *)
Lemma tier_order (l : list string) (x y : string) :
  x ∈ l -> y ∈ l -> tier x < tier y ->
  exists l1 l2 l3, sortSlice less l = l1 ++ x :: l2 ++ y :: l3.
Proof.
  intros Hx Hy Hlt.
  pose proof (sortSlice_sorted l) as Hs.
  apply (Sorted_StronglySorted notAfter) in Hs.
  rewrite <- (sortSlice_perm l) in Hx, Hy.
  apply list_elem_of_split in Hx as (l1 & r & Heq).
  rewrite Heq in Hy, Hs |- *.
  apply elem_of_app in Hy as [Hy | Hy].
  - exfalso.
    assert (notAfter y x) as Hyx.
    { eapply (StronglySorted_app_1_elem_of notAfter); eauto. left. }
    apply notAfter_spec in Hyx. lia.
  - apply elem_of_cons in Hy as [-> | Hy]; [lia |].
    apply list_elem_of_split in Hy as (l2 & l3 & ->). eauto.
Qed.

Lemma split_processedBefore (l1 l2 l3 : list string) (x y : string) :
  processedBefore (l1 ++ x :: l2 ++ y :: l3) x y.
Proof.
  exists (length l1), (length l1 + S (length l2)). repeat split.
  - apply list_lookup_middle. reflexivity.
  - rewrite lookup_app_r by lia.
    replace (length l1 + S (length l2) - length l1) with (S (length l2)) by lia.
    simpl. apply list_lookup_middle. reflexivity.
  - lia.
Qed.

(** ** Prefixes and replacement *)

Lemma byte_eqb_eq (a b : ascii) : byte_eqb a b = true <-> a = b.
Proof. apply Ascii.eqb_eq. Qed.

Lemma byte_eqb_refl (a : ascii) : byte_eqb a a = true.
Proof. apply Ascii.eqb_refl. Qed.

Lemma byte_eqb_neq (a b : ascii) : a <> b -> byte_eqb a b = false.
Proof. apply Ascii.eqb_neq. Qed.

Lemma hasPrefix_app (p t : bytes) : hasPrefix (p ++ t) p = true.
Proof.
  induction p as [| c p IH]; simpl; [reflexivity |].
  now rewrite byte_eqb_refl, IH.
Qed.

Lemma hasPrefix_true (s p : bytes) :
  hasPrefix s p = true -> s = p ++ drop (length p) s.
Proof.
  revert s. induction p as [| c p IH]; intros s H; simpl in *.
  - reflexivity.
  - destruct s as [| d s]; [discriminate |].
    apply andb_true_iff in H as [Hc Hp].
    apply byte_eqb_eq in Hc as ->. simpl. f_equal. now apply IH.
Qed.

Lemma hasPrefix_weaken (a b p : bytes) :
  hasPrefix a p = true -> hasPrefix (a ++ b) p = true.
Proof.
  intros H. rewrite (hasPrefix_true _ _ H), <- app_assoc.
  apply hasPrefix_app.
Qed.

Lemma hasPrefix_other (x y : ascii) (p s : bytes) :
  y <> x -> hasPrefix (y :: s) (x :: p) = false.
Proof.
  intros H. simpl. rewrite byte_eqb_neq; [reflexivity | congruence].
Qed.

(** A capture whose every proper extension point was refused for want
    of [x] does not hold [x]. *)
Lemma refused_absent (x : ascii) (cap rest : bytes) :
  (forall u v, cap = u ++ v -> v <> [] -> hasPrefix (v ++ rest) [x] = false) ->
  x ∉ cap.
Proof.
  intros Hmin Hin. apply list_elem_of_split in Hin as (u & v & ->).
  specialize (Hmin u (x :: v) eq_refl ltac:(discriminate)).
  simpl in Hmin. now rewrite byte_eqb_refl in Hmin.
Qed.


(** ** The matcher *)

Lemma lazyDot_unfold {R} (k : bytes -> bytes -> option R) acc s :
  lazyDot k acc s =
  match k acc s with
  | Some r => Some r
  | None =>
      match s with
      | [] => None
      | c :: s' => if byte_eqb c nl then None else lazyDot k (acc ++ [c]) s'
      end
  end.
Proof. destruct s; reflexivity. Qed.

(** A lazy capture that succeeds took the shortest capture, free of
    newlines, that its continuation accepts. *)
Lemma lazyDot_Some {R} (k : bytes -> bytes -> option R) acc s r :
  lazyDot k acc s = Some r ->
  exists cap rest,
    s = cap ++ rest /\ (nl ∉ cap) /\ k (acc ++ cap) rest = Some r /\
    (forall u v, cap = u ++ v -> v <> [] -> k (acc ++ u) (v ++ rest) = None).
Proof.
  revert acc. induction s as [| c s IH]; intros acc H;
    rewrite lazyDot_unfold in H.
  - destruct (k acc []) eqn:E; [injection H as -> | discriminate].
    exists [], []. rewrite (app_nil_r acc).
    split; [reflexivity |]. split; [apply not_elem_of_nil |].
    split; [assumption |].
    intros u v Huv Hv. symmetry in Huv.
    apply app_eq_nil in Huv as [_ ?]. contradiction.
  - destruct (k acc (c :: s)) eqn:E.
    + injection H as ->. exists [], (c :: s). rewrite (app_nil_r acc).
      split; [reflexivity |]. split; [apply not_elem_of_nil |].
      split; [assumption |].
      intros u v Huv Hv. symmetry in Huv.
      apply app_eq_nil in Huv as [_ ?]. contradiction.
    + destruct (byte_eqb c nl) eqn:Hc; [discriminate |].
      apply IH in H as (cap & rest & -> & Hnl & Hk & Hmin).
      exists (c :: cap), rest.
      split; [reflexivity |]. split; [| split].
      * apply not_elem_of_cons. split; [| assumption].
        intros <-. rewrite byte_eqb_refl in Hc. discriminate.
      * rewrite <- Hk. f_equal. now rewrite <- app_assoc.
      * intros u v Huv Hv. destruct u as [| d u]; simpl in Huv.
        -- subst v. rewrite app_nil_r. exact E.
        -- injection Huv as <- ->.
           rewrite <- (Hmin u v eq_refl Hv). f_equal.
           now rewrite <- app_assoc.
Qed.

Lemma lazyDot_intro {R} (k : bytes -> bytes -> option R) acc cap rest r :
  nl ∉ cap ->
  (forall u v, cap = u ++ v -> v <> [] -> k (acc ++ u) (v ++ rest) = None) ->
  k (acc ++ cap) rest = Some r ->
  lazyDot k acc (cap ++ rest) = Some r.
Proof.
  revert acc. induction cap as [| c cap IH]; intros acc Hnl Hmin Hk.
  - rewrite app_nil_r in Hk. simpl. rewrite lazyDot_unfold. now rewrite Hk.
  - apply not_elem_of_cons in Hnl as [Hc Hnl].
    simpl.
    assert (k acc (c :: cap ++ rest) = None) as E.
    { rewrite <- (app_nil_r acc). now apply (Hmin [] (c :: cap)). }
    rewrite E.
    rewrite byte_eqb_neq by congruence.
    apply IH; [assumption | |].
    + intros u v -> Hv. rewrite <- app_assoc. simpl.
      now apply (Hmin (c :: u) v).
    + rewrite <- Hk. f_equal. now rewrite <- app_assoc.
Qed.

(** A capture that lacks the byte its continuation insists on is taken
    whole. *)
Lemma lazyDot_skip {R} (k : bytes -> bytes -> option R) (x : ascii)
    acc cap rest r :
  (forall a y t, y <> x -> k a (y :: t) = None) ->
  x ∉ cap -> nl ∉ cap ->
  k (acc ++ cap) rest = Some r ->
  lazyDot k acc (cap ++ rest) = Some r.
Proof.
  intros Hk Hx Hnl Hr. apply lazyDot_intro; [assumption | | assumption].
  intros u v -> Hv. destruct v as [| y v]; [contradiction |].
  simpl. apply Hk. intros ->. apply Hx.
  apply elem_of_app. right. left.
Qed.

Lemma findSubmatch_here (r : regex) (s : bytes) n caps :
  matchHere r s = Some (n, caps) ->
  findSubmatch r s = Some (take n s :: caps).
Proof. intros H. destruct s; simpl; now rewrite H. Qed.

(** *** The pattern [open(.*?)close] *)

Section Delim.
Variables open close : bytes.

Lemma matchHere_delim (s : bytes) :
  matchHere (delim open close) s =
  if hasPrefix s open
  then lazyDot (closes close s) [] (drop (length open) s)
  else None.
Proof. reflexivity. Qed.

(** A match is the opening literal, the capture and the closing
    literal; the capture has no newline, and the closing literal
    occurs nowhere earlier. *)
Lemma matchHere_delim_Some (s : bytes) n caps :
  matchHere (delim open close) s = Some (n, caps) ->
  exists cap post,
    s = open ++ cap ++ close ++ post /\
    n = length (open ++ cap ++ close) /\ caps = [cap] /\ (nl ∉ cap) /\
    (forall u v, cap = u ++ v -> v <> [] ->
                 hasPrefix (v ++ close ++ post) close = false).
Proof.
  rewrite matchHere_delim. destruct (hasPrefix s open) eqn:Ho; [| discriminate].
  intros H. apply lazyDot_Some in H as (cap & rest & Hs & Hnl & Hk & Hmin).
  unfold closes in Hk. destruct (hasPrefix rest close) eqn:Hc; [| discriminate].
  injection Hk as <- <-.
  apply hasPrefix_true in Ho. apply hasPrefix_true in Hc.
  set (post := drop (length close) rest) in *.
  exists cap, post.
  assert (s = open ++ cap ++ close ++ post) as Es.
  { rewrite Ho, Hs, Hc. reflexivity. }
  split; [exact Es |]. split; [| split; [reflexivity | split; [exact Hnl |]]].
  - rewrite Es at 1. rewrite !length_app. lia.
  - intros u v Huv Hv. specialize (Hmin u v Huv Hv).
    unfold closes in Hmin. rewrite Hc in Hmin.
    destruct (hasPrefix (v ++ close ++ post) close); [discriminate | reflexivity].
Qed.

Lemma matchHere_delim_intro (cap post : bytes) :
  nl ∉ cap ->
  (forall u v, cap = u ++ v -> v <> [] ->
               hasPrefix (v ++ close ++ post) close = false) ->
  matchHere (delim open close) (open ++ cap ++ close ++ post) =
  Some (length (open ++ cap ++ close), [cap]).
Proof.
  intros Hnl Hmin. rewrite matchHere_delim, hasPrefix_app, drop_app_length.
  apply lazyDot_intro; [assumption | |].
  - intros u v Huv Hv. unfold closes. now rewrite (Hmin u v Huv Hv).
  - unfold closes. rewrite hasPrefix_app, drop_app_length. simpl.
    do 2 f_equal. rewrite !length_app. lia.
Qed.

(** Matching the matched bytes alone gives the same match: this is
    what the replacement functions do when they match again. *)
Lemma matchHere_delim_again (s : bytes) n caps :
  matchHere (delim open close) s = Some (n, caps) ->
  matchHere (delim open close) (take n s) = Some (n, caps).
Proof.
  intros H. apply matchHere_delim_Some in H
    as (cap & post & -> & -> & -> & Hnl & Hmin).
  replace (open ++ cap ++ close ++ post)
    with ((open ++ cap ++ close) ++ post) by now rewrite <- !app_assoc.
  rewrite take_app_length.
  replace (open ++ cap ++ close) with (open ++ cap ++ close ++ []) at 1
    by now rewrite app_nil_r.
  apply matchHere_delim_intro; [assumption |].
  intros u v Huv Hv. specialize (Hmin u v Huv Hv).
  rewrite app_nil_r.
  destruct (hasPrefix (v ++ close) close) eqn:E; [| reflexivity].
  apply (hasPrefix_weaken _ post) in E.
  rewrite <- app_assoc in E. congruence.
Qed.

Lemma index_delim (s : bytes) n cap :
  matchHere (delim open close) s = Some (n, [cap]) ->
  index (FindStringSubmatch (delim open close) (str (take n s))) 1 =
  Ok (str cap).
Proof.
  intros H. apply matchHere_delim_again in H.
  unfold FindStringSubmatch. rewrite raw_str.
  now rewrite (findSubmatch_here _ _ _ _ H).
Qed.
End Delim.

(** ** Replacement over all matches *)

Lemma segments_go_cons (r : regex) (c : ascii) (t : bytes) :
  segments_go r (c :: t) 0 =
  match matchHere r (c :: t) with
  | Some (S n, _) => Found (take (S n) (c :: t)) :: segments_go r t n
  | _ => Keep c :: segments_go r t 0
  end.
Proof. reflexivity. Qed.

Lemma segments_go_skip (r : regex) (u post : bytes) :
  segments_go r (u ++ post) (length u) = segments_go r post 0.
Proof. induction u as [| c u IH]; [reflexivity | exact IH]. Qed.

(** A match at the very start is the first segment, and the search goes
    on behind it. *)
Lemma segments_hit (r : regex) (m post : bytes) caps :
  m <> [] ->
  matchHere r (m ++ post) = Some (length m, caps) ->
  segments r (m ++ post) = Found m :: segments r post.
Proof.
  intros Hm H. destruct m as [| c m]; [contradiction |].
  unfold segments. simpl app in *. rewrite segments_go_cons, H. simpl length.
  f_equal.
  - f_equal. change (c :: m ++ post) with ((c :: m) ++ post).
    now rewrite (take_app_length' (c :: m)).
  - apply segments_go_skip.
Qed.

(** Every segment found is a match of the pattern somewhere in the input. *)
Lemma segments_Found (r : regex) (s : bytes) skip m :
  Found m ∈ segments_go r s skip ->
  exists s' n caps, matchHere r s' = Some (S n, caps) /\ m = take (S n) s'.
Proof.
  revert skip. induction s as [| c t IH]; intros skip H.
  - simpl in H. now apply elem_of_nil in H.
  - destruct skip as [| k]; [| exact (IH k H)].
    rewrite segments_go_cons in H.
    destruct (matchHere r (c :: t)) as [[[| n] caps] |] eqn:E.
    + apply elem_of_cons in H as [? | H]; [discriminate | eauto].
    + apply elem_of_cons in H as [Hm | H]; [| eauto].
      injection Hm as ->. eauto.
    + apply elem_of_cons in H as [? | H]; [discriminate | eauto].
Qed.

(** The replacement panics only if the replacement function does. *)
Lemma rebuild_total (f : bytes -> Result bytes) (segs : list segment) :
  (forall m, Found m ∈ segs -> exists new, f m = Ok new) ->
  exists out, rebuild f segs = Ok out.
Proof.
  induction segs as [| [c | m] rest IH]; intros Hf; simpl.
  - eauto.
  - destruct IH as [out ->]; [| simpl; eauto].
    intros m Hm. apply Hf. now right.
  - destruct (Hf m) as [new ->]; [left |].
    destruct IH as [out ->]; [| simpl; eauto].
    intros m' Hm. apply Hf. now right.
Qed.

Lemma ReplaceAllFunc_hit (r : regex) (f : bytes -> Result bytes)
    (m post : bytes) caps :
  m <> [] ->
  matchHere r (m ++ post) = Some (length m, caps) ->
  ReplaceAllFunc r (m ++ post) f =
  (new <- f m ;; out <- ReplaceAllFunc r post f ;; Ok (new ++ out)).
Proof.
  intros Hm H. unfold ReplaceAllFunc.
  now rewrite (segments_hit _ _ _ _ Hm H).
Qed.

(** A reference of the shape [open(.*?)close], wherever the input holds
    one: the replacement function finds its capture again. *)
Lemma delim_reference (open close s m : bytes) :
  Found m ∈ segments (delim open close) s ->
  exists cap,
    m = open ++ cap ++ close /\ (nl ∉ cap) /\
    index (FindStringSubmatch (delim open close) (str m)) 1 = Ok (str cap).
Proof.
  intros H. apply segments_Found in H as (s' & n & caps & Hm & ->).
  pose proof Hm as Hm'.
  apply matchHere_delim_Some in Hm' as (cap & post & Hs & Hn & -> & Hnl & _).
  exists cap. split; [| split; [assumption |]].
  - rewrite Hn, Hs.
    replace (open ++ cap ++ close ++ post)
      with ((open ++ cap ++ close) ++ post) by now rewrite <- !app_assoc.
    apply take_app_length.
  - now apply index_delim.
Qed.

(** When the closing literal is one byte, the capture does not hold it. *)
Lemma delim_reference_byte (open s m : bytes) (x : ascii) :
  Found m ∈ segments (delim open [x]) s ->
  exists cap, m = open ++ cap ++ [x] /\ (nl ∉ cap) /\ (x ∉ cap).
Proof.
  intros H. apply segments_Found in H as (s' & n & caps & Hm & ->).
  apply matchHere_delim_Some in Hm as (cap & post & Hs & Hn & -> & Hnl & Hmin).
  exists cap. split; [| split; [assumption |]].
  - rewrite Hn, Hs.
    replace (open ++ cap ++ [x] ++ post)
      with ((open ++ cap ++ [x]) ++ post) by now rewrite <- !app_assoc.
    apply take_app_length.
  - exact (refused_absent x cap ([x] ++ post) Hmin).
Qed.

(** A marker whose capture lacks the first byte of the closing literal
    is a match, and the whole of it. *)
Lemma delim_marker (open close' : bytes) (x : ascii) (cap post : bytes) :
  x ∉ cap -> nl ∉ cap ->
  matchHere (delim open (x :: close')) (open ++ cap ++ (x :: close') ++ post) =
  Some (length (open ++ cap ++ x :: close'), [cap]).
Proof.
  intros Hx Hnl. apply matchHere_delim_intro; [assumption |].
  intros u v -> Hv. destruct v as [| y v]; [contradiction |].
  apply hasPrefix_other. intros ->. apply Hx.
  apply elem_of_app. right. left.
Qed.

(** ** The replacement functions on the references they are given *)

Lemma cssVariable_delim : cssVariable = delim (raw "var(--") (raw ")").
Proof. reflexivity. Qed.

Lemma cssAssetURL_delim : cssAssetURL = delim (raw "asset-url('") (raw "')").
Proof. reflexivity. Qed.

Lemma jsAssetPath_delim : jsAssetPath = delim (raw "assetPath('") (raw "')").
Proof. reflexivity. Qed.

Lemma manifestSrc_delim : manifestSrc = delim srcKey [dq].
Proof. reflexivity. Qed.

Lemma cssVariable_reference (s m : bytes) :
  Found m ∈ segments cssVariable s ->
  exists name,
    m = raw "var(--" ++ name ++ raw ")" /\
    cssVariableFunc m = Ok (mapBytes variables (str name)).
Proof.
  rewrite cssVariable_delim. intros H.
  apply delim_reference in H as (name & -> & _ & Hi).
  exists name. split; [reflexivity |].
  unfold cssVariableFunc. rewrite cssVariable_delim, Hi. reflexivity.
Qed.

Lemma cssAssetURL_reference (pathTable : gmap string string) (s m : bytes) :
  Found m ∈ segments cssAssetURL s ->
  exists file,
    m = raw "asset-url('" ++ file ++ raw "')" /\
    cssAssetURLFunc pathTable m =
    Ok (raw ("url(" +:+ mapStr pathTable (str file) +:+ ")")).
Proof.
  rewrite cssAssetURL_delim. intros H.
  apply delim_reference in H as (file & -> & _ & Hi).
  exists file. split; [reflexivity |].
  unfold cssAssetURLFunc. rewrite cssAssetURL_delim, Hi. reflexivity.
Qed.

Lemma jsAssetPath_reference (pathTable : gmap string string) (s m : bytes) :
  Found m ∈ segments jsAssetPath s ->
  exists file,
    m = raw "assetPath('" ++ file ++ raw "')" /\
    jsAssetPathFunc pathTable m =
    Ok (raw ("'" +:+ mapStr pathTable (str file) +:+ "'")).
Proof.
  rewrite jsAssetPath_delim. intros H.
  apply delim_reference in H as (file & -> & _ & Hi).
  exists file. split; [reflexivity |].
  unfold jsAssetPathFunc. rewrite jsAssetPath_delim, Hi. reflexivity.
Qed.

Lemma manifestSrc_reference (pathTable : gmap string string) (s m : bytes) :
  Found m ∈ segments manifestSrc s ->
  exists file,
    m = srcKey ++ file ++ [dq] /\
    manifestSrcFunc pathTable m =
    Ok (raw (str srcKey +:+ mapStr pathTable (str file) +:+ str [dq])).
Proof.
  rewrite manifestSrc_delim. intros H.
  apply delim_reference in H as (file & -> & _ & Hi).
  exists file. split; [reflexivity |].
  unfold manifestSrcFunc. rewrite manifestSrc_delim, Hi. reflexivity.
Qed.

(** None of the four passes over [open(.*?)close] references can panic. *)
Lemma cssVariable_pass_total (s : bytes) :
  exists out, ReplaceAllFunc cssVariable s cssVariableFunc = Ok out.
Proof.
  apply rebuild_total. intros m H.
  apply cssVariable_reference in H as (name & _ & ->). eauto.
Qed.

Lemma cssAssetURL_pass_total (pathTable : gmap string string) (s : bytes) :
  exists out, ReplaceAllFunc cssAssetURL s (cssAssetURLFunc pathTable) = Ok out.
Proof.
  apply rebuild_total. intros m H.
  apply (cssAssetURL_reference pathTable) in H as (file & _ & ->). eauto.
Qed.

Lemma jsAssetPath_pass_total (pathTable : gmap string string) (s : bytes) :
  exists out, ReplaceAllFunc jsAssetPath s (jsAssetPathFunc pathTable) = Ok out.
Proof.
  apply rebuild_total. intros m H.
  apply (jsAssetPath_reference pathTable) in H as (file & _ & ->). eauto.
Qed.

Lemma manifestSrc_pass_total (pathTable : gmap string string) (s : bytes) :
  exists out, ReplaceAllFunc manifestSrc s (manifestSrcFunc pathTable) = Ok out.
Proof.
  apply rebuild_total. intros m H.
  apply (manifestSrc_reference pathTable) in H as (file & _ & ->). eauto.
Qed.

Lemma mapStr_None (m : gmap string string) (k : string) :
  m !! k = None -> mapStr m k = "".
Proof. unfold mapStr. now intros ->. Qed.

Lemma mapBytes_None (m : gmap string bytes) (k : string) :
  m !! k = None -> mapBytes m k = [].
Proof. unfold mapBytes. now intros ->. Qed.

(** ** References to names the tables do not hold *)

(** C9: a color-variable reference, found anywhere in an input, whose
    name the variable table lacks is replaced by the empty value, and
    the pass over the input does not panic. *)
Theorem unknown_variable_substitutes_empty (s m name : bytes) :
  Found m ∈ segments cssVariable s ->
  m = raw "var(--" ++ name ++ raw ")" ->
  variables !! str name = None ->
  cssVariableFunc m = Ok [] /\
  (exists out, ReplaceAllFunc cssVariable s cssVariableFunc = Ok out) /\
  forall post,
    ReplaceAllFunc cssVariable (m ++ post) cssVariableFunc
    = ReplaceAllFunc cssVariable post cssVariableFunc.
Proof.
  intros Hm Hname Hvar.
  assert (cssVariableFunc m = Ok []) as Hempty.
  { apply cssVariable_reference in Hm as (name' & Hm & ->).
    rewrite Hm in Hname. apply app_inv_head, app_inv_tail in Hname as ->.
    now rewrite mapBytes_None. }
  split; [assumption |]. split; [apply cssVariable_pass_total |].
  intros post. rewrite cssVariable_delim in Hm.
  apply delim_reference_byte in Hm as (cap & Hcap & Hnl & Hp).
  rewrite Hcap in Hname. apply app_inv_head, app_inv_tail in Hname as <-.
  rewrite (ReplaceAllFunc_hit _ _ m post [cap]).
  - rewrite Hempty. simpl.
    now destruct (ReplaceAllFunc cssVariable post cssVariableFunc).
  - rewrite Hcap. discriminate.
  - rewrite cssVariable_delim, Hcap, <- !app_assoc.
    apply (delim_marker (raw "var(--") [] ")"%char); assumption.
Qed.

Lemma unknown_variable_substitutes_empty_witness :
  cssVariableFunc (raw "var(--nope)") = Ok [] /\
  (exists out,
    ReplaceAllFunc cssVariable (raw "a{c:var(--nope)}") cssVariableFunc = Ok out) /\
  forall post,
    ReplaceAllFunc cssVariable (raw "var(--nope)" ++ post) cssVariableFunc
    = ReplaceAllFunc cssVariable post cssVariableFunc.
Proof.
  apply (unknown_variable_substitutes_empty
           (raw "a{c:var(--nope)}") (raw "var(--nope)") (raw "nope")).
  - vm_compute. repeat constructor.
  - reflexivity.
  - vm_compute. reflexivity.
Defined.

Lemma raw_append (a b : string) : raw (a +:+ b) = raw a ++ raw b.
Proof. induction a as [| c a IH]; simpl; [reflexivity | now rewrite IH]. Qed.

Lemma pathReference_found (kind : pathReference)
    (pathTable : gmap string string) (s m : bytes) :
  Found m ∈ segments (refPattern kind) s ->
  exists file,
    m = refMarker kind file /\
    refResolver kind pathTable m =
    Ok (refResolved kind (mapStr pathTable (str file))).
Proof.
  destruct kind; simpl; intros H.
  - apply (cssAssetURL_reference pathTable) in H as (file & -> & ->).
    exists file. split; [reflexivity |]. now rewrite !raw_append.
  - apply (jsAssetPath_reference pathTable) in H as (file & -> & ->).
    exists file. split; [reflexivity |]. now rewrite !raw_append.
  - apply (manifestSrc_reference pathTable) in H as (file & -> & ->).
    exists file. split; [reflexivity |]. now rewrite !raw_append, !raw_str.
Qed.

Lemma refMarker_inj (kind : pathReference) (f g : bytes) :
  refMarker kind f = refMarker kind g -> f = g.
Proof.
  destruct kind; unfold refMarker; intros H;
    now apply app_inv_head, app_inv_tail in H.
Qed.

Lemma pathReference_pass_total (kind : pathReference)
    (pathTable : gmap string string) (s : bytes) :
  exists out,
    ReplaceAllFunc (refPattern kind) s (refResolver kind pathTable) = Ok out.
Proof.
  destruct kind; simpl;
    [apply cssAssetURL_pass_total | apply jsAssetPath_pass_total
    | apply manifestSrc_pass_total].
Qed.

(** C3, as the code has it: a reference to a path the path table lacks
    is replaced by the marker's output around an empty path, and the
    pass goes on without a panic. *)
Theorem absent_path_substitutes_empty (kind : pathReference)
    (pathTable : gmap string string) (s m file : bytes) :
  Found m ∈ segments (refPattern kind) s ->
  m = refMarker kind file ->
  pathTable !! str file = None ->
  refResolver kind pathTable m = Ok (refResolved kind "") /\
  exists out,
    ReplaceAllFunc (refPattern kind) s (refResolver kind pathTable) = Ok out.
Proof.
  intros Hm Hfile Hnone. split; [| apply pathReference_pass_total].
  apply (pathReference_found kind pathTable) in Hm as (file' & Hm & ->).
  rewrite Hm in Hfile. apply refMarker_inj in Hfile as ->.
  now rewrite mapStr_None.
Qed.

Lemma absent_path_substitutes_empty_witness :
  cssAssetURLFunc ∅ (raw "asset-url('missing.png')") = Ok (raw "url()") /\
  exists out,
    ReplaceAllFunc cssAssetURL (raw "a{b:asset-url('missing.png')}")
      (cssAssetURLFunc ∅) = Ok out.
Proof.
  apply (absent_path_substitutes_empty StyleURL ∅
           (raw "a{b:asset-url('missing.png')}")
           (raw "asset-url('missing.png')") (raw "missing.png")).
  - vm_compute. repeat constructor.
  - reflexivity.
  - reflexivity.
Defined.

(** C3 as stated fails: a stylesheet that names a path the tree lacks
    builds, and the asset written holds an empty [url()]. *)
Lemma dangling_reference_builds :
  match buildTables Fixture.libs Fixture.dangling true with
  | Ok st =>
      paths st !! "missing.png" = None /\
      map (fun e => str (Data (snd e))) (map_to_list (assets st))
      = ["a{b:url()}"]
  | Panic _ => False
  end.
Proof. vm_compute. split; reflexivity. Qed.

(** ** One turn of the loop *)

Section Turn.
Variable L : Libs.
Variable fs : FS.
Variable dev : bool.

Lemma processFile_go (st : State) (file : string) :
  Ext file = ".go" -> processFile L fs dev st file = Ok st.
Proof. intros H. unfold processFile. now rewrite H. Qed.

(** A turn that is not skipped and does not panic read the file,
    transformed it, and entered the result under its fingerprint. *)
Lemma processFile_Ok (st st' : State) (file : string) :
  Ext file <> ".go" ->
  processFile L fs dev st file = Ok st' ->
  exists mime raw0 data enc,
    mimes !! Ext file = Some mime /\
    readFile fs file = Some raw0 /\
    transform L fs (paths st) (Ext file) mime raw0 = Ok data /\
    encode L dev (Ext file) data = Ok enc /\
    st' = mkState
            (<[fingerprintOf L data := mkAsset (fst enc) data (snd enc) mime]>
               (assets st))
            (<[file := "/assets/" +:+ fingerprintOf L data]> (paths st)).
Proof.
  intros Hgo H. unfold processFile in H.
  apply String.eqb_neq in Hgo. rewrite Hgo in H.
  unfold mapStr in H.
  destruct (mimes !! Ext file) as [mime |] eqn:Hmime; simpl in H;
    [| discriminate].
  destruct (String.eqb mime "") eqn:Hne; [discriminate |].
  apply bind_Ok in H as (raw0 & Hread & H).
  apply bind_Ok in H as (data & Htr & H).
  apply bind_Ok in H as (enc & Henc & H).
  injection H as <-.
  exists mime, raw0, data, enc. repeat split; auto.
  now apply orPanic_Ok in Hread.
Qed.

Lemma processFile_unsupported (st : State) (file : string) :
  mimes !! Ext file = None -> Ext file <> ".go" ->
  processFile L fs dev st file = Panic (PanicMsg ("Unsupported: " +:+ file)).
Proof.
  intros Hmime Hgo. unfold processFile.
  apply String.eqb_neq in Hgo. rewrite Hgo.
  now rewrite (mapStr_None _ _ Hmime).
Qed.

Lemma processFiles_app (st : State) (pre post : list string) :
  processFiles L fs dev st (pre ++ post) =
  (st' <- processFiles L fs dev st pre ;; processFiles L fs dev st' post).
Proof.
  revert st. induction pre as [| f pre IH]; intros st; simpl; [reflexivity |].
  destruct (processFile L fs dev st f); simpl; [apply IH | reflexivity].
Qed.

(** The path table only grows, and every turn that is not skipped
    adds its file. *)
Lemma processFile_keeps (st st' : State) (file x : string) :
  processFile L fs dev st file = Ok st' ->
  is_Some (paths st !! x) -> is_Some (paths st' !! x).
Proof.
  intros H Hx. destruct (String.eqb (Ext file) ".go") eqn:Hgo.
  - apply String.eqb_eq in Hgo. rewrite processFile_go in H by assumption.
    now injection H as <-.
  - apply String.eqb_neq in Hgo.
    apply processFile_Ok in H as (? & ? & ? & ? & _ & _ & _ & _ & ->);
      [| assumption].
    simpl. rewrite lookup_insert. case_decide; [eauto | assumption].
Qed.

Lemma processFile_adds (st st' : State) (file : string) :
  Ext file <> ".go" ->
  processFile L fs dev st file = Ok st' ->
  is_Some (paths st' !! file).
Proof.
  intros Hgo H.
  apply processFile_Ok in H as (? & ? & ? & ? & _ & _ & _ & _ & ->);
    [| assumption].
  simpl. rewrite lookup_insert_eq. eauto.
Qed.

Lemma processFiles_keeps (st st' : State) (files : list string) (x : string) :
  processFiles L fs dev st files = Ok st' ->
  is_Some (paths st !! x) -> is_Some (paths st' !! x).
Proof.
  revert st. induction files as [| f files IH]; intros st H Hx; simpl in H.
  - now injection H as <-.
  - apply bind_Ok in H as (st1 & H1 & H).
    eapply IH; [exact H |]. eapply processFile_keeps; eauto.
Qed.

Lemma processFiles_adds (st st' : State) (files : list string) (x : string) :
  processFiles L fs dev st files = Ok st' ->
  x ∈ files -> Ext x <> ".go" -> is_Some (paths st' !! x).
Proof.
  revert st. induction files as [| f files IH]; intros st H Hx Hgo.
  - now apply elem_of_nil in Hx.
  - simpl in H. apply bind_Ok in H as (st1 & H1 & H).
    apply elem_of_cons in Hx as [-> | Hx].
    + eapply processFiles_keeps; [exact H |].
      eapply processFile_adds; eauto.
    + eapply IH; eauto.
Qed.

(** The stylesheet case of the [switch], its fall-through resolved. *)
Lemma transform_css (pathTable : gmap string string) (mime : string)
    (raw0 : bytes) :
  transform L fs pathTable ".css" mime raw0 =
  (a <- ReplaceAllFunc cssAssetURL raw0 (cssAssetURLFunc pathTable) ;;
   v <- ReplaceAllFunc cssVariable a cssVariableFunc ;;
   j <- ReplaceAllFunc jsAssetPath v (jsAssetPathFunc pathTable) ;;
   m <- orPanic (min_Bytes L mime j) (PanicLib "minify") ;;
   ReplaceAllFunc cssSVGEmbed m (cssSVGEmbedFunc fs)).
Proof.
  unfold transform.
  change (isExt ".css" [".css"]) with true.
  change (isExt ".css" [".css"; ".js"; ".webmanifest"]) with true.
  cbv iota.
  destruct (ReplaceAllFunc cssAssetURL raw0 (cssAssetURLFunc pathTable));
    reflexivity.
Qed.

Lemma mimes_css : mimes !! ".css" = Some "text/css".
Proof. vm_compute. reflexivity. Qed.

(** A stylesheet that is processed went through the five passes in
    this order. *)
Lemma processFile_css (st st' : State) (file : string) :
  Ext file = ".css" ->
  processFile L fs dev st file = Ok st' ->
  exists raw0 a v j m d enc,
    readFile fs file = Some raw0 /\
    ReplaceAllFunc cssAssetURL raw0 (cssAssetURLFunc (paths st)) = Ok a /\
    ReplaceAllFunc cssVariable a cssVariableFunc = Ok v /\
    ReplaceAllFunc jsAssetPath v (jsAssetPathFunc (paths st)) = Ok j /\
    min_Bytes L "text/css" j = Some m /\
    ReplaceAllFunc cssSVGEmbed m (cssSVGEmbedFunc fs) = Ok d /\
    st' = mkState
            (<[fingerprintOf L d := mkAsset (fst enc) d (snd enc) "text/css"]>
               (assets st))
            (<[file := "/assets/" +:+ fingerprintOf L d]> (paths st)).
Proof.
  intros Hext H.
  apply processFile_Ok in H
    as (mime & raw0 & d & enc & Hmime & Hread & Htr & _ & ->);
    [| rewrite Hext; discriminate].
  rewrite Hext in Hmime, Htr. rewrite mimes_css in Hmime.
  injection Hmime as <-. rewrite transform_css in Htr.
  apply bind_Ok in Htr as (a & Ha & Htr).
  apply bind_Ok in Htr as (v & Hv & Htr).
  apply bind_Ok in Htr as (j & Hj & Htr).
  apply bind_Ok in Htr as (m & Hm & Hd).
  apply orPanic_Ok in Hm.
  exists raw0, a, v, j, m, d, enc. repeat split; assumption.
Qed.
End Turn.

(** ** Extensions without a MIME type *)

(** C4, as the code has it: a file whose extension the MIME table lacks
    stops the build with a panic that names it, unless the extension is
    [.go]; a [.go] file is skipped and the loop goes on. *)
Theorem unsupported_extension_panics (L : Libs) (fs : FS) (dev : bool)
    (st0 st : State) (pre post : list string) (file : string) :
  mimes !! Ext file = None ->
  processFiles L fs dev st0 pre = Ok st ->
  processFiles L fs dev st0 (pre ++ file :: post) =
  if String.eqb (Ext file) ".go"
  then processFiles L fs dev st post
  else Panic (PanicMsg ("Unsupported: " +:+ file)).
Proof.
  intros Hmime Hpre. rewrite processFiles_app, Hpre. simpl.
  destruct (String.eqb (Ext file) ".go") eqn:Hgo.
  - apply String.eqb_eq in Hgo. now rewrite processFile_go.
  - apply String.eqb_neq in Hgo. now rewrite processFile_unsupported.
Qed.

Lemma unsupported_extension_panics_witness :
  processFiles Fixture.libs Fixture.unknownType false Fixture.start
    ["notes.txt"]
  = Panic (PanicMsg "Unsupported: notes.txt").
Proof.
  apply (unsupported_extension_panics Fixture.libs Fixture.unknownType false
           Fixture.start Fixture.start [] [] "notes.txt").
  - vm_compute. reflexivity.
  - reflexivity.
Defined.

(** C4 as stated fails: assets.go, which the build itself writes into
    the tree, has no MIME type and is passed over without an error. *)
Lemma generated_file_skipped :
  mimes !! Ext "assets.go" = None /\
  discover [("assets.go", false)] = ["assets.go"] /\
  buildTables Fixture.libs Fixture.generated false = Ok (mkState ∅ ∅).
Proof. vm_compute. repeat split; reflexivity. Qed.

(** ** Images first, then service workers *)

Lemma processingOrder_perm (entries : list (string * bool)) :
  processingOrder entries ≡ₚ discover entries.
Proof. apply sortSlice_perm. Qed.

Lemma tier_processedBefore (entries : list (string * bool)) (x y : string) :
  x ∈ discover entries -> y ∈ discover entries -> tier x < tier y ->
  processedBefore (processingOrder entries) x y.
Proof.
  intros Hx Hy Hlt. unfold processingOrder.
  destruct (tier_order _ _ _ Hx Hy Hlt) as (l1 & l2 & l3 & ->).
  apply split_processedBefore.
Qed.

(** Nothing of a lower tier is left when the loop reaches a file. *)
Lemma lower_tier_done (entries : list (string * bool)) (pre post : list string)
    (x y : string) :
  processingOrder entries = pre ++ y :: post ->
  x ∈ discover entries -> tier x < tier y -> x ∈ pre.
Proof.
  intros Hsplit Hx Hlt.
  pose proof (sortSlice_sorted (discover entries)) as Hs.
  apply (Sorted_StronglySorted notAfter) in Hs.
  fold (processingOrder entries) in Hs.
  rewrite <- processingOrder_perm, Hsplit in Hx. rewrite Hsplit in Hs.
  apply elem_of_app in Hx as [Hx | Hx]; [assumption | exfalso].
  apply elem_of_cons in Hx as [-> | Hx]; [lia |].
  assert (notAfter y x) as Hyx.
  { replace (pre ++ y :: post) with ((pre ++ [y]) ++ post) in Hs
      by now rewrite <- app_assoc.
    eapply (StronglySorted_app_1_elem_of notAfter); eauto.
    apply elem_of_app. right. left. }
  apply notAfter_spec in Hyx. lia.
Qed.

Lemma image_tier (x y : string) :
  isImage x = true -> isImage y = false -> tier x < tier y.
Proof.
  unfold tier. intros -> ->.
  destruct (isServiceWorker x), (isServiceWorker y); simpl; lia.
Qed.

(** C5: every file under images/ is processed before every file outside
    it; so when the loop reaches a file outside images/, each image of
    the tree (that is not a skipped .go file) has its entry in the path
    table. *)
Theorem images_processed_first (L : Libs) (fs : FS) (dev : bool)
    (entries : list (string * bool)) (x y : string) :
  x ∈ discover entries -> y ∈ discover entries ->
  isImage x = true -> isImage y = false ->
  processedBefore (processingOrder entries) x y /\
  forall pre post st,
    processingOrder entries = pre ++ y :: post ->
    processFiles L fs dev (mkState ∅ ∅) pre = Ok st ->
    Ext x <> ".go" ->
    is_Some (paths st !! x).
Proof.
  intros Hx Hy Hix Hiy. pose proof (image_tier _ _ Hix Hiy) as Hlt. split.
  - now apply tier_processedBefore.
  - intros pre post st Hsplit Hpre Hgo.
    eapply processFiles_adds; eauto.
    eapply lower_tier_done; eauto.
Qed.

Lemma images_processed_first_witness :
  processedBefore
    (processingOrder [("images/a.png", false); ("styles/b.css", false)])
    "images/a.png" "styles/b.css" /\
  is_Some (paths (Fixture.after Fixture.imageAndStyle false 1) !! "images/a.png").
Proof.
  destruct (images_processed_first Fixture.libs Fixture.imageAndStyle false
              [("images/a.png", false); ("styles/b.css", false)]
              "images/a.png" "styles/b.css") as [Hbefore Htable].
  - vm_compute. repeat constructor.
  - vm_compute. repeat constructor.
  - reflexivity.
  - reflexivity.
  - split; [exact Hbefore |].
    apply (Htable ["images/a.png"] []).
    + reflexivity.
    + vm_compute. reflexivity.
    + vm_compute. discriminate.
Defined.

(** The build of that tree: no panic, and both paths in the table. *)
Example image_and_style_built :
  buildTables Fixture.libs Fixture.imageAndStyle false
  = Ok (Fixture.built Fixture.imageAndStyle false) /\
  map fst (map_to_list (paths (Fixture.built Fixture.imageAndStyle false)))
  ≡ₚ ["images/a.png"; "styles/b.css"] /\
  map (fun e => str (Data (snd e)))
      (map_to_list (assets (Fixture.built Fixture.imageAndStyle false)))
  ≡ₚ ["PNG"; "a{b:url(/assets/UE5HAAAAAAAAAAAAAAAAAA)}"].
Proof.
  split; [vm_compute; reflexivity |].
  split; vm_compute; (reflexivity || apply perm_swap).
Qed.

Lemma serviceWorker_tier (sw x : string) :
  isServiceWorker sw = true -> isImage x = false ->
  isServiceWorker x = false -> tier sw < tier x.
Proof.
  unfold tier. intros -> -> ->. destruct (isImage sw); simpl; lia.
Qed.

(** C2, as the code has it: a file whose name ends in service-worker.js
    is processed strictly before every file of the tree that is neither
    under images/ nor a service worker. *)
Theorem service_worker_before_others (entries : list (string * bool))
    (sw x : string) :
  sw ∈ discover entries -> x ∈ discover entries ->
  isServiceWorker sw = true ->
  isImage x = false -> isServiceWorker x = false ->
  processedBefore (processingOrder entries) sw x.
Proof.
  intros Hsw Hx H1 H2 H3.
  apply tier_processedBefore; auto using serviceWorker_tier.
Qed.

Lemma service_worker_before_others_witness :
  processedBefore
    (processingOrder [("app.js", false); ("service-worker.js", false)])
    "service-worker.js" "app.js".
Proof.
  apply (service_worker_before_others
           [("app.js", false); ("service-worker.js", false)]
           "service-worker.js" "app.js").
  - vm_compute. repeat constructor.
  - vm_compute. repeat constructor.
  - reflexivity.
  - reflexivity.
  - reflexivity.
Defined.

(** C2 as stated fails: in a tree of app.js and service-worker.js the
    service worker comes first, not after app.js. *)
Lemma service_worker_not_last :
  walk Fixture.withWorker
  = Some [("app.js", false); ("service-worker.js", false)] /\
  processingOrder [("app.js", false); ("service-worker.js", false)]
  = ["service-worker.js"; "app.js"] /\
  ~ processedBefore
      (processingOrder [("app.js", false); ("service-worker.js", false)])
      "app.js" "service-worker.js".
Proof.
  split; [reflexivity |]. split; [vm_compute; reflexivity |].
  intros (i & j & Hi & Hj & Hlt).
  change (processingOrder [("app.js", false); ("service-worker.js", false)])
    with ["service-worker.js"; "app.js"] in Hi, Hj.
  destruct i as [| [| i]]; try discriminate.
  destruct j as [| [| j]]; try discriminate. lia.
Qed.

(** ** Fingerprints *)

Section Fingerprints.
Variable L : Libs.
Variable fs : FS.
Variable dev : bool.

Lemma processFile_fingerprint (st st' : State) (file : string) :
  Ext file <> ".go" ->
  processFile L fs dev st file = Ok st' ->
  exists d a,
    transformedBytes L fs (paths st) file = Ok d /\
    paths st' !! file = Some ("/assets/" +:+ fingerprintOf L d) /\
    assets st' !! fingerprintOf L d = Some a /\ Data a = d /\
    dom (assets st') = {[fingerprintOf L d]} ∪ dom (assets st).
Proof.
  intros Hgo H.
  apply processFile_Ok in H
    as (mime & raw0 & d & enc & Hmime & Hread & Htr & _ & ->);
    [| assumption].
  exists d, (mkAsset (fst enc) d (snd enc) mime). simpl.
  split; [| split; [| split; [| split]]].
  - unfold transformedBytes, ReadFile, mapStr.
    rewrite Hread, Hmime. exact Htr.
  - apply lookup_insert_eq.
  - apply lookup_insert_eq.
  - reflexivity.
  - apply dom_insert_L.
Qed.

Lemma processFile_assets_dom (st st' : State) (file : string) :
  processFile L fs dev st file = Ok st' ->
  dom (assets st) ⊆ dom (assets st').
Proof.
  intros H. destruct (String.eqb (Ext file) ".go") eqn:Hgo.
  - apply String.eqb_eq in Hgo. rewrite processFile_go in H by assumption.
    now injection H as <-.
  - apply String.eqb_neq in Hgo.
    apply processFile_fingerprint in H as (d & a & _ & _ & _ & _ & ->);
      [| assumption].
    apply union_subseteq_r.
Qed.

Lemma processFiles_assets_dom (st st' : State) (files : list string) :
  processFiles L fs dev st files = Ok st' ->
  dom (assets st) ⊆ dom (assets st').
Proof.
  revert st. induction files as [| f files IH]; intros st H; simpl in H.
  - now injection H as <-.
  - apply bind_Ok in H as (st1 & H1 & H).
    etrans; [eapply processFile_assets_dom | eapply IH]; eauto.
Qed.
End Fingerprints.

(** C7: the public path of a processed file is "/assets/" followed by
    the URL-safe base64 of the MD5 of its transformed bytes, and the
    asset is stored under that fingerprint; a later file with the same
    transformed bytes gets the same fingerprint and adds no entry to the
    asset table. *)
Theorem fingerprint_of_transformed_bytes (L : Libs) (fs : FS) (dev : bool)
    (st st1 stm st2 : State) (f1 f2 : string) (between : list string) :
  Ext f1 <> ".go" -> Ext f2 <> ".go" ->
  processFile L fs dev st f1 = Ok st1 ->
  processFiles L fs dev st1 between = Ok stm ->
  processFile L fs dev stm f2 = Ok st2 ->
  exists d1 d2 a1 a2,
    transformedBytes L fs (paths st) f1 = Ok d1 /\
    transformedBytes L fs (paths stm) f2 = Ok d2 /\
    paths st1 !! f1
    = Some ("/assets/" +:+ RawURLEncoding_EncodeToString (md5_Sum L d1)) /\
    paths st2 !! f2
    = Some ("/assets/" +:+ RawURLEncoding_EncodeToString (md5_Sum L d2)) /\
    assets st1 !! RawURLEncoding_EncodeToString (md5_Sum L d1) = Some a1 /\
    Data a1 = d1 /\
    assets st2 !! RawURLEncoding_EncodeToString (md5_Sum L d2) = Some a2 /\
    Data a2 = d2 /\
    (d1 = d2 -> dom (assets st2) = dom (assets stm)).
Proof.
  intros Hgo1 Hgo2 H1 Hmid H2.
  apply processFile_fingerprint in H1 as (d1 & a1 & Ht1 & Hp1 & Ha1 & Hd1 & Hdom1);
    [| assumption].
  apply processFile_fingerprint in H2 as (d2 & a2 & Ht2 & Hp2 & Ha2 & Hd2 & Hdom2);
    [| assumption].
  apply processFiles_assets_dom in Hmid.
  exists d1, d2, a1, a2. unfold fingerprintOf in *.
  repeat split; try assumption.
  intros ->. rewrite Hdom2. rewrite Hdom1 in Hmid.
  apply subseteq_union_1_L. etrans; [apply union_subseteq_l | exact Hmid].
Qed.

Lemma fingerprint_of_transformed_bytes_witness :
  exists d1 d2 a1 a2,
    transformedBytes Fixture.libs Fixture.twins ∅ "a.png" = Ok d1 /\
    transformedBytes Fixture.libs Fixture.twins
      (paths (Fixture.after Fixture.twins false 1)) "b.png" = Ok d2 /\
    paths (Fixture.after Fixture.twins false 1) !! "a.png"
    = Some ("/assets/"
              +:+ RawURLEncoding_EncodeToString (md5_Sum Fixture.libs d1)) /\
    paths (Fixture.after Fixture.twins false 2) !! "b.png"
    = Some ("/assets/"
              +:+ RawURLEncoding_EncodeToString (md5_Sum Fixture.libs d2)) /\
    assets (Fixture.after Fixture.twins false 1)
      !! RawURLEncoding_EncodeToString (md5_Sum Fixture.libs d1) = Some a1 /\
    Data a1 = d1 /\
    assets (Fixture.after Fixture.twins false 2)
      !! RawURLEncoding_EncodeToString (md5_Sum Fixture.libs d2) = Some a2 /\
    Data a2 = d2 /\
    (d1 = d2 ->
     dom (assets (Fixture.after Fixture.twins false 2))
     = dom (assets (Fixture.after Fixture.twins false 1))).
Proof.
  apply (fingerprint_of_transformed_bytes Fixture.libs Fixture.twins false
           Fixture.start (Fixture.after Fixture.twins false 1)
           (Fixture.after Fixture.twins false 1)
           (Fixture.after Fixture.twins false 2) "a.png" "b.png" []).
  - vm_compute. discriminate.
  - vm_compute. discriminate.
  - vm_compute. reflexivity.
  - reflexivity.
  - vm_compute. reflexivity.
Defined.

(** The twins end up under one fingerprint. *)
Example twins_share_an_entry :
  map snd (map_to_list (paths (Fixture.built Fixture.twins false)))
  = ["/assets/c2FtZQAAAAAAAAAAAAAAAA"; "/assets/c2FtZQAAAAAAAAAAAAAAAA"] /\
  map fst (map_to_list (assets (Fixture.built Fixture.twins false)))
  = ["c2FtZQAAAAAAAAAAAAAAAA"].
Proof. vm_compute. split; reflexivity. Qed.

(** ** Inlined vector graphics *)

Lemma matchHere_svg (s : bytes) :
  matchHere cssSVGEmbed s =
  if hasPrefix s (raw "svg-embed('")
  then lazyDot (svgTail s) [] (drop (length (raw "svg-embed('")) s)
  else None.
Proof. reflexivity. Qed.

Lemma hasPrefix_byte (x : ascii) (s : bytes) :
  hasPrefix s [x] = true -> exists t, s = x :: t.
Proof.
  intros H. apply hasPrefix_true in H. simpl in H. eauto.
Qed.

Lemma svgTail_intro (s cap : bytes) (override : option bytes) (post : bytes) :
  plainOverride override ->
  svgTail s cap (raw "'" ++ overrideText override ++ raw ")" ++ post) =
  Some (length s - length post, [cap; default [] override]).
Proof.
  intros Hov. unfold svgTail. cbn [matchK].
  rewrite hasPrefix_app, drop_app_length.
  destruct override as [color |]; unfold overrideText.
  - destruct Hov as [Hp Hn].
    rewrite <- app_assoc, hasPrefix_app, drop_app_length.
    erewrite (lazyDot_skip _ ")"%char); [reflexivity | | assumption | assumption |].
    + intros a y t Hy. change (raw ")") with [")"%char].
      now rewrite hasPrefix_other.
    + now rewrite hasPrefix_app, drop_app_length.
  - cbn [app]. change (raw ")" ++ post) with (")"%char :: post).
    change (raw ",") with [","%char]. rewrite hasPrefix_other by discriminate.
    change (")"%char :: post) with (raw ")" ++ post).
    now rewrite hasPrefix_app, drop_app_length.
Qed.

Lemma svgTail_Some (s cap rest : bytes) n caps :
  svgTail s cap rest = Some (n, caps) ->
  exists override post,
    rest = raw "'" ++ overrideText override ++ raw ")" ++ post /\
    plainOverride override /\
    n = length s - length post /\ caps = [cap; default [] override].
Proof.
  unfold svgTail. cbn [matchK].
  destruct (hasPrefix rest (raw "'")) eqn:Hq; [| discriminate].
  apply hasPrefix_true in Hq. set (rest1 := drop (length (raw "'")) rest) in *.
  destruct (hasPrefix rest1 (raw ",")) eqn:Hc.
  - apply hasPrefix_true in Hc.
    set (rest2 := drop (length (raw ",")) rest1) in *.
    match goal with
    | |- match ?l with _ => _ end = _ -> _ => destruct l as [r |] eqn:Hl
    end.
    + intros Hr. injection Hr as ->.
      apply lazyDot_Some in Hl as (color & rest3 & H2 & Hnl & Hk & Hmin).
      destruct (hasPrefix rest3 (raw ")")) eqn:Hp; [| discriminate].
      injection Hk as <- <-. apply hasPrefix_true in Hp.
      set (post := drop (length (raw ")")) rest3) in *.
      exists (Some color), post. split; [| split; [split |]]; auto.
      * rewrite Hq, Hc, H2, Hp. unfold overrideText.
        now rewrite <- !app_assoc.
      * apply (refused_absent _ _ rest3). intros u v Huv Hv.
        specialize (Hmin u v Huv Hv). cbn beta in Hmin.
        change [")"%char] with (raw ")").
        destruct (hasPrefix (v ++ rest3) (raw ")")); [discriminate | reflexivity].
    + rewrite Hc. change (raw "," ++ rest2) with (","%char :: rest2).
      change (raw ")") with [")"%char].
      rewrite hasPrefix_other by discriminate. discriminate.
  - destruct (hasPrefix rest1 (raw ")")) eqn:Hp; [| discriminate].
    intros Hr. injection Hr as <- <-. apply hasPrefix_true in Hp.
    exists None, (drop (length (raw ")")) rest1).
    split; [| split; [exact I | split; reflexivity]].
    rewrite Hq at 1. rewrite Hp at 1. reflexivity.
Qed.

(** A tail refused on an input is refused on every prefix of it. *)
Lemma svgTail_trunc (s s' cap x e : bytes) :
  svgTail s cap (x ++ e) = None -> svgTail s' cap x = None.
Proof.
  intros H. destruct (svgTail s' cap x) as [[n caps] |] eqn:E; [| reflexivity].
  apply svgTail_Some in E as (override & post & -> & Hov & _).
  rewrite <- !app_assoc in H.
  rewrite (svgTail_intro s cap override (post ++ e) Hov) in H. discriminate.
Qed.

Lemma matchHere_svg_Some (s : bytes) n caps :
  matchHere cssSVGEmbed s = Some (n, caps) ->
  exists file override post,
    s = svgMarker file override ++ post /\
    n = length (svgMarker file override) /\
    caps = [file; default [] override] /\
    (nl ∉ file) /\ plainOverride override /\
    (forall u v, file = u ++ v -> v <> [] ->
       svgTail s u (v ++ raw "'" ++ overrideText override ++ raw ")" ++ post)
       = None).
Proof.
  rewrite matchHere_svg.
  destruct (hasPrefix s (raw "svg-embed('")) eqn:Ho; [| discriminate].
  intros H. apply lazyDot_Some in H as (file & rest & Hs & Hnl & Hk & Hmin).
  apply svgTail_Some in Hk as (override & post & -> & Hov & -> & ->).
  apply hasPrefix_true in Ho.
  assert (s = svgMarker file override ++ post) as Es.
  { rewrite Ho, Hs. unfold svgMarker. now rewrite <- !app_assoc. }
  exists file, override, post.
  split; [exact Es |]. split; [| split; [reflexivity | split; [exact Hnl |]]].
  - rewrite Es at 1. rewrite length_app. lia.
  - split; [exact Hov |]. intros u v Huv Hv. exact (Hmin u v Huv Hv).
Qed.

(** Matching the bytes of a match alone finds the same groups. *)
Lemma matchHere_svg_again (s : bytes) n caps :
  matchHere cssSVGEmbed s = Some (n, caps) ->
  matchHere cssSVGEmbed (take n s) = Some (n, caps).
Proof.
  intros H. apply matchHere_svg_Some in H
    as (file & override & post & -> & -> & -> & Hnl & Hov & Hmin).
  rewrite take_app_length. set (m := svgMarker file override).
  rewrite matchHere_svg. unfold m at 1 3, svgMarker.
  rewrite hasPrefix_app, drop_app_length.
  replace (raw "'" ++ overrideText override ++ raw ")")
    with (raw "'" ++ overrideText override ++ raw ")" ++ [])
    by now rewrite app_nil_r.
  apply lazyDot_intro; [assumption | |].
  - intros u v Huv Hv. specialize (Hmin u v Huv Hv).
    apply (svgTail_trunc (svgMarker file override ++ post) m u _ post).
    rewrite <- Hmin. f_equal. now rewrite <- !app_assoc.
  - rewrite (svgTail_intro m _ override [] Hov). simpl length.
    now rewrite Nat.sub_0_r.
Qed.

(** Every svg-embed reference of an input is a marker, and the resolver
    finds its file and its override again. *)
Lemma cssSVGEmbed_reference (s m : bytes) :
  Found m ∈ segments cssSVGEmbed s ->
  exists file override,
    m = svgMarker file override /\ (nl ∉ file) /\ plainOverride override /\
    findSubmatch cssSVGEmbed m = Some [m; file; default [] override].
Proof.
  intros H. apply segments_Found in H as (s' & n & caps & Hm & ->).
  pose proof (matchHere_svg_again _ _ _ Hm) as Hagain.
  apply matchHere_svg_Some in Hm
    as (file & override & post & -> & Hn & -> & Hnl & Hov & _).
  rewrite Hn, take_app_length in Hagain |- *.
  exists file, override. split; [reflexivity |]. split; [assumption |].
  split; [assumption |].
  rewrite (findSubmatch_here _ _ _ _ Hagain). now rewrite firstn_all.
Qed.

(** A marker whose file name has no quote is a match, and the whole of it. *)
Lemma cssSVGEmbed_marker (file : bytes) (override : option bytes) (post : bytes) :
  "'"%char ∉ file -> nl ∉ file -> plainOverride override ->
  matchHere cssSVGEmbed (svgMarker file override ++ post) =
  Some (length (svgMarker file override), [file; default [] override]).
Proof.
  intros Hq Hnl Hov. set (s := svgMarker file override ++ post).
  assert (s = raw "svg-embed('"
                ++ file ++ raw "'" ++ overrideText override ++ raw ")" ++ post)
    as Es by (unfold s, svgMarker; now rewrite <- !app_assoc).
  rewrite matchHere_svg.
  replace (hasPrefix s (raw "svg-embed('")) with true
    by (rewrite Es; symmetry; apply hasPrefix_app).
  replace (drop (length (raw "svg-embed('")) s)
    with (file ++ raw "'" ++ overrideText override ++ raw ")" ++ post)
    by (rewrite Es; now rewrite drop_app_length).
  apply (lazyDot_skip _ "'"%char); [| assumption | assumption |].
  - intros a y t Hy. unfold svgTail. cbn [matchK].
    change (raw "'") with ["'"%char]. now rewrite hasPrefix_other.
  - cbn [app]. rewrite (svgTail_intro s file override post Hov).
    do 2 f_equal. unfold s. rewrite length_app. lia.
Qed.





(** Two markers resolved: with an override, and with none. *)
Example svg_embed_with_override :
  cssSVGEmbedFunc
    (Fixture.tree [("i.svg", "<svg fill=" +:+ str [dq] +:+ "FILL" +:+ str [dq]
                               +:+ " stroke='var(--blue)'/>")])
    (raw "svg-embed('i.svg',#fff)")
  = Ok (raw ("url(" +:+ str [dq]
               +:+ "data:image/svg+xml,<svg fill='%23fff' stroke='%23007bff'/>"
               +:+ str [dq] +:+ ")")).
Proof. vm_compute. reflexivity. Qed.

Example svg_embed_without_override :
  cssSVGEmbedFunc (Fixture.tree [("i.svg", "<svg fill='FILL'/>")])
    (raw "svg-embed('i.svg')")
  = Ok (raw ("url(" +:+ str [dq] +:+ "data:image/svg+xml,<svg fill='FILL'/>"
               +:+ str [dq] +:+ ")")).
Proof. vm_compute. reflexivity. Qed.

(** The color variables of a small stylesheet, a known and an unknown
    name. *)
Example variables_resolved :
  ReplaceAllFunc cssVariable (raw "a{b:var(--blue);c:var(--nope)}")
    cssVariableFunc
  = Ok (raw "a{b:#007bff;c:}").
Proof. vm_compute. reflexivity. Qed.

(** * Further properties of the build *)

(** ** The comparison and the order it gives *)

Lemma less_irrefl (a : string) : less a a = false.
Proof.
  destruct (less a a) eqn:E; [| reflexivity].
  apply less_true in E as [? | [_ E]]; [lia |].
  rewrite leb_refl in E. discriminate.
Qed.

Lemma less_total (a b : string) :
  a <> b -> less a b = true \/ less b a = true.
Proof.
  intros Hne. destruct (less a b) eqn:Eab; [now left |].
  destruct (less b a) eqn:Eba; [now right |].
  exfalso. apply Hne. now apply (notAfter_antisymm a b).
Qed.

Lemma less_trans (a b c : string) :
  less a b = true -> less b c = true -> less a c = true.
Proof.
  intros Hab Hbc. apply less_true.
  apply less_true in Hab as [Hab | [Hab Hab']];
    apply less_true in Hbc as [Hbc | [Hbc Hbc']]; try (left; lia).
  right. split; [lia |].
  destruct (String.leb c a) eqn:E; [| reflexivity].
  assert (String.leb b c = true) as Hbc''.
  { destruct (String.leb_total b c); [assumption | congruence]. }
  rewrite (leb_trans _ _ _ Hbc'' E) in Hab'. discriminate.
Qed.

(** X1: the comparison given to [sort.Slice] is a strict total order on
    paths: no path sorts before itself, two different paths are ordered
    one way and never both ways, and the order is transitive. *)
Theorem less_strict_total_order :
  (forall a, less a a = false) /\
  (forall a b, less a b = true -> less b a = false) /\
  (forall a b c, less a b = true -> less b c = true -> less a c = true) /\
  (forall a b, a <> b -> less a b = true \/ less b a = true).
Proof.
  split; [exact less_irrefl |]. split; [exact less_notAfter |].
  split; [exact less_trans | exact less_total].
Qed.

(** The contract of [sort.Slice], index by index, makes a list sorted. *)
Lemma pairwise_Sorted (order : list string) :
  (forall i j x y, i < j -> order !! i = Some x -> order !! j = Some y ->
                   less y x = false) ->
  Sorted notAfter order.
Proof.
  induction order as [| a t IH]; intros H; [constructor |].
  constructor.
  - apply IH. intros i j x y Hij Hi Hj. apply (H (S i) (S j)); auto with lia.
  - destruct t as [| b t]; constructor.
    apply (H 0 1); auto with lia.
Qed.

(** X2: the processing order is a permutation of the files discovered in
    which no file sorts before an earlier one, and it is the only such
    permutation: whatever [sort.Slice] does with paths it need not keep
    in place, its result is this order. *)
Theorem processing_order_unique (entries : list (string * bool))
    (order : list string) :
  order ≡ₚ discover entries ->
  (forall i j x y, i < j -> order !! i = Some x -> order !! j = Some y ->
                   less y x = false) ->
  order = processingOrder entries /\
  processingOrder entries ≡ₚ discover entries /\
  Sorted notAfter (processingOrder entries).
Proof.
  intros Hp Hs. split; [| split].
  - apply sorted_unique; [assumption | now apply pairwise_Sorted].
  - apply processingOrder_perm.
  - apply sortSlice_sorted.
Qed.

Lemma processing_order_unique_witness :
  ["images/z.png"; "service-worker.js"; "app.js"]
  = processingOrder
      [("app.js", false); ("images/z.png", false); ("service-worker.js", false)] /\
  processingOrder
    [("app.js", false); ("images/z.png", false); ("service-worker.js", false)]
  ≡ₚ discover
      [("app.js", false); ("images/z.png", false); ("service-worker.js", false)] /\
  Sorted notAfter
    (processingOrder
       [("app.js", false); ("images/z.png", false); ("service-worker.js", false)]).
Proof.
  apply (processing_order_unique
           [("app.js", false); ("images/z.png", false); ("service-worker.js", false)]
           ["images/z.png"; "service-worker.js"; "app.js"]).
  - change (discover
              [("app.js", false); ("images/z.png", false);
               ("service-worker.js", false)])
      with ["app.js"; "images/z.png"; "service-worker.js"].
    apply (@perm_trans _ _ ["images/z.png"; "app.js"; "service-worker.js"]);
      [apply perm_skip, perm_swap | apply perm_swap].
  - intros i j x y Hij Hi Hj.
    destruct i as [| [| [| i]]]; destruct j as [| [| [| j]]];
      try lia; try discriminate;
      injection Hi as <-; injection Hj as <-; vm_compute; reflexivity.
Defined.

(** Two files that the comparison orders are processed in that order. *)
Lemma less_order (l : list string) (x y : string) :
  x ∈ l -> y ∈ l -> less x y = true ->
  exists l1 l2 l3, sortSlice less l = l1 ++ x :: l2 ++ y :: l3.
Proof.
  intros Hx Hy Hlt.
  pose proof (sortSlice_sorted l) as Hs.
  apply (Sorted_StronglySorted notAfter) in Hs.
  rewrite <- (sortSlice_perm l) in Hx, Hy.
  apply list_elem_of_split in Hx as (l1 & r & Heq).
  rewrite Heq in Hy, Hs |- *.
  apply elem_of_app in Hy as [Hy | Hy].
  - exfalso.
    assert (notAfter y x) as Hyx.
    { eapply (StronglySorted_app_1_elem_of notAfter); eauto. left. }
    unfold notAfter in Hyx. congruence.
  - apply elem_of_cons in Hy as [-> | Hy].
    + rewrite less_irrefl in Hlt. discriminate.
    + apply list_elem_of_split in Hy as (l2 & l3 & ->). eauto.
Qed.

(** X3: among the files under images/, among the service workers
    outside it, and among the rest, the order is that of the paths
    compared byte by byte. *)
Theorem same_tier_lexicographic (entries : list (string * bool)) (x y : string) :
  x ∈ discover entries -> y ∈ discover entries ->
  isImage x = isImage y -> isServiceWorker x = isServiceWorker y ->
  String.ltb x y = true ->
  processedBefore (processingOrder entries) x y.
Proof.
  intros Hx Hy Hi Hs Hlt. unfold processingOrder.
  destruct (less_order _ x y Hx Hy) as (l1 & l2 & l3 & ->).
  - unfold less. fold (isImage x) (isImage y)
      (isServiceWorker x) (isServiceWorker y).
    rewrite Hi, Hs, !eqb_reflx. exact Hlt.
  - apply split_processedBefore.
Qed.

Lemma same_tier_lexicographic_witness :
  processedBefore
    (processingOrder [("z.css", false); ("a/b.js", false); ("a.js", false)])
    "a.js" "a/b.js".
Proof.
  apply (same_tier_lexicographic
           [("z.css", false); ("a/b.js", false); ("a.js", false)]
           "a.js" "a/b.js").
  - vm_compute. repeat constructor.
  - vm_compute. repeat constructor.
  - reflexivity.
  - reflexivity.
  - reflexivity.
Defined.

(** ** What the tables hold *)

Section Tables.
Variable L : Libs.
Variable fs : FS.
Variable dev : bool.

(** A property that every turn keeps holds after the loop. *)
Lemma processFiles_invariant (P : State -> Prop) :
  (forall st file st', P st -> processFile L fs dev st file = Ok st' -> P st') ->
  forall files st st',
    P st -> processFiles L fs dev st files = Ok st' -> P st'.
Proof.
  intros Hstep files. induction files as [| f files IH]; intros st st' HP H.
  - simpl in H. now injection H as <-.
  - simpl in H. apply bind_Ok in H as (st1 & H1 & H). eauto.
Qed.

(** A turn is a skip or an insertion into both tables. *)
Lemma processFile_cases (st st' : State) (file : string) :
  processFile L fs dev st file = Ok st' ->
  (Ext file = ".go" /\ st' = st) \/
  (Ext file <> ".go" /\
   exists mime raw0 data enc,
     mimes !! Ext file = Some mime /\
     readFile fs file = Some raw0 /\
     transform L fs (paths st) (Ext file) mime raw0 = Ok data /\
     encode L dev (Ext file) data = Ok enc /\
     st' = mkState
             (<[fingerprintOf L data := mkAsset (fst enc) data (snd enc) mime]>
                (assets st))
             (<[file := "/assets/" +:+ fingerprintOf L data]> (paths st))).
Proof.
  intros H. destruct (String.eqb (Ext file) ".go") eqn:Hgo.
  - apply String.eqb_eq in Hgo. left.
    rewrite processFile_go in H by assumption. now injection H as <-.
  - apply String.eqb_neq in Hgo. right. split; [assumption |].
    now apply processFile_Ok.
Qed.

Lemma processFile_paths_iff (st st' : State) (file x : string) :
  processFile L fs dev st file = Ok st' ->
  is_Some (paths st' !! x) <->
  is_Some (paths st !! x) \/ (x = file /\ Ext x <> ".go").
Proof.
  intros H. apply processFile_cases in H
    as [[Hgo ->] | [Hgo (? & ? & ? & ? & _ & _ & _ & _ & ->)]].
  - split; [now left |]. intros [? | [-> ?]]; [assumption | contradiction].
  - simpl. rewrite lookup_insert. case_decide as Hx.
    + subst x. split; [now right | eauto].
    + split; [now left |]. intros [? | [-> ?]]; [assumption | contradiction].
Qed.

Lemma processFiles_paths_iff (st st' : State) (files : list string) (x : string) :
  processFiles L fs dev st files = Ok st' ->
  is_Some (paths st' !! x) <->
  is_Some (paths st !! x) \/ (x ∈ files /\ Ext x <> ".go").
Proof.
  revert st. induction files as [| f files IH]; intros st H; simpl in H.
  - injection H as <-. split; [now left |].
    intros [? | [Hin _]]; [assumption | now apply elem_of_nil in Hin].
  - apply bind_Ok in H as (st1 & H1 & H).
    rewrite (IH _ H), (processFile_paths_iff _ _ _ _ H1), elem_of_cons.
    tauto.
Qed.
End Tables.

Lemma processed_paths_iff (L : Libs) (fs : FS) (dev : bool)
    (processed : list string) (st : State) (x : string) :
  processFiles L fs dev (mkState ∅ ∅) processed = Ok st ->
  is_Some (paths st !! x) <-> x ∈ processed /\ Ext x <> ".go".
Proof.
  intros H. pose proof (processFiles_paths_iff L fs dev _ _ _ x H) as Hiff.
  simpl in Hiff. rewrite lookup_empty in Hiff.
  rewrite Hiff. split; [| now right].
  intros [[? Hnone] | ?]; [discriminate | assumption].
Qed.

(** X4: at every point of the loop the path table holds exactly the
    files already processed, the skipped .go files left out; a path not
    yet processed reads as the empty string. *)
Theorem path_table_holds_the_processed (L : Libs) (fs : FS) (dev : bool)
    (processed : list string) (st : State) (x : string) :
  processFiles L fs dev (mkState ∅ ∅) processed = Ok st ->
  (is_Some (paths st !! x) <-> x ∈ processed /\ Ext x <> ".go") /\
  (x ∉ processed -> mapStr (paths st) x = "").
Proof.
  intros H. pose proof (processed_paths_iff L fs dev _ _ x H) as Hx.
  split; [exact Hx |].
  intros Hnot. apply mapStr_None.
  destruct (paths st !! x) eqn:E; [| reflexivity].
  exfalso. apply Hnot. apply Hx. eauto.
Qed.

Lemma path_table_holds_the_processed_witness :
  (is_Some (paths (Fixture.after Fixture.withWorker true 1) !! "app.js")
   <-> "app.js" ∈ ["service-worker.js"] /\ Ext "app.js" <> ".go") /\
  ("app.js" ∉ ["service-worker.js"] ->
   mapStr (paths (Fixture.after Fixture.withWorker true 1)) "app.js" = "").
Proof.
  apply (path_table_holds_the_processed Fixture.libs Fixture.withWorker true
           ["service-worker.js"] (Fixture.after Fixture.withWorker true 1)
           "app.js").
  vm_compute. reflexivity.
Defined.

Lemma discover_spec (entries : list (string * bool)) (x : string) :
  x ∈ discover entries <->
  (x, false) ∈ entries /\ HasPrefix (Base x) "_" = false.
Proof.
  unfold discover. rewrite list_elem_of_In, in_map_iff. split.
  - intros ([f d] & <- & Hin). apply list_elem_of_In in Hin.
    apply list_elem_of_filter in Hin as [Hf Hin].
    simpl in *. apply Is_true_true in Hf.
    apply andb_true_iff in Hf as [Hd Hb].
    apply negb_true_iff in Hd, Hb. subst d. now split.
  - intros [Hin Hb]. exists (x, false). split; [reflexivity |].
    apply list_elem_of_In, list_elem_of_filter. split; [| assumption].
    simpl. now rewrite Hb.
Qed.

(** X5: when a build ends without a panic, the keys of [Paths] are
    exactly the paths the walk lists as files, whose base name does not
    start with an underscore and whose extension is not .go. *)
Theorem paths_keys_of_a_build (L : Libs) (fs : FS) (dev : bool)
    (entries : list (string * bool)) (st : State) (x : string) :
  walk fs = Some entries ->
  buildTables L fs dev = Ok st ->
  is_Some (paths st !! x) <->
  (x, false) ∈ entries /\ HasPrefix (Base x) "_" = false /\ Ext x <> ".go".
Proof.
  intros Hwalk Hrun. unfold buildTables in Hrun. rewrite Hwalk in Hrun. simpl in Hrun.
  rewrite (processed_paths_iff L fs dev _ _ x Hrun).
  rewrite processingOrder_perm, discover_spec. tauto.
Qed.

Lemma paths_keys_of_a_build_witness :
  is_Some (paths (Fixture.built Fixture.styled false) !! "_dot.svg") <->
  ("_dot.svg", false)
    ∈ [("_dot.svg", false); ("images/a.png", false); ("s.css", false)] /\
  HasPrefix (Base "_dot.svg") "_" = false /\ Ext "_dot.svg" <> ".go".
Proof.
  apply (paths_keys_of_a_build Fixture.libs Fixture.styled false
           [("_dot.svg", false); ("images/a.png", false); ("s.css", false)]
           (Fixture.built Fixture.styled false) "_dot.svg").
  - reflexivity.
  - vm_compute. reflexivity.
Defined.

(** X6: there are no forward references.  When the walk lists every
    path once, a file's own path and the paths of the files processed
    after it are not in the path table at its turn, so a reference to
    any of them is resolved around the empty string. *)
Theorem no_forward_references (L : Libs) (fs : FS) (dev : bool)
    (entries : list (string * bool)) (pre post : list string)
    (y x : string) (st : State) :
  NoDup (discover entries) ->
  processingOrder entries = pre ++ y :: post ->
  processFiles L fs dev (mkState ∅ ∅) pre = Ok st ->
  x ∈ y :: post ->
  paths st !! x = None /\
  forall kind s m,
    Found m ∈ segments (refPattern kind) s ->
    m = refMarker kind (raw x) ->
    refResolver kind (paths st) m = Ok (refResolved kind "").
Proof.
  intros Hnd Hsplit Hpre Hx.
  assert (paths st !! x = None) as Hnone.
  { rewrite <- processingOrder_perm, Hsplit in Hnd.
    apply NoDup_app in Hnd as (_ & Hdisj & _).
    destruct (paths st !! x) eqn:E; [| reflexivity]. exfalso.
    assert (x ∈ pre) as Hin.
    { apply (processed_paths_iff L fs dev pre st x Hpre). eauto. }
    exact (Hdisj x Hin Hx). }
  split; [assumption |].
  intros kind s m Hm Hmark.
  apply (pathReference_found kind (paths st)) in Hm as (file & Hfile & ->).
  rewrite Hfile in Hmark. apply refMarker_inj in Hmark as ->.
  now rewrite str_raw, (mapStr_None _ _ Hnone).
Qed.

Lemma no_forward_references_witness :
  paths (Fixture.after Fixture.withWorker true 0) !! "app.js" = None /\
  forall kind s m,
    Found m ∈ segments (refPattern kind) s ->
    m = refMarker kind (raw "app.js") ->
    refResolver kind (paths (Fixture.after Fixture.withWorker true 0)) m
    = Ok (refResolved kind "").
Proof.
  apply (no_forward_references Fixture.libs Fixture.withWorker true
           [("app.js", false); ("service-worker.js", false)]
           [] ["app.js"] "service-worker.js" "app.js").
  - apply (bool_decide_unpack _). vm_compute. exact I.
  - vm_compute. reflexivity.
  - reflexivity.
  - vm_compute. repeat constructor.
Defined.

Lemma mimes_nonempty (ext mime : string) :
  mimes !! ext = Some mime -> mime <> "".
Proof.
  intros H. apply elem_of_list_to_map_2 in H.
  repeat (apply elem_of_cons in H as [H | H]; [injection H as _ ->; discriminate |]).
  now apply elem_of_nil in H.
Qed.

Lemma path_names_asset (L : Libs) (fs : FS) (dev : bool)
    (files : list string) (st : State) (file public : string) :
  processFiles L fs dev (mkState ∅ ∅) files = Ok st ->
  paths st !! file = Some public ->
  exists asset,
    public = "/assets/" +:+ fingerprintOf L (Data asset) /\
    assets st !! fingerprintOf L (Data asset) = Some asset.
Proof.
  intros H. revert file public.
  apply (processFiles_invariant L fs dev
           (fun st => forall file public, paths st !! file = Some public ->
              exists asset,
                public = "/assets/" +:+ fingerprintOf L (Data asset) /\
                assets st !! fingerprintOf L (Data asset) = Some asset))
    with (files := files) (st := mkState ∅ ∅); [| | exact H].
  - clear. intros st f st' IH Hf file public Hp.
    apply processFile_cases in Hf
      as [[_ ->] | [_ (mime & raw0 & d & enc & _ & _ & _ & _ & ->)]];
      [exact (IH _ _ Hp) |].
    simpl in *. rewrite lookup_insert in Hp. case_decide.
    + injection Hp as <-.
      exists (mkAsset (fst enc) d (snd enc) mime). simpl.
      split; [reflexivity | apply lookup_insert_eq].
    + apply IH in Hp as (asset & -> & Ha).
      destruct (decide (fingerprintOf L d = fingerprintOf L (Data asset)))
        as [Heq | Hne].
      * exists (mkAsset (fst enc) d (snd enc) mime). simpl.
        split; [now rewrite Heq | apply lookup_insert_eq].
      * exists asset. split; [reflexivity |]. now rewrite lookup_insert_ne.
  - intros file public Hp. simpl in Hp. now rewrite lookup_empty in Hp.
Qed.

(** X7: every entry of [Paths] is "/assets/" followed by a key of
    [Assets], and the asset under that key has the bytes the key is
    the fingerprint of: no public path dangles. *)
Theorem every_path_names_an_asset (L : Libs) (fs : FS) (dev : bool)
    (files : list string) (st : State) (file public : string) :
  processFiles L fs dev (mkState ∅ ∅) files = Ok st ->
  paths st !! file = Some public ->
  exists asset,
    public = "/assets/" +:+ fingerprintOf L (Data asset) /\
    assets st !! fingerprintOf L (Data asset) = Some asset.
Proof. apply path_names_asset. Qed.

Lemma every_path_names_an_asset_witness :
  exists asset,
    "/assets/c2FtZQAAAAAAAAAAAAAAAA"
    = "/assets/" +:+ fingerprintOf Fixture.libs (Data asset) /\
    assets (Fixture.after Fixture.twins false 2)
      !! fingerprintOf Fixture.libs (Data asset) = Some asset.
Proof.
  apply (every_path_names_an_asset Fixture.libs Fixture.twins false
           ["a.png"; "b.png"] (Fixture.after Fixture.twins false 2) "a.png").
  - vm_compute. reflexivity.
  - vm_compute. reflexivity.
Defined.

(** X8: every key of [Assets] is the fingerprint of the data stored
    under it, and the MIME type stored with it is a type of the MIME
    table, never the empty string. *)
Theorem asset_keys_are_fingerprints (L : Libs) (fs : FS) (dev : bool)
    (files : list string) (st : State) (key : string) (asset : Asset) :
  processFiles L fs dev (mkState ∅ ∅) files = Ok st ->
  assets st !! key = Some asset ->
  key = RawURLEncoding_EncodeToString (md5_Sum L (Data asset)) /\
  (exists ext, mimes !! ext = Some (Mime asset)) /\ Mime asset <> "".
Proof.
  intros H. revert key asset.
  apply (processFiles_invariant L fs dev
           (fun st => forall key asset, assets st !! key = Some asset ->
              key = RawURLEncoding_EncodeToString (md5_Sum L (Data asset)) /\
              (exists ext, mimes !! ext = Some (Mime asset)) /\
              Mime asset <> ""))
    with (files := files) (st := mkState ∅ ∅); [| | exact H].
  - clear. intros st f st' IH Hf key asset Ha.
    apply processFile_cases in Hf
      as [[_ ->] | [_ (mime & raw0 & d & enc & Hmime & _ & _ & _ & ->)]];
      [exact (IH _ _ Ha) |].
    simpl in *. rewrite lookup_insert in Ha. case_decide.
    + injection Ha as <-. subst key. simpl.
      split; [reflexivity |]. split; [eauto | now apply (mimes_nonempty (Ext f))].
    + exact (IH _ _ Ha).
  - intros key asset Ha. simpl in Ha. now rewrite lookup_empty in Ha.
Qed.

Lemma asset_keys_are_fingerprints_witness :
  "c2FtZQAAAAAAAAAAAAAAAA"
  = RawURLEncoding_EncodeToString
      (md5_Sum Fixture.libs (Data (mkAsset [] (raw "same") (raw "same") "image/png"))) /\
  (exists ext,
      mimes !! ext = Some (Mime (mkAsset [] (raw "same") (raw "same") "image/png"))) /\
  Mime (mkAsset [] (raw "same") (raw "same") "image/png") <> "".
Proof.
  apply (asset_keys_are_fingerprints Fixture.libs Fixture.twins false
           ["a.png"; "b.png"] (Fixture.after Fixture.twins false 2)).
  - vm_compute. reflexivity.
  - vm_compute. reflexivity.
Defined.

Section Orphans.
Variable L : Libs.
Variable fs : FS.
Variable dev : bool.

Lemma processFiles_no_orphans (files : list string) (st st' : State) :
  NoDup files ->
  (forall f, f ∈ files -> paths st !! f = None) ->
  (forall key asset, assets st !! key = Some asset ->
     exists f, paths st !! f = Some ("/assets/" +:+ key)) ->
  processFiles L fs dev st files = Ok st' ->
  forall key asset, assets st' !! key = Some asset ->
    exists f, paths st' !! f = Some ("/assets/" +:+ key).
Proof.
  revert st. induction files as [| f files IH]; intros st Hnd Hfresh Hinv H.
  - simpl in H. now injection H as <-.
  - simpl in H. apply bind_Ok in H as (st1 & H1 & H).
    apply NoDup_cons in Hnd as [Hf Hnd].
    apply (IH st1); [assumption | | | assumption].
    + intros g Hg.
      destruct (paths st1 !! g) eqn:E; [| reflexivity]. exfalso.
      assert (is_Some (paths st1 !! g)) as Hs by eauto.
      apply (processFile_paths_iff L fs dev _ _ _ _ H1) in Hs
        as [[? Hs] | [-> _]]; [| contradiction].
      rewrite Hfresh in Hs by now right. discriminate.
    + apply processFile_cases in H1
        as [[_ ->] | [_ (mime & raw0 & d & enc & _ & _ & _ & _ & ->)]];
        [assumption |].
      simpl. intros key asset Ha. rewrite lookup_insert in Ha. case_decide.
      * subst key. exists f. apply lookup_insert_eq.
      * apply Hinv in Ha as (g & Hg). exists g.
        rewrite lookup_insert_ne; [assumption |].
        intros <-. rewrite Hfresh in Hg by left. discriminate.
Qed.
End Orphans.

(** X9: when the walk lists every path once, every asset of a build is
    the target of a path: each key of [Assets] occurs, behind
    "/assets/", as the public path of a discovered file. *)
Theorem every_asset_has_a_path (L : Libs) (fs : FS) (dev : bool)
    (entries : list (string * bool)) (st : State) (key : string)
    (asset : Asset) :
  walk fs = Some entries ->
  NoDup (discover entries) ->
  buildTables L fs dev = Ok st ->
  assets st !! key = Some asset ->
  exists file,
    file ∈ discover entries /\ paths st !! file = Some ("/assets/" +:+ key).
Proof.
  intros Hwalk Hnd Hrun Ha. unfold buildTables in Hrun. rewrite Hwalk in Hrun.
  simpl in Hrun.
  assert (exists file, paths st !! file = Some ("/assets/" +:+ key))
    as (file & Hfile).
  { apply (processFiles_no_orphans L fs dev (processingOrder entries)
             (mkState ∅ ∅) st) with (asset := asset); try assumption.
    - now rewrite processingOrder_perm.
    - intros f _. apply lookup_empty.
    - intros k a Hk. simpl in Hk. now rewrite lookup_empty in Hk. }
  exists file. split; [| assumption].
  rewrite <- processingOrder_perm.
  apply (processed_paths_iff L fs dev _ _ file Hrun). eauto.
Qed.

Lemma every_asset_has_a_path_witness :
  exists file,
    file ∈ discover [("a.png", false); ("b.png", false)] /\
    paths (Fixture.built Fixture.twins false) !! file
    = Some ("/assets/" +:+ "c2FtZQAAAAAAAAAAAAAAAA").
Proof.
  apply (every_asset_has_a_path Fixture.libs Fixture.twins false
           [("a.png", false); ("b.png", false)]
           (Fixture.built Fixture.twins false) "c2FtZQAAAAAAAAAAAAAAAA"
           (mkAsset [] (raw "same") (raw "same") "image/png")).
  - reflexivity.
  - apply (bool_decide_unpack _). vm_compute. exact I.
  - vm_compute. reflexivity.
  - vm_compute. reflexivity.
Defined.

(** ** Compression and re-encoding *)

(** X10: in development mode no asset of a build carries Brotli or WebP
    bytes. *)
Theorem development_mode_encodes_nothing (L : Libs) (fs : FS) (st : State)
    (key : string) (asset : Asset) :
  buildTables L fs true = Ok st ->
  assets st !! key = Some asset ->
  Br asset = [] /\ WebP asset = [].
Proof.
  intros Hrun. unfold buildTables in Hrun.
  apply bind_Ok in Hrun as (entries & _ & Hrun). revert key asset.
  apply (processFiles_invariant L fs true
           (fun st => forall key asset, assets st !! key = Some asset ->
                        Br asset = [] /\ WebP asset = []))
    with (files := processingOrder entries) (st := mkState ∅ ∅);
    [| | exact Hrun].
  - clear. intros st f st' IH Hf key asset Ha.
    apply processFile_cases in Hf
      as [[_ ->] | [_ (mime & raw0 & d & enc & _ & _ & _ & Henc & ->)]];
      [exact (IH _ _ Ha) |].
    simpl in *. rewrite lookup_insert in Ha. case_decide.
    + injection Ha as <-. unfold encode in Henc. injection Henc as <-.
      now split.
    + exact (IH _ _ Ha).
  - intros key asset Ha. simpl in Ha. now rewrite lookup_empty in Ha.
Qed.

Lemma development_mode_encodes_nothing_witness :
  Br (mkAsset [] (raw "same") [] "image/png") = [] /\
  WebP (mkAsset [] (raw "same") [] "image/png") = [].
Proof.
  apply (development_mode_encodes_nothing Fixture.libs Fixture.twins
           (Fixture.built Fixture.twins true) "c2FtZQAAAAAAAAAAAAAAAA").
  - vm_compute. reflexivity.
  - vm_compute. reflexivity.
Defined.

(** X11: outside development mode a stylesheet, a script and an SVG are
    stored with the Brotli compression of their transformed bytes and no
    WebP; a PNG with the WebP re-encoding of its bytes and no Brotli; a
    manifest, a JPEG and a font with neither. *)
Theorem production_encodings (L : Libs) (fs : FS) (st st' : State)
    (file : string) :
  Ext file <> ".go" ->
  processFile L fs false st file = Ok st' ->
  exists asset,
    paths st' !! file = Some ("/assets/" +:+ fingerprintOf L (Data asset)) /\
    assets st' !! fingerprintOf L (Data asset) = Some asset /\
    if isExt (Ext file) [".css"; ".js"; ".svg"]
    then enc_CompressBuffer L (Data asset) = Some (Br asset) /\ WebP asset = []
    else if isExt (Ext file) [".png"]
    then webp_of_png L (Data asset) = Some (WebP asset) /\ Br asset = []
    else Br asset = [] /\ WebP asset = [].
Proof.
  intros Hgo H.
  apply processFile_Ok in H
    as (mime & raw0 & d & enc & _ & _ & _ & Henc & ->); [| assumption].
  unfold encode in Henc.
  destruct (isExt (Ext file) [".css"; ".js"; ".svg"]) eqn:E1;
    [| destruct (isExt (Ext file) [".png"]) eqn:E2].
  - apply bind_Ok in Henc as (br & Hbr & Henc). injection Henc as <-.
    apply orPanic_Ok in Hbr.
    exists (mkAsset br d [] mime). cbn [Data Br WebP paths assets fst snd].
    split; [apply lookup_insert_eq |]. split; [apply lookup_insert_eq |].
    now split.
  - apply bind_Ok in Henc as (webp & Hw & Henc). injection Henc as <-.
    apply orPanic_Ok in Hw.
    exists (mkAsset [] d webp mime). cbn [Data Br WebP paths assets fst snd].
    split; [apply lookup_insert_eq |]. split; [apply lookup_insert_eq |].
    now split.
  - injection Henc as <-.
    exists (mkAsset [] d [] mime). cbn [Data Br WebP paths assets fst snd].
    split; [apply lookup_insert_eq |]. split; [apply lookup_insert_eq |].
    now split.
Qed.

Lemma production_encodings_witness :
  exists asset,
    paths (Fixture.after (Fixture.tree [("site.webmanifest", "{}")]) false 1)
      !! "site.webmanifest"
    = Some ("/assets/" +:+ fingerprintOf Fixture.libs (Data asset)) /\
    assets (Fixture.after (Fixture.tree [("site.webmanifest", "{}")]) false 1)
      !! fingerprintOf Fixture.libs (Data asset) = Some asset /\
    Br asset = [] /\ WebP asset = [].
Proof.
  apply (production_encodings Fixture.libs
           (Fixture.tree [("site.webmanifest", "{}")]) Fixture.start
           (Fixture.after (Fixture.tree [("site.webmanifest", "{}")]) false 1)
           "site.webmanifest").
  - vm_compute. discriminate.
  - vm_compute. reflexivity.
Defined.

(** The entry of a path is not touched by the turns of other files. *)
Lemma processFiles_paths_other (L : Libs) (fs : FS) (dev : bool)
    (files : list string) (st st' : State) (x : string) :
  processFiles L fs dev st files = Ok st' -> x ∉ files ->
  paths st' !! x = paths st !! x.
Proof.
  revert st. induction files as [| f files IH]; intros st H Hx; simpl in H.
  - now injection H as <-.
  - apply bind_Ok in H as (st1 & H1 & H).
    apply not_elem_of_cons in Hx as [Hne Hx]. rewrite (IH _ H Hx).
    apply processFile_cases in H1
      as [[_ ->] | [_ (? & ? & ? & ? & _ & _ & _ & _ & ->)]]; [reflexivity |].
    simpl. now rewrite lookup_insert_ne.
Qed.

(** X12: the asset table keeps one asset per fingerprint.  When a
    later file of the loop, the next one or not, has the transformed
    bytes of an earlier one, then after its turn the public paths of
    both files lead to one asset, and that asset carries the MIME type
    of the later file. *)
Theorem later_file_takes_the_asset (L : Libs) (fs : FS) (dev : bool)
    (st st1 stm st2 : State) (f1 f2 : string) (between : list string)
    (d : bytes) :
  Ext f1 <> ".go" -> Ext f2 <> ".go" ->
  f1 ∉ between -> f1 <> f2 ->
  processFile L fs dev st f1 = Ok st1 ->
  processFiles L fs dev st1 between = Ok stm ->
  processFile L fs dev stm f2 = Ok st2 ->
  transformedBytes L fs (paths st) f1 = Ok d ->
  transformedBytes L fs (paths stm) f2 = Ok d ->
  exists asset,
    paths st2 !! f1 = Some ("/assets/" +:+ fingerprintOf L d) /\
    paths st2 !! f2 = Some ("/assets/" +:+ fingerprintOf L d) /\
    assets st2 !! fingerprintOf L d = Some asset /\
    Data asset = d /\ Mime asset = mapStr mimes (Ext f2).
Proof.
  intros Hgo1 Hgo2 Hnot Hne H1 Hmid H2 Hd1 Hd2.
  pose proof (processFiles_paths_other L fs dev _ _ _ f1 Hmid Hnot) as Hkeep.
  apply processFile_Ok in H1
    as (mime1 & raw1 & d1 & enc1 & Hm1 & Hr1 & Ht1 & _ & ->); [| assumption].
  apply processFile_Ok in H2
    as (mime2 & raw2 & d2 & enc2 & Hm2 & Hr2 & Ht2 & _ & ->); [| assumption].
  unfold transformedBytes, ReadFile, mapStr in Hd1, Hd2.
  rewrite Hr1, Hm1 in Hd1. rewrite Hr2, Hm2 in Hd2.
  simpl in Hd1, Hd2.
  rewrite Ht1 in Hd1. rewrite Ht2 in Hd2.
  injection Hd1 as ->. injection Hd2 as ->.
  exists (mkAsset (fst enc2) d (snd enc2) mime2). cbn [paths assets Data Mime] in *.
  split; [| split; [| split; [| split]]].
  - rewrite lookup_insert_ne by congruence. rewrite Hkeep.
    apply lookup_insert_eq.
  - apply lookup_insert_eq.
  - apply lookup_insert_eq.
  - reflexivity.
  - unfold mapStr. now rewrite Hm2.
Qed.

Lemma later_file_takes_the_asset_witness :
  exists asset,
    paths (Fixture.after threeFiles true 3) !! "a.jpg"
    = Some ("/assets/" +:+ fingerprintOf Fixture.libs (raw "same")) /\
    paths (Fixture.after threeFiles true 3) !! "c.png"
    = Some ("/assets/" +:+ fingerprintOf Fixture.libs (raw "same")) /\
    assets (Fixture.after threeFiles true 3)
      !! fingerprintOf Fixture.libs (raw "same") = Some asset /\
    Data asset = raw "same" /\ Mime asset = mapStr mimes (Ext "c.png").
Proof.
  apply (later_file_takes_the_asset Fixture.libs threeFiles true
           Fixture.start (Fixture.after threeFiles true 1)
           (Fixture.after threeFiles true 2) (Fixture.after threeFiles true 3)
           "a.jpg" "c.png" ["b.css"] (raw "same")).
  - vm_compute. discriminate.
  - vm_compute. discriminate.
  - apply (bool_decide_unpack _). vm_compute. exact I.
  - discriminate.
  - vm_compute. reflexivity.
  - vm_compute. reflexivity.
  - vm_compute. reflexivity.
  - vm_compute. reflexivity.
  - vm_compute. reflexivity.
Defined.

(** In that tree the stylesheet is processed between the two. *)
Example three_files_order :
  processingOrder [("a.jpg", false); ("b.css", false); ("c.png", false)]
  = ["a.jpg"; "b.css"; "c.png"].
Proof. vm_compute. reflexivity. Qed.

(** The JPEG of that tree is served as a PNG. *)
Example jpeg_served_as_png :
  map (fun e => (fst e, Mime (snd e)))
      (map_to_list
         (assets (Fixture.built
                    (Fixture.tree [("a.jpg", "same"); ("b.png", "same")]) true)))
  = [("c2FtZQAAAAAAAAAAAAAAAA", "image/png")].
Proof. vm_compute. reflexivity. Qed.

(** ** Panics *)

Lemma rebuild_Panic (f : bytes -> Result bytes) (segs : list segment) e :
  rebuild f segs = Panic e ->
  exists m, Found m ∈ segs /\ f m = Panic e.
Proof.
  induction segs as [| [c | m] rest IH]; simpl; intros H.
  - discriminate.
  - destruct (rebuild f rest) eqn:E; simpl in H; [discriminate |].
    injection H as ->. destruct (IH eq_refl) as (m & Hm & Hf).
    exists m. split; [now right | assumption].
  - destruct (f m) eqn:Ef; simpl in H.
    + destruct (rebuild f rest) eqn:E; simpl in H; [discriminate |].
      injection H as ->. destruct (IH eq_refl) as (m' & Hm & Hf).
      exists m'. split; [now right | assumption].
    + injection H as ->. exists m. split; [left | assumption].
Qed.

Lemma total_no_Panic {A} (r : Result A) e :
  (exists a, r = Ok a) -> r <> Panic e.
Proof. intros [a ->]. discriminate. Qed.

(** The svg-embed pass can panic only on reading a file. *)
Lemma cssSVGEmbed_pass_Panic (fs : FS) (s : bytes) e :
  ReplaceAllFunc cssSVGEmbed s (cssSVGEmbedFunc fs) = Panic e ->
  exists file, e = PanicIO file /\ readFile fs file = None.
Proof.
  intros H. apply rebuild_Panic in H as (m & Hm & Hf).
  apply cssSVGEmbed_reference in Hm as (file & override & _ & _ & _ & Hfind).
  unfold cssSVGEmbedFunc, FindStringSubmatch in Hf. rewrite raw_str, Hfind in Hf.
  cbn [option_map map index nth_error orPanic bind] in Hf.
  unfold ReadFile in Hf. destruct (readFile fs (str file)) as [svg |] eqn:Hr;
    cbn [orPanic bind] in Hf.
  - destruct (cssVariable_pass_total
                (if String.eqb (str (default [] override)) "" then svg
                 else ReplaceAll svg (raw "FILL")
                        (raw (str (default [] override))))) as [out Hout].
    rewrite Hout in Hf. discriminate.
  - injection Hf as <-. eauto.
Qed.

Section Panics.
Variable L : Libs.
Variable fs : FS.
Variable dev : bool.

Lemma transform_Panic (pathTable : gmap string string) (ext mime : string)
    (raw0 : bytes) e :
  transform L fs pathTable ext mime raw0 = Panic e ->
  e = PanicLib "minify" \/ exists file, e = PanicIO file /\ readFile fs file = None.
Proof.
  unfold transform. intros H.
  destruct (isExt ext [".css"]) eqn:Ecss.
  - destruct (cssAssetURL_pass_total pathTable raw0) as [a Ha].
    rewrite Ha in H. cbn [bind] in H.
    destruct (cssVariable_pass_total a) as [v Hv]. rewrite Hv in H.
    cbn [bind] in H.
    destruct (isExt ext [".css"; ".js"; ".webmanifest"]).
    + destruct (jsAssetPath_pass_total pathTable v) as [j Hj].
      rewrite Hj in H. cbn [bind] in H.
      destruct (min_Bytes L mime j) as [m |]; cbn [orPanic bind] in H.
      * right. now apply cssSVGEmbed_pass_Panic in H.
      * injection H as <-. now left.
    + destruct (isExt ext [".svg"]); [| discriminate].
      exfalso. revert H. apply total_no_Panic, cssVariable_pass_total.
  - cbn [bind] in H.
    destruct (isExt ext [".css"; ".js"; ".webmanifest"]).
    + destruct (jsAssetPath_pass_total pathTable raw0) as [j Hj].
      rewrite Hj in H. cbn [bind] in H.
      destruct (min_Bytes L mime j) as [m |]; cbn [orPanic bind] in H.
      * destruct (isExt ext [".webmanifest"]); [| discriminate].
        exfalso. revert H. apply total_no_Panic, manifestSrc_pass_total.
      * injection H as <-. now left.
    + destruct (isExt ext [".svg"]); [| discriminate].
      exfalso. revert H. apply total_no_Panic, cssVariable_pass_total.
Qed.

Lemma encode_Panic (ext : string) (d : bytes) e :
  encode L dev ext d = Panic e ->
  dev = false /\ (e = PanicLib "brotli" \/ e = PanicLib "webp").
Proof.
  unfold encode. destruct dev; [discriminate |]. intros H. split; [reflexivity |].
  destruct (isExt ext [".css"; ".js"; ".svg"]).
  - destruct (enc_CompressBuffer L d); cbn [orPanic bind] in H;
      [discriminate |]. injection H as <-. now left.
  - destruct (isExt ext [".png"]); [| discriminate].
    destruct (webp_of_png L d); cbn [orPanic bind] in H; [discriminate |].
    injection H as <-. now right.
Qed.

Lemma processFile_Panic (st : State) (file : string) e :
  processFile L fs dev st file = Panic e ->
  (e = PanicMsg ("Unsupported: " +:+ file) /\
   mimes !! Ext file = None /\ Ext file <> ".go") \/
  (exists f, e = PanicIO f /\ readFile fs f = None) \/
  (exists what, e = PanicLib what /\
                (what = "minify" \/ what = "brotli" \/ what = "webp")).
Proof.
  unfold processFile. intros H.
  destruct (String.eqb (Ext file) ".go") eqn:Hgo; [discriminate |].
  apply String.eqb_neq in Hgo. cbv zeta in H.
  destruct (mimes !! Ext file) as [mime |] eqn:Hmime.
  - assert (mapStr mimes (Ext file) = mime) as Hmap
      by (unfold mapStr; now rewrite Hmime).
    rewrite Hmap in H.
    pose proof (mimes_nonempty _ _ Hmime) as Hne.
    apply String.eqb_neq in Hne. rewrite Hne in H.
    unfold ReadFile in H.
    destruct (readFile fs file) as [raw0 |] eqn:Hr; cbn [orPanic bind] in H.
    + destruct (transform L fs (paths st) (Ext file) mime raw0) as [d |] eqn:Ht;
        cbn [bind] in H.
      * destruct (encode L dev (Ext file) d) eqn:He; cbn [bind] in H;
          [discriminate |].
        injection H as ->. apply encode_Panic in He as [_ [-> | ->]];
          right; right; eauto.
      * injection H as ->. apply transform_Panic in Ht as [-> | Hio].
        -- right. right. eauto.
        -- right. now left.
    + injection H as <-. right. left. eauto.
  - rewrite (mapStr_None _ _ Hmime) in H.
    change (String.eqb "" "") with true in H. cbv iota in H.
    injection H as <-. left. auto.
Qed.

Lemma processFiles_Panic (st : State) (files : list string) e :
  processFiles L fs dev st files = Panic e ->
  exists st' file,
    file ∈ files /\ processFile L fs dev st' file = Panic e.
Proof.
  revert st. induction files as [| f files IH]; intros st H; simpl in H.
  - discriminate.
  - destruct (processFile L fs dev st f) as [st1 |] eqn:Hf; cbn [bind] in H.
    + apply IH in H as (st' & file & Hin & H).
      exists st', file. split; [now right | assumption].
    + injection H as ->. exists st, f. split; [left | assumption].
Qed.

Lemma processFiles_read (st st' : State) (files : list string) (x : string) :
  processFiles L fs dev st files = Ok st' ->
  x ∈ files -> Ext x <> ".go" ->
  is_Some (mimes !! Ext x) /\ is_Some (readFile fs x).
Proof.
  revert st. induction files as [| f files IH]; intros st H Hx Hgo.
  - now apply elem_of_nil in Hx.
  - simpl in H. apply bind_Ok in H as (st1 & H1 & H).
    apply elem_of_cons in Hx as [-> | Hx]; [| eauto].
    apply processFile_Ok in H1 as (? & ? & ? & ? & -> & -> & _);
      [eauto | assumption].
Qed.
End Panics.

(** The walk, the sort and the loop panic in three ways only. *)
Lemma buildTables_Panic (L : Libs) (fs : FS) (dev : bool) (e : panic) :
  buildTables L fs dev = Panic e ->
  match e with
  | PanicMsg msg =>
      exists entries file,
        walk fs = Some entries /\ file ∈ discover entries /\
        mimes !! Ext file = None /\ Ext file <> ".go" /\
        msg = "Unsupported: " +:+ file
  | PanicIO file => file = "." /\ walk fs = None \/ readFile fs file = None
  | PanicLib what => what = "minify" \/ what = "brotli" \/ what = "webp"
  | PanicIndex => False
  end.
Proof.
  unfold buildTables. destruct (walk fs) as [entries |] eqn:Hwalk; cbn [orPanic bind].
  - intros H. apply processFiles_Panic in H as (st' & file & Hin & H).
    apply processFile_Panic in H
      as [(-> & Hm & Hgo) | [(f & -> & Hr) | (what & -> & Hw)]].
    + exists entries, file. rewrite <- processingOrder_perm. auto.
    + now right.
    + assumption.
  - intros H. injection H as <-. now left.
Qed.

(** X14: a build that ends without a panic found a MIME type for every
    discovered file that is not a .go file, read it, and entered it in
    the path table. *)
Theorem a_build_covers_every_file (L : Libs) (fs : FS) (dev : bool)
    (entries : list (string * bool)) (st : State) (x : string) :
  walk fs = Some entries ->
  buildTables L fs dev = Ok st ->
  x ∈ discover entries -> Ext x <> ".go" ->
  is_Some (mimes !! Ext x) /\ is_Some (readFile fs x) /\
  is_Some (paths st !! x).
Proof.
  intros Hwalk Hrun Hx Hgo. unfold buildTables in Hrun. rewrite Hwalk in Hrun.
  cbn [orPanic bind] in Hrun. rewrite <- processingOrder_perm in Hx.
  destruct (processFiles_read L fs dev _ _ _ x Hrun Hx Hgo) as [Hm Hr].
  split; [assumption |]. split; [assumption |].
  now apply (processed_paths_iff L fs dev _ _ x Hrun).
Qed.

Lemma a_build_covers_every_file_witness :
  is_Some (mimes !! Ext "s.css") /\
  is_Some (readFile Fixture.styled "s.css") /\
  is_Some (paths (Fixture.built Fixture.styled false) !! "s.css").
Proof.
  apply (a_build_covers_every_file Fixture.libs Fixture.styled false
           [("_dot.svg", false); ("images/a.png", false); ("s.css", false)]).
  - reflexivity.
  - vm_compute. reflexivity.
  - vm_compute. repeat constructor.
  - vm_compute. discriminate.
Defined.

(** ** References that resolve *)

Lemma hasPrefix_short (a b p : bytes) :
  length p <= length a -> hasPrefix (a ++ b) p = hasPrefix a p.
Proof.
  revert a. induction p as [| c p IH]; intros a Hlen; [reflexivity |].
  destruct a as [| d a]; simpl in Hlen; [lia |].
  simpl. rewrite IH by lia. reflexivity.
Qed.

(** A match stays the match whatever follows it. *)
Lemma matchHere_delim_context (open close s post' : bytes) n caps :
  matchHere (delim open close) s = Some (n, caps) ->
  matchHere (delim open close) (take n s ++ post') = Some (n, caps).
Proof.
  intros H. apply matchHere_delim_Some in H
    as (cap & post & -> & -> & -> & Hnl & Hmin).
  replace (open ++ cap ++ close ++ post)
    with ((open ++ cap ++ close) ++ post) by now rewrite <- !app_assoc.
  rewrite take_app_length, <- !app_assoc.
  apply matchHere_delim_intro; [assumption |].
  intros u v Huv Hv. specialize (Hmin u v Huv Hv).
  assert (length close <= length (v ++ close)) as Hlen
    by (rewrite length_app; lia).
  rewrite !app_assoc in Hmin |- *.
  rewrite hasPrefix_short in Hmin |- * by assumption. exact Hmin.
Qed.

(** A reference found in one input is replaced in place at the head of
    any other. *)
Lemma delim_in_place (open close s m post : bytes)
    (f : bytes -> Result bytes) :
  open <> [] ->
  Found m ∈ segments (delim open close) s ->
  ReplaceAllFunc (delim open close) (m ++ post) f =
  (new <- f m ;;
   out <- ReplaceAllFunc (delim open close) post f ;;
   Ok (new ++ out)).
Proof.
  intros Hopen H. apply segments_Found in H as (s' & n & caps & Hm & ->).
  pose proof (matchHere_delim_context _ _ _ post _ _ Hm) as Hctx.
  apply matchHere_delim_Some in Hm as (cap & post0 & Hs & Hn & _).
  assert (length (take (S n) s') = S n) as Hlen.
  { rewrite Hn, Hs.
    replace (open ++ cap ++ close ++ post0)
      with ((open ++ cap ++ close) ++ post0) by now rewrite <- !app_assoc.
    now rewrite take_app_length. }
  apply (ReplaceAllFunc_hit _ f _ post caps).
  - intros E. rewrite E in Hlen. discriminate.
  - now rewrite Hlen.
Qed.

Lemma refPattern_delim (kind : pathReference) :
  exists open close, open <> [] /\ refPattern kind = delim open close.
Proof.
  destruct kind;
    [exists (raw "asset-url('"), (raw "')")
    | exists (raw "assetPath('"), (raw "')")
    | exists srcKey, [dq]];
    (split; [intros E; discriminate E | reflexivity]).
Qed.

(** X15: a reference to a path the path table holds is replaced, where
    it stands, by the marker's output around the public path of that
    path: [url(...)] for a stylesheet reference, the quoted path for a
    script reference, the "src" field for a manifest icon. *)
Theorem present_path_is_substituted (kind : pathReference)
    (pathTable : gmap string string) (s m file : bytes) (public : string) :
  Found m ∈ segments (refPattern kind) s ->
  m = refMarker kind file ->
  pathTable !! str file = Some public ->
  refResolver kind pathTable m = Ok (refResolved kind public) /\
  forall post,
    ReplaceAllFunc (refPattern kind) (m ++ post) (refResolver kind pathTable)
    = (out <- ReplaceAllFunc (refPattern kind) post (refResolver kind pathTable) ;;
       Ok (refResolved kind public ++ out)).
Proof.
  intros Hm Hfile Hsome.
  assert (refResolver kind pathTable m = Ok (refResolved kind public)) as Hres.
  { apply (pathReference_found kind pathTable) in Hm as (file' & Hm & ->).
    rewrite Hm in Hfile. apply refMarker_inj in Hfile as ->.
    unfold mapStr. now rewrite Hsome. }
  split; [assumption |]. intros post.
  destruct (refPattern_delim kind) as (open & close & Hopen & Hpat).
  rewrite Hpat in Hm |- *.
  rewrite (delim_in_place _ _ _ _ post _ Hopen Hm).
  rewrite <- Hpat, Hres. reflexivity.
Qed.

Lemma present_path_is_substituted_witness :
  jsAssetPathFunc {["a.png" := "/assets/x"]} (raw "assetPath('a.png')")
  = Ok (raw "'/assets/x'") /\
  forall post,
    ReplaceAllFunc jsAssetPath (raw "assetPath('a.png')" ++ post)
      (jsAssetPathFunc {["a.png" := "/assets/x"]})
    = (out <- ReplaceAllFunc jsAssetPath post
                (jsAssetPathFunc {["a.png" := "/assets/x"]}) ;;
       Ok (raw "'/assets/x'" ++ out)).
Proof.
  apply (present_path_is_substituted ScriptPath {["a.png" := "/assets/x"]}
           (raw "f(assetPath('a.png'))") (raw "assetPath('a.png')")
           (raw "a.png") "/assets/x").
  - vm_compute. repeat constructor.
  - reflexivity.
  - vm_compute. reflexivity.
Defined.

(** X16: a color-variable reference whose name the variable table holds
    is replaced, where it stands, by the value of that name. *)
Theorem known_variable_is_substituted (s m name value : bytes) :
  Found m ∈ segments cssVariable s ->
  m = raw "var(--" ++ name ++ raw ")" ->
  variables !! str name = Some value ->
  cssVariableFunc m = Ok value /\
  forall post,
    ReplaceAllFunc cssVariable (m ++ post) cssVariableFunc
    = (out <- ReplaceAllFunc cssVariable post cssVariableFunc ;;
       Ok (value ++ out)).
Proof.
  intros Hm Hname Hvar.
  assert (cssVariableFunc m = Ok value) as Hres.
  { apply cssVariable_reference in Hm as (name' & Hm & ->).
    rewrite Hm in Hname. apply app_inv_head, app_inv_tail in Hname as ->.
    unfold mapBytes. now rewrite Hvar. }
  split; [assumption |]. intros post.
  rewrite cssVariable_delim in Hm |- *.
  assert (raw "var(--" <> []) as Hopen by (intros E; discriminate E).
  rewrite (delim_in_place _ _ _ _ post _ Hopen Hm).
  rewrite <- cssVariable_delim, Hres. reflexivity.
Qed.

Lemma known_variable_is_substituted_witness :
  cssVariableFunc (raw "var(--blue)") = Ok (raw "#007bff") /\
  forall post,
    ReplaceAllFunc cssVariable (raw "var(--blue)" ++ post) cssVariableFunc
    = (out <- ReplaceAllFunc cssVariable post cssVariableFunc ;;
       Ok (raw "#007bff" ++ out)).
Proof.
  apply (known_variable_is_substituted
           (raw "a{c:var(--blue)}") (raw "var(--blue)") (raw "blue")
           (raw "#007bff")).
  - vm_compute. repeat constructor.
  - reflexivity.
  - vm_compute. reflexivity.
Defined.

(** X17: at the turn of a file outside images/, a reference to a
    discovered image (not a .go file) is resolved to the public path of
    that image, "/assets/" and the fingerprint of an asset of the
    table. *)
Theorem image_references_resolve (L : Libs) (fs : FS) (dev : bool)
    (entries : list (string * bool)) (pre post : list string)
    (x y : string) (st : State) :
  x ∈ discover entries -> isImage x = true -> Ext x <> ".go" ->
  isImage y = false ->
  processingOrder entries = pre ++ y :: post ->
  processFiles L fs dev (mkState ∅ ∅) pre = Ok st ->
  exists asset,
    assets st !! fingerprintOf L (Data asset) = Some asset /\
    paths st !! x = Some ("/assets/" +:+ fingerprintOf L (Data asset)) /\
    forall kind s m,
      Found m ∈ segments (refPattern kind) s ->
      m = refMarker kind (raw x) ->
      refResolver kind (paths st) m
      = Ok (refResolved kind ("/assets/" +:+ fingerprintOf L (Data asset))).
Proof.
  intros Hx Hix Hgo Hiy Hsplit Hpre.
  assert (x ∈ pre) as Hin
    by (eapply lower_tier_done; eauto using image_tier).
  destruct (processFiles_adds L fs dev _ _ _ x Hpre Hin Hgo) as [public Hp].
  destruct (path_names_asset L fs dev _ _ _ _ Hpre Hp) as (asset & -> & Ha).
  exists asset. split; [assumption |]. split; [assumption |].
  intros kind s m Hm Hmark.
  apply (pathReference_found kind (paths st)) in Hm as (file & Hfile & ->).
  rewrite Hfile in Hmark. apply refMarker_inj in Hmark as ->.
  rewrite str_raw. unfold mapStr. now rewrite Hp.
Qed.

Lemma image_references_resolve_witness :
  exists asset,
    assets (Fixture.after Fixture.imageAndStyle false 1)
      !! fingerprintOf Fixture.libs (Data asset) = Some asset /\
    paths (Fixture.after Fixture.imageAndStyle false 1) !! "images/a.png"
    = Some ("/assets/" +:+ fingerprintOf Fixture.libs (Data asset)) /\
    forall kind s m,
      Found m ∈ segments (refPattern kind) s ->
      m = refMarker kind (raw "images/a.png") ->
      refResolver kind (paths (Fixture.after Fixture.imageAndStyle false 1)) m
      = Ok (refResolved kind
              ("/assets/" +:+ fingerprintOf Fixture.libs (Data asset))).
Proof.
  apply (image_references_resolve Fixture.libs Fixture.imageAndStyle false
           [("images/a.png", false); ("styles/b.css", false)]
           ["images/a.png"] [] "images/a.png" "styles/b.css").
  - vm_compute. repeat constructor.
  - reflexivity.
  - vm_compute. discriminate.
  - reflexivity.
  - vm_compute. reflexivity.
  - vm_compute. reflexivity.
Defined.

(** ** The other cases of the switch *)

Section Cases.
Variable L : Libs.
Variable fs : FS.
Variable dev : bool.

(** A turn on a file that has a MIME type and can be read. *)
Lemma processFile_known (st : State) (file mime : string) (raw0 : bytes) :
  mimes !! Ext file = Some mime ->
  readFile fs file = Some raw0 ->
  processFile L fs dev st file =
  (data <- transform L fs (paths st) (Ext file) mime raw0 ;;
   enc <- encode L dev (Ext file) data ;;
   Ok (mkState
         (<[fingerprintOf L data := mkAsset (fst enc) data (snd enc) mime]>
            (assets st))
         (<[file := "/assets/" +:+ fingerprintOf L data]> (paths st)))).
Proof.
  intros Hmime Hread. unfold processFile.
  assert (Ext file <> ".go") as Hgo.
  { intros E. rewrite E in Hmime. vm_compute in Hmime. discriminate. }
  apply String.eqb_neq in Hgo. rewrite Hgo.
  assert (mapStr mimes (Ext file) = mime) as ->
    by (unfold mapStr; now rewrite Hmime).
  pose proof (mimes_nonempty _ _ Hmime) as Hne.
  apply String.eqb_neq in Hne. rewrite Hne.
  unfold ReadFile. rewrite Hread. reflexivity.
Qed.

Lemma transform_js (pathTable : gmap string string) (mime : string)
    (raw0 : bytes) :
  transform L fs pathTable ".js" mime raw0 =
  (j <- ReplaceAllFunc jsAssetPath raw0 (jsAssetPathFunc pathTable) ;;
   orPanic (min_Bytes L mime j) (PanicLib "minify")).
Proof.
  unfold transform.
  change (isExt ".js" [".css"]) with false.
  change (isExt ".js" [".css"; ".js"; ".webmanifest"]) with true.
  change (isExt ".js" [".webmanifest"]) with false.
  cbv iota. cbn [bind].
  destruct (ReplaceAllFunc jsAssetPath raw0 (jsAssetPathFunc pathTable));
    cbn [bind]; [| reflexivity].
  now destruct (orPanic (min_Bytes L mime a) (PanicLib "minify")).
Qed.

Lemma transform_webmanifest (pathTable : gmap string string) (mime : string)
    (raw0 : bytes) :
  transform L fs pathTable ".webmanifest" mime raw0 =
  (j <- ReplaceAllFunc jsAssetPath raw0 (jsAssetPathFunc pathTable) ;;
   m <- orPanic (min_Bytes L mime j) (PanicLib "minify") ;;
   ReplaceAllFunc manifestSrc m (manifestSrcFunc pathTable)).
Proof.
  unfold transform.
  change (isExt ".webmanifest" [".css"]) with false.
  change (isExt ".webmanifest" [".css"; ".js"; ".webmanifest"]) with true.
  change (isExt ".webmanifest" [".webmanifest"]) with true.
  reflexivity.
Qed.

Lemma transform_svg (pathTable : gmap string string) (mime : string)
    (raw0 : bytes) :
  transform L fs pathTable ".svg" mime raw0 =
  ReplaceAllFunc cssVariable raw0 cssVariableFunc.
Proof. reflexivity. Qed.

Lemma transform_other (pathTable : gmap string string) (ext mime : string)
    (raw0 : bytes) :
  isExt ext [".css"; ".js"; ".webmanifest"; ".svg"] = false ->
  transform L fs pathTable ext mime raw0 = Ok raw0.
Proof.
  unfold isExt. cbn [existsb]. intros H.
  apply orb_false_iff in H as [Hcss H].
  apply orb_false_iff in H as [Hjs H].
  apply orb_false_iff in H as [Hman H].
  apply orb_false_iff in H as [Hsvg _].
  unfold transform, isExt. cbn [existsb].
  rewrite Hcss, Hjs, Hman, Hsvg. reflexivity.
Qed.
End Cases.

(** X18: a script goes through the asset-path pass and then the
    minifier, as application/javascript, and through nothing else; the
    minifier's output is the data stored and fingerprinted. *)
Theorem script_pipeline (L : Libs) (fs : FS) (dev : bool) (st st' : State)
    (file : string) :
  Ext file = ".js" ->
  processFile L fs dev st file = Ok st' ->
  exists raw0 j d asset,
    readFile fs file = Some raw0 /\
    ReplaceAllFunc jsAssetPath raw0 (jsAssetPathFunc (paths st)) = Ok j /\
    min_Bytes L "application/javascript" j = Some d /\
    paths st' !! file = Some ("/assets/" +:+ fingerprintOf L d) /\
    assets st' !! fingerprintOf L d = Some asset /\
    Data asset = d /\ Mime asset = "application/javascript".
Proof.
  intros Hext H.
  apply processFile_Ok in H
    as (mime & raw0 & d & enc & Hmime & Hread & Htr & _ & ->);
    [| rewrite Hext; discriminate].
  rewrite Hext in Hmime, Htr. vm_compute in Hmime. injection Hmime as <-.
  rewrite transform_js in Htr. apply bind_Ok in Htr as (j & Hj & Hd).
  apply orPanic_Ok in Hd.
  exists raw0, j, d, (mkAsset (fst enc) d (snd enc) "application/javascript").
  cbn [paths assets Data Mime].
  repeat split; try assumption; apply lookup_insert_eq.
Qed.

Lemma script_pipeline_witness :
  exists raw0 j d asset,
    readFile Fixture.withWorker "app.js" = Some raw0 /\
    ReplaceAllFunc jsAssetPath raw0
      (jsAssetPathFunc (paths (Fixture.after Fixture.withWorker false 1)))
    = Ok j /\
    min_Bytes Fixture.libs "application/javascript" j = Some d /\
    paths (Fixture.after Fixture.withWorker false 2) !! "app.js"
    = Some ("/assets/" +:+ fingerprintOf Fixture.libs d) /\
    assets (Fixture.after Fixture.withWorker false 2)
      !! fingerprintOf Fixture.libs d = Some asset /\
    Data asset = d /\ Mime asset = "application/javascript".
Proof.
  apply (script_pipeline Fixture.libs Fixture.withWorker false
           (Fixture.after Fixture.withWorker false 1)
           (Fixture.after Fixture.withWorker false 2) "app.js").
  - reflexivity.
  - vm_compute. reflexivity.
Defined.

(** The manifest of that tree, as stored. *)
Example manifest_icon_rewritten :
  map (fun e => str (Data (snd e)))
      (map_to_list (assets (Fixture.built manifestTree true)))
  = ["PNG";
     "{" +:+ str srcKey +:+ "/assets/UE5HAAAAAAAAAAAAAAAAAA" +:+ str [dq] +:+ "}"].
Proof. vm_compute. reflexivity. Qed.

(** X20: an SVG file of the tree goes through the color-variable pass
    and nothing else: it is not minified, its asset-path markers are
    left alone, and the pass cannot panic, so in development mode a
    readable SVG file never stops the build. *)
Theorem svg_file_pipeline (L : Libs) (fs : FS) (dev : bool) (st : State)
    (file : string) (raw0 : bytes) :
  Ext file = ".svg" ->
  readFile fs file = Some raw0 ->
  exists d,
    ReplaceAllFunc cssVariable raw0 cssVariableFunc = Ok d /\
    processFile L fs dev st file =
    (enc <- encode L dev ".svg" d ;;
     Ok (mkState
           (<[fingerprintOf L d := mkAsset (fst enc) d (snd enc) "image/svg+xml"]>
              (assets st))
           (<[file := "/assets/" +:+ fingerprintOf L d]> (paths st)))) /\
    (dev = true ->
     processFile L fs dev st file =
     Ok (mkState
           (<[fingerprintOf L d := mkAsset [] d [] "image/svg+xml"]> (assets st))
           (<[file := "/assets/" +:+ fingerprintOf L d]> (paths st)))).
Proof.
  intros Hext Hread.
  destruct (cssVariable_pass_total raw0) as [d Hd]. exists d.
  split; [assumption |].
  assert (mimes !! Ext file = Some "image/svg+xml") as Hmime
    by (rewrite Hext; vm_compute; reflexivity).
  rewrite (processFile_known L fs dev st file _ raw0 Hmime Hread).
  rewrite Hext, transform_svg, Hd. cbn [bind].
  split; [reflexivity |]. intros ->. reflexivity.
Qed.

Lemma svg_file_pipeline_witness :
  exists d,
    ReplaceAllFunc cssVariable (raw "<svg fill='var(--red)'/>") cssVariableFunc
    = Ok d /\
    processFile Fixture.libs
      (Fixture.tree [("logo.svg", "<svg fill='var(--red)'/>")]) true
      Fixture.start "logo.svg" =
    (enc <- encode Fixture.libs true ".svg" d ;;
     Ok (mkState
           (<[fingerprintOf Fixture.libs d
              := mkAsset (fst enc) d (snd enc) "image/svg+xml"]>
              (assets Fixture.start))
           (<["logo.svg" := "/assets/" +:+ fingerprintOf Fixture.libs d]>
              (paths Fixture.start)))) /\
    (true = true ->
     processFile Fixture.libs
       (Fixture.tree [("logo.svg", "<svg fill='var(--red)'/>")]) true
       Fixture.start "logo.svg" =
     Ok (mkState
           (<[fingerprintOf Fixture.libs d := mkAsset [] d [] "image/svg+xml"]>
              (assets Fixture.start))
           (<["logo.svg" := "/assets/" +:+ fingerprintOf Fixture.libs d]>
              (paths Fixture.start)))).
Proof.
  apply (svg_file_pipeline Fixture.libs
           (Fixture.tree [("logo.svg", "<svg fill='var(--red)'/>")]) true
           Fixture.start "logo.svg" (raw "<svg fill='var(--red)'/>")).
  - reflexivity.
  - reflexivity.
Defined.

(** X21: a file of any other type of the MIME table (a PNG, a JPEG, a
    font) is stored byte for byte as read: its fingerprint is that of
    the file on disk, and the path table and the minifier play no part. *)
Theorem other_types_pass_through (L : Libs) (fs : FS) (dev : bool)
    (st : State) (file mime : string) (raw0 : bytes) :
  mimes !! Ext file = Some mime ->
  isExt (Ext file) [".css"; ".js"; ".webmanifest"; ".svg"] = false ->
  readFile fs file = Some raw0 ->
  processFile L fs dev st file =
  (enc <- encode L dev (Ext file) raw0 ;;
   Ok (mkState
         (<[fingerprintOf L raw0 := mkAsset (fst enc) raw0 (snd enc) mime]>
            (assets st))
         (<[file := "/assets/" +:+ fingerprintOf L raw0]> (paths st)))).
Proof.
  intros Hmime Hext Hread.
  rewrite (processFile_known L fs dev st file mime raw0 Hmime Hread).
  now rewrite (transform_other L fs (paths st) _ mime raw0 Hext).
Qed.

Lemma other_types_pass_through_witness :
  processFile Fixture.libs (Fixture.tree [("photo.jpg", "JFIF")]) false
    Fixture.start "photo.jpg" =
  (enc <- encode Fixture.libs false (Ext "photo.jpg") (raw "JFIF") ;;
   Ok (mkState
         (<[fingerprintOf Fixture.libs (raw "JFIF")
            := mkAsset (fst enc) (raw "JFIF") (snd enc) "image/jpeg"]>
            (assets Fixture.start))
         (<["photo.jpg" := "/assets/" +:+ fingerprintOf Fixture.libs (raw "JFIF")]>
            (paths Fixture.start)))).
Proof.
  apply (other_types_pass_through Fixture.libs
           (Fixture.tree [("photo.jpg", "JFIF")]) false Fixture.start
           "photo.jpg" "image/jpeg" (raw "JFIF")).
  - vm_compute. reflexivity.
  - reflexivity.
  - reflexivity.
Defined.

(** ** Fingerprints as text *)

Ltac lia_div := zify; Z.to_euclidean_division_equations; lia.

Lemma encodeURL_NoDup : NoDup encodeURL.
Proof. apply (bool_decide_unpack _). vm_compute. exact I. Qed.

Lemma sextet_in (val shift : N) : sextet val shift ∈ encodeURL.
Proof.
  unfold sextet. apply list_elem_of_In.
  destruct (Nat.lt_ge_cases (N.to_nat (N.land (N.shiftr val shift) 63))
              (length encodeURL)) as [Hlt | Hge].
  - now apply nth_In.
  - rewrite nth_overflow by assumption. vm_compute. tauto.
Qed.

Lemma sextet_inj (v w shift : N) :
  sextet v shift = sextet w shift ->
  ((v / 2 ^ shift) mod 64 = (w / 2 ^ shift) mod 64)%N.
Proof.
  unfold sextet. intros H.
  assert (forall x, (N.land (N.shiftr x shift) 63 = (x / 2 ^ shift) mod 64)%N)
    as Hland.
  { intros x. change 63%N with (N.ones 6).
    now rewrite N.land_ones, N.shiftr_div_pow2. }
  rewrite !Hland in H.
  assert (forall x, N.to_nat ((x / 2 ^ shift) mod 64) < length encodeURL) as Hlt.
  { intros x. change (length encodeURL) with 64.
    pose proof (N.mod_upper_bound (x / 2 ^ shift) 64 ltac:(discriminate)). lia. }
  apply N2Nat.inj.
  destruct (lookup_lt_is_Some_2 _ _ (Hlt v)) as [x Hx].
  destruct (lookup_lt_is_Some_2 _ _ (Hlt w)) as [y Hy].
  rewrite (nth_lookup_Some _ _ _ _ Hx), (nth_lookup_Some _ _ _ _ Hy) in H.
  subst y. exact (proj1 (NoDup_alt encodeURL) encodeURL_NoDup _ _ _ Hx Hy).
Qed.

(** Below [2^k], [lor] after a shift by [k] is addition. *)
Lemma lor_shiftl_add (a x k : N) :
  (x < 2 ^ k)%N -> N.lor (N.shiftl a k) x = (a * 2 ^ k + x)%N.
Proof.
  intros Hx. rewrite <- N.lxor_lor, <- N.add_nocarry_lxor.
  - now rewrite N.shiftl_mul_pow2.
  - apply N.bits_inj. intros n. rewrite N.land_spec, N.bits_0.
    destruct (N.ltb n k) eqn:E.
    + apply N.ltb_lt in E. now rewrite N.shiftl_spec_low.
    + apply N.ltb_ge in E.
      destruct (N.eq_dec x 0%N) as [-> | Hx0];
        [rewrite N.bits_0; apply andb_false_r |].
      rewrite (N.bits_above_log2 x); [apply andb_false_r |].
      apply N.lt_le_trans with k; [| assumption].
      apply N.log2_lt_pow2; [lia | assumption].
  - apply N.bits_inj. intros n. rewrite N.land_spec, N.bits_0.
    destruct (N.ltb n k) eqn:E.
    + apply N.ltb_lt in E. now rewrite N.shiftl_spec_low.
    + apply N.ltb_ge in E.
      destruct (N.eq_dec x 0%N) as [-> | Hx0];
        [rewrite N.bits_0; apply andb_false_r |].
      rewrite (N.bits_above_log2 x); [apply andb_false_r |].
      apply N.lt_le_trans with k; [| assumption].
      apply N.log2_lt_pow2; [lia | assumption].
Qed.

Lemma byte_bound (a : ascii) : (N_of_ascii a < 256)%N.
Proof. apply N_ascii_bounded. Qed.

Lemma byte_inj (a b : ascii) : N_of_ascii a = N_of_ascii b -> a = b.
Proof.
  intros H. rewrite <- (ascii_N_embedding a), <- (ascii_N_embedding b).
  now rewrite H.
Qed.

Lemma val3_add (a b c : N) :
  (a < 256 -> b < 256 -> c < 256 ->
   N.lor (N.lor (N.shiftl a 16) (N.shiftl b 8)) c
   = a * 65536 + b * 256 + c)%N.
Proof.
  intros Ha Hb Hc.
  rewrite (N.shiftl_mul_pow2 b 8). change (2 ^ 8)%N with 256%N.
  rewrite (lor_shiftl_add a (b * 256) 16) by (change (2 ^ 16)%N with 65536%N; lia).
  change (2 ^ 16)%N with 65536%N.
  replace (a * 65536 + b * 256)%N with (N.shiftl (a * 256 + b) 8)
    by (rewrite N.shiftl_mul_pow2; change (2 ^ 8)%N with 256%N; lia).
  rewrite (lor_shiftl_add _ c 8) by (change (2 ^ 8)%N with 256%N; lia).
  rewrite ?N.shiftl_mul_pow2. change (2 ^ 8)%N with 256%N. lia.
Qed.

Lemma val2_add (a b : N) :
  (a < 256 -> b < 256 ->
   N.lor (N.shiftl a 16) (N.shiftl b 8) = a * 65536 + b * 256)%N.
Proof.
  intros Ha Hb.
  rewrite (N.shiftl_mul_pow2 b 8). change (2 ^ 8)%N with 256%N.
  rewrite (lor_shiftl_add a (b * 256) 16) by (change (2 ^ 16)%N with 65536%N; lia).
  reflexivity.
Qed.

(** A value below [2^24] is made of its four sextets. *)
Lemma sextets_val (v : N) :
  (v < 16777216 ->
   v = (v / 262144) mod 64 * 262144 + (v / 4096) mod 64 * 4096
       + (v / 64) mod 64 * 64 + v mod 64)%N.
Proof. intros H. lia_div. Qed.

Lemma sextets_inj (v w : N) :
  (v < 16777216 -> w < 16777216 ->
   (v / 262144) mod 64 = (w / 262144) mod 64 ->
   (v / 4096) mod 64 = (w / 4096) mod 64 ->
   (v / 64) mod 64 = (w / 64) mod 64 ->
   v mod 64 = w mod 64 -> v = w)%N.
Proof.
  intros Hv Hw H18 H12 H6 H0.
  rewrite (sextets_val v Hv), (sextets_val w Hw), H18, H12, H6, H0.
  reflexivity.
Qed.

Lemma block3_inj (a b c a' b' c' : ascii) :
  let v := N.lor (N.lor (N.shiftl (N_of_ascii a) 16)
                        (N.shiftl (N_of_ascii b) 8)) (N_of_ascii c) in
  let w := N.lor (N.lor (N.shiftl (N_of_ascii a') 16)
                        (N.shiftl (N_of_ascii b') 8)) (N_of_ascii c') in
  sextet v 18 = sextet w 18 -> sextet v 12 = sextet w 12 ->
  sextet v 6 = sextet w 6 -> sextet v 0 = sextet w 0 ->
  a = a' /\ b = b' /\ c = c'.
Proof.
  intros v w H18 H12 H6 H0. subst v w.
  apply sextet_inj in H18, H12, H6, H0.
  pose proof (byte_bound a). pose proof (byte_bound b).
  pose proof (byte_bound c). pose proof (byte_bound a').
  pose proof (byte_bound b'). pose proof (byte_bound c').
  rewrite !val3_add in * by assumption.
  change (2 ^ 0)%N with 1%N in H0. rewrite !N.div_1_r in H0.
  change (2 ^ 18)%N with 262144%N in *. change (2 ^ 12)%N with 4096%N in *.
  change (2 ^ 6)%N with 64%N in *.
  assert (N_of_ascii a * 65536 + N_of_ascii b * 256 + N_of_ascii c
          = N_of_ascii a' * 65536 + N_of_ascii b' * 256 + N_of_ascii c')%N
    as Hv by (apply sextets_inj; [lia | lia | assumption..]).
  clear H18 H12 H6 H0.
  assert (N_of_ascii a = N_of_ascii a' /\ N_of_ascii b = N_of_ascii b' /\
          N_of_ascii c = N_of_ascii c') as (Ea & Eb & Ec) by lia.
  auto using byte_inj.
Qed.

Lemma low_bits_zero (x : N) : ((x * 256) mod 64 = 0)%N.
Proof.
  replace (x * 256)%N with (x * 4 * 64)%N by lia. now apply N.Div0.mod_mul.
Qed.

Lemma block2_inj (a b a' b' : ascii) :
  let v := N.lor (N.shiftl (N_of_ascii a) 16) (N.shiftl (N_of_ascii b) 8) in
  let w := N.lor (N.shiftl (N_of_ascii a') 16) (N.shiftl (N_of_ascii b') 8) in
  sextet v 18 = sextet w 18 -> sextet v 12 = sextet w 12 ->
  sextet v 6 = sextet w 6 ->
  a = a' /\ b = b'.
Proof.
  intros v w H18 H12 H6. subst v w.
  apply sextet_inj in H18, H12, H6.
  pose proof (byte_bound a). pose proof (byte_bound b).
  pose proof (byte_bound a'). pose proof (byte_bound b').
  rewrite !val2_add in * by assumption.
  change (2 ^ 18)%N with 262144%N in *. change (2 ^ 12)%N with 4096%N in *.
  change (2 ^ 6)%N with 64%N in *.
  assert (N_of_ascii a * 65536 + N_of_ascii b * 256
          = N_of_ascii a' * 65536 + N_of_ascii b' * 256)%N as Hv.
  2: { clear H18 H12 H6.
       assert (N_of_ascii a = N_of_ascii a' /\ N_of_ascii b = N_of_ascii b')
         as (Ea & Eb) by lia.
       auto using byte_inj. }
  apply sextets_inj; [lia | lia | assumption | assumption | assumption |].
  - replace (N_of_ascii a * 65536 + N_of_ascii b * 256)%N
      with ((N_of_ascii a * 256 + N_of_ascii b) * 256)%N by lia.
    replace (N_of_ascii a' * 65536 + N_of_ascii b' * 256)%N
      with ((N_of_ascii a' * 256 + N_of_ascii b') * 256)%N by lia.
    now rewrite !low_bits_zero.
Qed.

Lemma block1_inj (a a' : ascii) :
  let v := N.shiftl (N_of_ascii a) 16 in
  let w := N.shiftl (N_of_ascii a') 16 in
  sextet v 18 = sextet w 18 -> sextet v 12 = sextet w 12 -> a = a'.
Proof.
  intros v w H18 H12. subst v w.
  apply sextet_inj in H18, H12.
  pose proof (byte_bound a). pose proof (byte_bound a').
  rewrite !N.shiftl_mul_pow2 in *. change (2 ^ 16)%N with 65536%N in *.
  change (2 ^ 18)%N with 262144%N in *. change (2 ^ 12)%N with 4096%N in *.
  assert (forall x, ((x * 65536 / 64) mod 64 = 0 /\
                     (x * 65536) mod 64 = 0)%N) as Hz.
  { intros x. split.
    - replace (x * 65536)%N with (x * 1024 * 64)%N by lia.
      rewrite N.div_mul by discriminate.
      replace (x * 1024)%N with (x * 16 * 64)%N by lia.
      now apply N.Div0.mod_mul.
    - replace (x * 65536)%N with (x * 1024 * 64)%N by lia.
      now apply N.Div0.mod_mul. }
  assert (N_of_ascii a * 65536 = N_of_ascii a' * 65536)%N as Hv.
  { apply sextets_inj; [lia | lia | assumption | assumption | |].
    - now rewrite (proj1 (Hz _)), (proj1 (Hz _)).
    - now rewrite (proj2 (Hz _)), (proj2 (Hz _)). }
  apply byte_inj. lia.
Qed.

Lemma base64_encode_inj_upto (n : nat) (x y : bytes) :
  length x <= n -> base64_encode x = base64_encode y -> x = y.
Proof.
  revert x y. induction n as [| n IH]; intros x y Hlen H.
  - destruct x; [| simpl in Hlen; lia].
    destruct y as [| a [| b [| c y]]]; [reflexivity | discriminate..].
  - destruct x as [| a [| b [| c x]]]; destruct y as [| a' [| b' [| c' y]]];
      cbn [base64_encode] in H; try reflexivity; try discriminate.
    + injection H as H18 H12. f_equal. exact (block1_inj _ _ H18 H12).
    + injection H as H18 H12 H6.
      destruct (block2_inj _ _ _ _ H18 H12 H6) as [-> ->]. reflexivity.
    + injection H as H18 H12 H6 H0 Hrest.
      destruct (block3_inj _ _ _ _ _ _ H18 H12 H6 H0) as (-> & -> & ->).
      do 3 f_equal. apply IH; [simpl in Hlen; lia | assumption].
Qed.

Lemma base64_encode_length (x : bytes) :
  length (base64_encode x) = (length x * 8 + 5) / 6.
Proof.
  assert (forall n (x : bytes), length x <= n ->
            length (base64_encode x) = (length x * 8 + 5) / 6) as H.
  { clear x. induction n as [| n IH]; intros x Hlen.
    - destruct x; [reflexivity | simpl in Hlen; lia].
    - destruct x as [| a [| b [| c x]]]; try reflexivity.
      cbn [base64_encode length]. rewrite IH by (simpl in Hlen; lia).
      replace (S (S (S (length x))) * 8 + 5)
        with (length x * 8 + 5 + 4 * 6) by lia.
      rewrite Nat.div_add by discriminate. lia. }
  now apply (H (length x)).
Qed.

Lemma base64_encode_alphabet (x : bytes) (c : ascii) :
  c ∈ base64_encode x -> c ∈ encodeURL.
Proof.
  assert (forall n (x : bytes), length x <= n ->
            forall c, c ∈ base64_encode x -> c ∈ encodeURL) as H.
  { clear. induction n as [| n IH]; intros x Hlen c Hc.
    - destruct x; [now apply elem_of_nil in Hc | simpl in Hlen; lia].
    - destruct x as [| a [| b [| d x]]]; cbn [base64_encode] in Hc.
      + now apply elem_of_nil in Hc.
      + repeat (apply elem_of_cons in Hc as [-> | Hc]; [apply sextet_in |]).
        now apply elem_of_nil in Hc.
      + repeat (apply elem_of_cons in Hc as [-> | Hc]; [apply sextet_in |]).
        now apply elem_of_nil in Hc.
      + do 4 (apply elem_of_cons in Hc as [-> | Hc]; [apply sextet_in |]).
        apply (IH x); [simpl in Hlen; lia | assumption]. }
  now apply (H (length x)).
Qed.

Lemma str_length (b : bytes) : String.length (str b) = length b.
Proof. induction b as [| c b IH]; simpl; [reflexivity | now rewrite IH]. Qed.

Lemma str_elem (b : bytes) (c : ascii) : c ∈ raw (str b) <-> c ∈ b.
Proof. now rewrite raw_str. Qed.

(** X22: the fingerprint of a 16-byte digest is 22 characters long, all
    of them letters, digits, [-] or [_]: there is no padding and no
    slash, so a public path is "/assets/" and one more path element. *)
Theorem fingerprint_is_url_safe (L : Libs) (data : bytes) (c : ascii) :
  length (md5_Sum L data) = 16 ->
  String.length (fingerprintOf L data) = 22 /\
  String.length ("/assets/" +:+ fingerprintOf L data) = 30 /\
  (c ∈ raw (fingerprintOf L data) ->
   c ∈ encodeURL /\ c <> "/"%char /\ c <> "+"%char /\ c <> "="%char).
Proof.
  intros Hlen. unfold fingerprintOf, RawURLEncoding_EncodeToString.
  assert (String.length (str (base64_encode (md5_Sum L data))) = 22) as H22
    by now rewrite str_length, base64_encode_length, Hlen.
  split; [assumption |]. split.
  - change (String.length ("/assets/" +:+ ?s)) with (8 + String.length s).
    now rewrite H22.
  - rewrite raw_str. intros Hc. apply base64_encode_alphabet in Hc.
    split; [assumption |].
    repeat split; intros ->; revert Hc;
      apply (bool_decide_eq_false_1 _); vm_compute; reflexivity.
Qed.

Lemma fingerprint_is_url_safe_witness :
  String.length (fingerprintOf Fixture.libs (raw "PNG")) = 22 /\
  String.length ("/assets/" +:+ fingerprintOf Fixture.libs (raw "PNG")) = 30 /\
  ("U"%char ∈ raw (fingerprintOf Fixture.libs (raw "PNG")) ->
   "U"%char ∈ encodeURL /\ "U"%char <> "/"%char /\ "U"%char <> "+"%char /\
   "U"%char <> "="%char).
Proof.
  apply (fingerprint_is_url_safe Fixture.libs (raw "PNG") "U"%char).
  reflexivity.
Defined.

(** X23: the encoding of the digest loses nothing: two data have the
    same fingerprint, and so the same public path and the same key in
    the asset table, exactly when they have the same MD5 digest. *)
Theorem fingerprints_differ_with_digests (L : Libs) (d1 d2 : bytes) :
  (fingerprintOf L d1 = fingerprintOf L d2 <-> md5_Sum L d1 = md5_Sum L d2) /\
  ("/assets/" +:+ fingerprintOf L d1 = "/assets/" +:+ fingerprintOf L d2
   <-> md5_Sum L d1 = md5_Sum L d2).
Proof.
  assert (fingerprintOf L d1 = fingerprintOf L d2
          <-> md5_Sum L d1 = md5_Sum L d2) as H.
  { unfold fingerprintOf, RawURLEncoding_EncodeToString. split.
    - intros E. apply str_inj in E.
      now apply (base64_encode_inj_upto (length (md5_Sum L d1))).
    - now intros ->. }
  split; [exact H |]. rewrite <- H. split.
  - intros E. now injection E.
  - now intros ->.
Qed.

(** ** Text without markers, and markers on one line *)

Lemma segments_go_Keep (r : regex) (s : bytes) :
  (forall u v, s = u ++ v -> v <> [] -> matchHere r v = None) ->
  segments_go r s 0 = map Keep s.
Proof.
  induction s as [| c t IH]; intros H; [reflexivity |].
  rewrite segments_go_cons, (H [] (c :: t) eq_refl) by discriminate.
  simpl. f_equal. apply IH. intros u v -> Hv. now apply (H (c :: u) v).
Qed.

Lemma rebuild_Keep (f : bytes -> Result bytes) (s : bytes) :
  rebuild f (map Keep s) = Ok s.
Proof. induction s as [| c s IH]; simpl; [reflexivity | now rewrite IH]. Qed.

Lemma occurs_suffix (lit u v : bytes) :
  occurs lit (u ++ v) = false -> hasPrefix v lit = false.
Proof.
  induction u as [| c u IH]; intros H.
  - destruct v; simpl in H; now apply orb_false_iff in H as [H _].
  - simpl in H. apply orb_false_iff in H as [_ H]. now apply IH.
Qed.

(** X24: text in which the opening literal of a pattern does not occur
    goes through the pass of that pattern byte for byte, and the
    replacement function is not called. *)
Theorem unmarked_text_is_untouched (open : bytes) (rest : regex)
    (f : bytes -> Result bytes) (s : bytes) :
  occurs open s = false ->
  segments (Seq (Lit open) rest) s = map Keep s /\
  ReplaceAllFunc (Seq (Lit open) rest) s f = Ok s.
Proof.
  intros Hfree.
  assert (segments (Seq (Lit open) rest) s = map Keep s) as Hseg.
  { apply segments_go_Keep. intros u v -> _.
    unfold matchHere. cbn [matchK].
    now rewrite (occurs_suffix _ _ _ Hfree). }
  split; [assumption |].
  unfold ReplaceAllFunc. rewrite Hseg. apply rebuild_Keep.
Qed.

Lemma unmarked_text_is_untouched_witness :
  segments cssSVGEmbed (raw "a{b:var(--red)}")
  = map Keep (raw "a{b:var(--red)}") /\
  ReplaceAllFunc cssSVGEmbed (raw "a{b:var(--red)}")
    (fun _ => Panic PanicIndex)
  = Ok (raw "a{b:var(--red)}").
Proof.
  apply (unmarked_text_is_untouched (raw "svg-embed('")
           (Seq LazyCap
              (Seq (Lit (raw "'"))
                 (Seq (Opt (Seq (Lit (raw ",")) LazyCap)) (Lit (raw ")")))))
           (fun _ => Panic PanicIndex) (raw "a{b:var(--red)}")).
  reflexivity.
Defined.

Lemma delim_one_line (open close s m : bytes) :
  nl ∉ open -> nl ∉ close ->
  Found m ∈ segments (delim open close) s -> nl ∉ m.
Proof.
  intros Ho Hc H. apply delim_reference in H as (cap & -> & Hnl & _).
  rewrite !not_elem_of_app. auto.
Qed.

Lemma segments_Found_nonempty (r : regex) (s : bytes) skip m :
  Found m ∈ segments_go r s skip -> m <> [].
Proof.
  revert skip. induction s as [| c t IH]; intros skip H.
  - simpl in H. now apply elem_of_nil in H.
  - destruct skip as [| k]; [| exact (IH k H)].
    rewrite segments_go_cons in H.
    destruct (matchHere r (c :: t)) as [[[| n] caps] |] eqn:E.
    + apply elem_of_cons in H as [? | H]; [discriminate | eauto].
    + apply elem_of_cons in H as [Hm | H]; [| eauto].
      injection Hm as ->. discriminate.
    + apply elem_of_cons in H as [? | H]; [discriminate | eauto].
Qed.

Lemma literal_one_line (l : bytes) :
  bool_decide (nl ∈ l) = false -> nl ∉ l.
Proof. apply bool_decide_eq_false_1. Qed.

(** X25: a reference of any of the five patterns lies on one line:
    the bytes matched hold no newline, and they are not empty. *)
Theorem references_lie_on_one_line (r : regex) (s m : bytes) :
  r ∈ patterns ->
  Found m ∈ segments r s ->
  (nl ∉ m) /\ m <> [].
Proof.
  intros Hr Hm. unfold patterns in Hr.
  assert (m <> []) as Hne by exact (segments_Found_nonempty _ _ _ _ Hm).
  split; [| assumption].
  repeat (apply elem_of_cons in Hr as [-> | Hr]).
  - apply (delim_one_line (raw "asset-url('") (raw "')") s);
      [apply literal_one_line; reflexivity.. | assumption].
  - apply cssSVGEmbed_reference in Hm as (file & override & -> & Hnl & Hov & _).
    unfold svgMarker. rewrite !not_elem_of_app.
    split; [apply literal_one_line; reflexivity |].
    split; [assumption |].
    split; [apply literal_one_line; reflexivity |].
    split; [| apply literal_one_line; reflexivity].
    destruct override as [color |]; unfold overrideText.
    + rewrite not_elem_of_app. split; [apply literal_one_line; reflexivity |].
      exact (proj2 Hov).
    + apply not_elem_of_nil.
  - apply (delim_one_line (raw "var(--") (raw ")") s);
      [apply literal_one_line; reflexivity.. | assumption].
  - apply (delim_one_line (raw "assetPath('") (raw "')") s);
      [apply literal_one_line; reflexivity.. | assumption].
  - apply (delim_one_line srcKey [dq] s);
      [apply literal_one_line; reflexivity.. | assumption].
  - now apply elem_of_nil in Hr.
Qed.

Lemma references_lie_on_one_line_witness :
  (nl ∉ raw "var(--blue)") /\ raw "var(--blue)" <> [].
Proof.
  apply (references_lie_on_one_line cssVariable
           (raw "a{b:var(--blue)}") (raw "var(--blue)")).
  - unfold patterns. do 2 right. left.
  - vm_compute. repeat constructor.
Defined.

(** A marker broken over two lines is not a reference. *)
Example broken_marker_is_kept :
  ReplaceAllFunc cssVariable (raw ("var(--bl" +:+ str [nl] +:+ "ue)"))
    cssVariableFunc
  = Ok (raw ("var(--bl" +:+ str [nl] +:+ "ue)")).
Proof. vm_compute. reflexivity. Qed.

(** ** The two modes *)

Section Modes.
Variable L : Libs.
Variable fs : FS.

Lemma processFile_modes (st1 st2 st2' : State) (file : string) :
  agree st1 st2 ->
  processFile L fs false st2 file = Ok st2' ->
  exists st1', processFile L fs true st1 file = Ok st1' /\ agree st1' st2'.
Proof.
  intros [Hp Ha] H. apply processFile_cases in H
    as [[Hgo ->] | [Hgo (mime & raw0 & d & enc & Hm & Hr & Ht & _ & ->)]].
  - exists st1. split; [now apply processFile_go | now split].
  - rewrite (processFile_known L fs true st1 file mime raw0 Hm Hr).
    rewrite Hp, Ht. cbn [bind encode].
    eexists. split; [reflexivity |]. split; cbn [paths assets fst snd].
    + reflexivity.
    + now rewrite !fmap_insert, Ha.
Qed.

Lemma processFiles_modes (files : list string) (st1 st2 st2' : State) :
  agree st1 st2 ->
  processFiles L fs false st2 files = Ok st2' ->
  exists st1', processFiles L fs true st1 files = Ok st1' /\ agree st1' st2'.
Proof.
  revert st1 st2. induction files as [| f files IH]; intros st1 st2 Hag H.
  - simpl in H. injection H as <-. exists st1. now split.
  - simpl in H. apply bind_Ok in H as (st & Hf & H).
    destruct (processFile_modes _ _ _ _ Hag Hf) as (st' & Hf' & Hag').
    destruct (IH _ _ Hag' H) as (st1' & H' & Hag'').
    exists st1'. split; [| assumption]. simpl. now rewrite Hf'.
Qed.
End Modes.

(** X26: a tree whose tables are built outside development mode has
    them built in development mode as well, with the same path table
    and, under each fingerprint, the same bytes and the same MIME type:
    the mode changes only the Brotli and WebP bytes. *)
Theorem development_build_agrees (L : Libs) (fs : FS) (production : State) :
  buildTables L fs false = Ok production ->
  exists development,
    buildTables L fs true = Ok development /\
    paths development = paths production /\
    served <$> assets development = served <$> assets production.
Proof.
  unfold buildTables. destruct (walk fs) as [entries |]; cbn [orPanic bind];
    [| discriminate].
  intros H.
  destruct (processFiles_modes L fs _ (mkState ∅ ∅) _ _
              (conj eq_refl eq_refl) H) as (st1 & H1 & Hp & Ha).
  eauto.
Qed.

Lemma development_build_agrees_witness :
  exists development,
    buildTables Fixture.libs Fixture.styled true = Ok development /\
    paths development = paths (Fixture.built Fixture.styled false) /\
    served <$> assets development
    = served <$> assets (Fixture.built Fixture.styled false).
Proof.
  apply (development_build_agrees Fixture.libs Fixture.styled
           (Fixture.built Fixture.styled false)).
  vm_compute. reflexivity.
Defined.

(** * The call as a whole *)

(** ** The file written *)




(** Whatever [sort.Slice] does within its contract, it leaves the
    processing order. *)
Lemma sorts_unique (files order : list string) :
  sorts files order -> order = sortSlice less files.
Proof.
  intros [Hp Hs]. apply sorted_unique; [assumption | now apply pairwise_Sorted].
Qed.

Lemma StronglySorted_lookup (l : list string) (i j : nat) (x y : string) :
  StronglySorted notAfter l -> i < j ->
  l !! i = Some x -> l !! j = Some y -> notAfter x y.
Proof.
  intros Hs. revert i j. induction Hs as [| a l Hs IH Hall]; intros i j Hij Hi Hj.
  - discriminate.
  - destruct j as [| j]; [lia |]. destruct i as [| i]; simpl in Hi, Hj.
    + injection Hi as <-. rewrite Forall_forall in Hall. apply Hall.
      now apply list_elem_of_lookup_2 in Hj.
    + apply (IH i j); [lia | assumption..].
Qed.

Lemma sortSlice_sorts (files : list string) : sorts files (sortSlice less files).
Proof.
  split; [apply sortSlice_perm |].
  intros i j x y Hij Hi Hj.
  apply (StronglySorted_lookup (sortSlice less files) i j); try assumption.
  apply (Sorted_StronglySorted notAfter), sortSlice_sorted.
Qed.

Section Output.
Variable L : Libs.
Variable fs : FS.
Variable dev : bool.




(** A write phase that panics was refused by the file system. *)
Lemma WriteString_Panic (written chunk : string) e :
  WriteString fs written chunk = Panic e ->
  e = PanicIO "assets.go" /\ writeFile fs written chunk = false.
Proof.
  unfold WriteString. destruct (writeFile fs written chunk); [discriminate |].
  intros H. injection H as <-. now split.
Qed.

Lemma writeEntries_Panic {E} (entry : E -> string) (visited : list E)
    (written : string) e :
  writeEntries fs entry written visited = Panic e ->
  e = PanicIO "assets.go" /\
  exists w chunk, writeFile fs w chunk = false.
Proof.
  revert written. induction visited as [| x rest IH]; intros written H.
  - discriminate.
  - simpl in H. destruct (WriteString fs written (entry x)) as [w |] eqn:Hw;
      cbn [bind] in H.
    + exact (IH _ H).
    + injection H as ->. apply WriteString_Panic in Hw as [-> Hw]. eauto.
Qed.

Lemma writeOutput_Panic (ps : list (string * string))
    (as_ : list (string * Asset)) e :
  writeOutput L fs ps as_ = Panic e ->
  e = PanicIO "assets.go" /\
  (createFile fs "assets.go" = false \/
   (exists w chunk, writeFile fs w chunk = false) \/
   (exists w, closeFile fs w = false)).
Proof.
  unfold writeOutput. destruct (createFile fs "assets.go");
    [| intros H; injection H as <-; auto].
  intros H.
  repeat match type of H with
  | bind (WriteString fs ?w ?c) _ = _ =>
      let Hw := fresh "Hw" in
      destruct (WriteString fs w c) eqn:Hw; cbn [bind] in H;
      [| injection H as ->; apply WriteString_Panic in Hw as [-> Hw]; eauto 6]
  | bind (writeEntries fs ?f ?w ?l) _ = _ =>
      let Hw := fresh "Hw" in
      destruct (writeEntries fs f w l) eqn:Hw; cbn [bind] in H;
      [| injection H as ->; apply writeEntries_Panic in Hw as [-> Hw]; auto]
  end.
  match type of H with
  | (if closeFile fs ?w then _ else _) = _ => destruct (closeFile fs w) eqn:Hc
  end; [discriminate |].
  injection H as <-. eauto 6.
Qed.


Lemma run_Panic (e : panic) :
  run L fs dev (Panic e) <->
  buildTables L fs dev = Panic e \/
  exists st ps as_,
    buildTables L fs dev = Ok st /\
    ranges (paths st) ps /\ ranges (assets st) as_ /\
    writeOutput L fs ps as_ = Panic e.
Proof.
  unfold run, buildTables. destruct (walk fs) as [entries |];
    cbn [orPanic bind].
  - split.
    + intros (order & Hs & H). apply sorts_unique in Hs as ->.
      fold (processingOrder entries) in H.
      destruct (processFiles L fs dev (mkState ∅ ∅) (processingOrder entries))
        as [st' |]; [| injection H as ->; now left].
      destruct H as (ps & as_ & Hp & Ha & H).
      destruct (writeOutput L fs ps as_) as [out' |] eqn:Hw; [discriminate |].
      cbn [bind] in H. injection H as ->. right. eauto 8.
    + intros [H | (st & ps & as_ & Hst & Hp & Ha & Hw)];
        exists (processingOrder entries);
        (split; [apply sortSlice_sorts |]).
      * now rewrite H.
      * rewrite Hst. exists ps, as_. rewrite Hw. auto.
  - split; [intros H; injection H as ->; now left |].
    intros [H | (st & ? & ? & H & _)]; [| discriminate].
    injection H as <-. reflexivity.
Qed.
End Output.

(** The encoders have no part in the paths, the keys, the data or the
    types: two loops over the same files that differ in what the
    encoders return keep the tables in agreement. *)
Section Encoders.
Variable L : Libs.
Variable fs : FS.
Variable dev : bool.
Variables br webp : bytes -> option bytes.



End Encoders.










(** The two files of the witness differ in the WebP bytes only. *)
Example written_twice :
  written Fixture.libs Fixture.twoImages false
  = emit Fixture.libs
      [("a.png", "/assets/QQAAAAAAAAAAAAAAAAAAAA");
       ("b.png", "/assets/QgAAAAAAAAAAAAAAAAAAAA")]
      [("QgAAAAAAAAAAAAAAAAAAAA", mkAsset [] (raw "B") (raw "B") "image/png");
       ("QQAAAAAAAAAAAAAAAAAAAA", mkAsset [] (raw "A") (raw "A") "image/png")] /\
  written (withEncoders Fixture.libs doubling doubling) Fixture.twoImages false
  = emit Fixture.libs
      [("a.png", "/assets/QQAAAAAAAAAAAAAAAAAAAA");
       ("b.png", "/assets/QgAAAAAAAAAAAAAAAAAAAA")]
      [("QgAAAAAAAAAAAAAAAAAAAA", mkAsset [] (raw "B") (raw "BB") "image/png");
       ("QQAAAAAAAAAAAAAAAAAAAA", mkAsset [] (raw "A") (raw "AA") "image/png")].
Proof. vm_compute. split; reflexivity. Qed.


(** ** Panics of a whole call *)

(** X13: a call of [run] can panic in four ways only: on a discovered
    file whose extension has no MIME type and is not .go, with a message
    that names the file; on a failed walk or file read; on an error of
    the minifier, of Brotli or of the WebP encoder; or, once the tables
    are built, when assets.go cannot be created, written or closed.  The
    replacement functions never index a missing submatch. *)
Theorem build_panics (L : Libs) (fs : FS) (dev : bool) (e : panic) :
  run L fs dev (Panic e) ->
  match e with
  | PanicMsg msg =>
      exists entries file,
        walk fs = Some entries /\ file ∈ discover entries /\
        mimes !! Ext file = None /\ Ext file <> ".go" /\
        msg = "Unsupported: " +:+ file
  | PanicIO file =>
      (file = "." /\ walk fs = None) \/
      readFile fs file = None \/
      (file = "assets.go" /\
       (exists st, buildTables L fs dev = Ok st) /\
       (createFile fs "assets.go" = false \/
        (exists written chunk, writeFile fs written chunk = false) \/
        (exists written, closeFile fs written = false)))
  | PanicLib what => what = "minify" \/ what = "brotli" \/ what = "webp"
  | PanicIndex => False
  end.
Proof.
  intros H. apply run_Panic in H as [H | (st & ps & as_ & Hst & _ & _ & Hw)].
  - apply buildTables_Panic in H. destruct e; try assumption.
    destruct H as [H | H]; auto.
  - apply writeOutput_Panic in Hw as [-> Hw]. right. right. eauto.
Qed.

Lemma build_panics_witness :
  (("assets.go" = "." /\ walk readOnly = None) \/
   readFile readOnly "assets.go" = None \/
   ("assets.go" = "assets.go" /\
    (exists st, buildTables Fixture.libs readOnly true = Ok st) /\
    (createFile readOnly "assets.go" = false \/
     (exists written chunk, writeFile readOnly written chunk = false) \/
     (exists written, closeFile readOnly written = false)))).
Proof.
  apply (build_panics Fixture.libs readOnly true (PanicIO "assets.go")).
  apply run_Panic. right.
  exists (Fixture.built Fixture.twoImages true),
    (map_to_list (paths (Fixture.built Fixture.twoImages true))),
    (map_to_list (assets (Fixture.built Fixture.twoImages true))).
  split; [vm_compute; reflexivity |]. unfold ranges.
  split; [reflexivity |]. split; [reflexivity |].
  vm_compute. reflexivity.
Defined.

(** A file without a MIME type stops the call before anything is
    written. *)
Example unknown_type_stops_the_call :
  run Fixture.libs Fixture.unknownType false
    (Panic (PanicMsg "Unsupported: notes.txt")).
Proof. apply run_Panic. left. vm_compute. reflexivity. Qed.

(** * What the passes make of a text *)

(** ** Texts with markers

    What a pass makes of a text whose markers are known: every marker is
    found and replaced, and the text between the markers is kept. *)

Lemma occurs_nil (s : bytes) : occurs [] s = true.
Proof. destruct s; reflexivity. Qed.

Lemma litFree_nonempty (lit t : bytes) : litFree lit t = true -> lit <> [].
Proof.
  unfold litFree. intros H ->. now rewrite occurs_nil in H.
Qed.

Lemma removelast_snoc (lit : bytes) :
  lit <> [] -> exists x, lit = removelast lit ++ [x].
Proof.
  intros H. exists (List.last lit "000"%char). now apply app_removelast_last.
Qed.

(** Whether [lit] starts at a byte before an occurrence of [lit] is
    decided by the bytes up to the last byte of that occurrence. *)
Lemma hasPrefix_into (lit v x : bytes) :
  v <> [] -> lit <> [] ->
  hasPrefix (v ++ lit ++ x) lit = hasPrefix (v ++ removelast lit) lit.
Proof.
  intros Hv Hlit. destruct (removelast_snoc lit Hlit) as [c Hc].
  rewrite Hc at 1. rewrite <- !app_assoc, (app_assoc v).
  apply hasPrefix_short. rewrite length_app.
  assert (length lit = length (removelast lit) + 1) as Hlen
    by (rewrite Hc at 1; now rewrite length_app).
  destruct v; [contradiction | simpl; lia].
Qed.

Lemma litFree_suffix (lit u v : bytes) :
  litFree lit (u ++ v) = true -> hasPrefix (v ++ removelast lit) lit = false.
Proof.
  unfold litFree. intros H. apply negb_true_iff in H.
  rewrite <- app_assoc in H. exact (occurs_suffix _ _ _ H).
Qed.

Lemma oneLine_spec (t : bytes) : oneLine t = true -> nl ∉ t.
Proof.
  unfold oneLine. intros H Hin. rewrite forallb_forall in H.
  apply list_elem_of_In, H in Hin. now rewrite byte_eqb_refl in Hin.
Qed.

Section Markers.
Variables open close : bytes.

(** No match starts in text free of the opening literal, whether the
    text ends there or a marker follows. *)
Lemma litFree_no_match (t u v rest : bytes) :
  litFree open t = true -> t = u ++ v -> v <> [] ->
  rest = [] \/ (exists x, rest = open ++ x) ->
  matchHere (delim open close) (v ++ rest) = None.
Proof.
  intros Hfree -> Hv Hrest. rewrite matchHere_delim.
  pose proof (litFree_nonempty _ _ Hfree) as Hopen.
  apply litFree_suffix in Hfree.
  destruct Hrest as [-> | [x ->]].
  - rewrite app_nil_r.
    destruct (hasPrefix v open) eqn:E; [| reflexivity].
    apply (hasPrefix_weaken _ (removelast open)) in E. congruence.
  - now rewrite hasPrefix_into, Hfree.
Qed.

Lemma segments_plain (r : regex) (t rest : bytes) :
  (forall u v, t = u ++ v -> v <> [] -> matchHere r (v ++ rest) = None) ->
  segments r (t ++ rest) = map Keep t ++ segments r rest.
Proof.
  unfold segments. induction t as [| c t IH]; intros H; [reflexivity |].
  cbn [app]. rewrite segments_go_cons.
  change (c :: t ++ rest) with ((c :: t) ++ rest).
  rewrite (H [] (c :: t) eq_refl) by discriminate.
  cbn [map app]. f_equal. apply IH. intros u v -> Hv. now apply (H (c :: u) v).
Qed.

Lemma rebuild_plain (f : bytes -> Result bytes) (t : bytes)
    (segs : list segment) :
  rebuild f (map Keep t ++ segs) = (out <- rebuild f segs ;; Ok (t ++ out)).
Proof.
  induction t as [| c t IH]; cbn [map app rebuild].
  - now destruct (rebuild f segs).
  - rewrite IH. now destruct (rebuild f segs).
Qed.

(** A marker whose capture holds no closing literal is a match, and
    the whole of it. *)
Lemma marker_match (cap post : bytes) :
  oneLine cap = true -> litFree close cap = true ->
  matchHere (delim open close) (open ++ cap ++ close ++ post) =
  Some (length (open ++ cap ++ close), [cap]).
Proof.
  intros Hnl Hfree. apply matchHere_delim_intro; [now apply oneLine_spec |].
  intros u v -> Hv.
  rewrite hasPrefix_into by eauto using litFree_nonempty.
  exact (litFree_suffix _ _ _ Hfree).
Qed.

(** The replacement function, matching again on the marker alone,
    finds the capture. *)
Lemma marker_index (cap : bytes) :
  oneLine cap = true -> litFree close cap = true ->
  index (FindStringSubmatch (delim open close) (str (open ++ cap ++ close))) 1
  = Ok (str cap).
Proof.
  intros Hnl Hfree. pose proof (marker_match cap [] Hnl Hfree) as H.
  apply index_delim in H. rewrite app_nil_r in H.
  replace (open ++ cap ++ close ++ []) with (open ++ cap ++ close) in H
    by now rewrite app_nil_r.
  now rewrite firstn_all in H.
Qed.

(** The pass over a text with markers puts the value of each capture
    in the place of its marker and keeps the rest. *)
Lemma marked_pass (f : bytes -> Result bytes) (value : bytes -> bytes)
    (t0 : bytes) (more : list (bytes * bytes)) :
  (forall cap, oneLine cap = true -> litFree close cap = true ->
               f (open ++ cap ++ close) = Ok (value cap)) ->
  wellMarked open close t0 more = true ->
  ReplaceAllFunc (delim open close) (withMarkers open close t0 more) f
  = Ok (withValues value t0 more).
Proof.
  intros Hf. revert t0. unfold ReplaceAllFunc.
  induction more as [| [cap t] rest IH]; intros t0 Hwell;
    cbn [wellMarked] in Hwell; apply andb_true_iff in Hwell as [Hfree Hwell].
  - cbn [withMarkers withValues]. rewrite <- (app_nil_r t0) at 1.
    rewrite segments_plain.
    + rewrite rebuild_plain. cbn. now rewrite app_nil_r.
    + intros u v Huv Hv. apply (litFree_no_match t0 u); auto.
  - apply andb_true_iff in Hwell as [Hcap Hwell].
    apply andb_true_iff in Hcap as [Hnl Hclose].
    cbn [withMarkers withValues].
    rewrite segments_plain.
    + rewrite rebuild_plain.
      replace (open ++ cap ++ close ++ withMarkers open close t rest)
        with ((open ++ cap ++ close) ++ withMarkers open close t rest)
        by now rewrite <- !app_assoc.
      rewrite (segments_hit _ _ _ [cap]).
      * cbn [rebuild]. rewrite (Hf cap Hnl Hclose). cbn [bind].
        rewrite (IH t Hwell). reflexivity.
      * pose proof (litFree_nonempty _ _ Hfree). now destruct open.
      * rewrite <- !app_assoc. now apply marker_match.
    + intros u v Huv Hv. apply (litFree_no_match t0 u); eauto.
Qed.
End Markers.

(** The five replacement functions on the markers of such a text. *)
Lemma refPattern_refDelim (kind : pathReference) :
  refPattern kind = delim (refOpen kind) (refClose kind).
Proof. now destruct kind. Qed.

Lemma refResolver_marker (kind : pathReference)
    (pathTable : gmap string string) (cap : bytes) :
  oneLine cap = true -> litFree (refClose kind) cap = true ->
  refResolver kind pathTable (refOpen kind ++ cap ++ refClose kind)
  = Ok (publicRef kind pathTable cap).
Proof.
  intros Hnl Hfree.
  pose proof (marker_index (refOpen kind) (refClose kind) cap Hnl Hfree) as Hi.
  rewrite <- refPattern_refDelim in Hi. unfold publicRef.
  destruct kind; cbn [refPattern refOpen refClose refResolver refResolved] in *.
  - unfold cssAssetURLFunc. rewrite Hi. cbn [bind]. now rewrite !raw_append.
  - unfold jsAssetPathFunc. rewrite Hi. cbn [bind]. now rewrite !raw_append.
  - unfold manifestSrcFunc. rewrite Hi. cbn [bind].
    now rewrite !raw_append, !raw_str.
Qed.

Lemma cssVariableFunc_marker (name : bytes) :
  oneLine name = true -> litFree (raw ")") name = true ->
  cssVariableFunc (raw "var(--" ++ name ++ raw ")") = Ok (colorOf name).
Proof.
  intros Hnl Hfree.
  pose proof (marker_index (raw "var(--") (raw ")") name Hnl Hfree) as Hi.
  rewrite <- cssVariable_delim in Hi.
  unfold cssVariableFunc. now rewrite Hi.
Qed.

(** A pass over path references puts the quoted or wrapped entry of the
    path table in the place of every marker. *)
Lemma reference_pass (kind : pathReference) (pathTable : gmap string string)
    (t0 : bytes) (more : list (bytes * bytes)) :
  wellMarked (refOpen kind) (refClose kind) t0 more = true ->
  ReplaceAllFunc (refPattern kind)
    (withMarkers (refOpen kind) (refClose kind) t0 more)
    (refResolver kind pathTable)
  = Ok (withValues (publicRef kind pathTable) t0 more).
Proof.
  intros Hwell. rewrite refPattern_refDelim.
  apply marked_pass; [| assumption].
  intros cap. apply refResolver_marker.
Qed.

(** The pass over color variables puts the color in the place of every
    marker. *)
Lemma variable_pass (t0 : bytes) (more : list (bytes * bytes)) :
  wellMarked (raw "var(--") (raw ")") t0 more = true ->
  ReplaceAllFunc cssVariable (withMarkers (raw "var(--") (raw ")") t0 more)
    cssVariableFunc
  = Ok (withValues colorOf t0 more).
Proof.
  intros Hwell. rewrite cssVariable_delim.
  apply marked_pass; [| assumption].
  intros cap. apply cssVariableFunc_marker.
Qed.

(** ** The passes over a stylesheet *)

(** C6, as the code has it: a stylesheet that is processed had its
    asset-url references resolved first, then its color variables, then
    its assetPath references (the pass it shares with the scripts), was
    minified after these three, and had its svg-embed references
    resolved last, on the minified bytes; the result of that last pass
    is the data stored.  Each of the three passes, on a text that holds
    its opening literal only in complete markers, puts the entry of the
    path table, or the color, in the place of every marker. *)
Theorem stylesheet_pass_order (L : Libs) (fs : FS) (dev : bool)
    (st st' : State) (file : string) :
  Ext file = ".css" ->
  processFile L fs dev st file = Ok st' ->
  exists raw0 a v j m d asset,
    readFile fs file = Some raw0 /\
    ReplaceAllFunc cssAssetURL raw0 (cssAssetURLFunc (paths st)) = Ok a /\
    ReplaceAllFunc cssVariable a cssVariableFunc = Ok v /\
    ReplaceAllFunc jsAssetPath v (jsAssetPathFunc (paths st)) = Ok j /\
    min_Bytes L "text/css" j = Some m /\
    ReplaceAllFunc cssSVGEmbed m (cssSVGEmbedFunc fs) = Ok d /\
    assets st' !! fingerprintOf L d = Some asset /\ Data asset = d /\
    (forall t0 more,
       raw0 = withMarkers (raw "asset-url('") (raw "')") t0 more ->
       wellMarked (raw "asset-url('") (raw "')") t0 more = true ->
       a = withValues (publicRef StyleURL (paths st)) t0 more) /\
    (forall t0 more,
       a = withMarkers (raw "var(--") (raw ")") t0 more ->
       wellMarked (raw "var(--") (raw ")") t0 more = true ->
       v = withValues colorOf t0 more) /\
    (forall t0 more,
       v = withMarkers (raw "assetPath('") (raw "')") t0 more ->
       wellMarked (raw "assetPath('") (raw "')") t0 more = true ->
       j = withValues (publicRef ScriptPath (paths st)) t0 more).
Proof.
  intros Hext H.
  apply processFile_css in H
    as (raw0 & a & v & j & m & d & enc & Hr & Ha & Hv & Hj & Hm & Hd & ->);
    [| assumption].
  exists raw0, a, v, j, m, d, (mkAsset (fst enc) d (snd enc) "text/css").
  split; [assumption |]. split; [assumption |]. split; [assumption |].
  split; [assumption |]. split; [assumption |]. split; [assumption |].
  split; [simpl; apply lookup_insert_eq |]. split; [reflexivity |].
  split; [| split].
  - intros t0 more -> Hwell.
    pose proof (reference_pass StyleURL (paths st) t0 more Hwell) as Hpass.
    cbn [refPattern refOpen refClose refResolver] in Hpass. congruence.
  - intros t0 more -> Hwell.
    pose proof (variable_pass t0 more Hwell) as Hpass. congruence.
  - intros t0 more -> Hwell.
    pose proof (reference_pass ScriptPath (paths st) t0 more Hwell) as Hpass.
    cbn [refPattern refOpen refClose refResolver] in Hpass. congruence.
Qed.

Lemma stylesheet_pass_order_witness :
  exists raw0 a v j m d asset,
    readFile tinted "s.css" = Some raw0 /\
    ReplaceAllFunc cssAssetURL raw0
      (cssAssetURLFunc (paths (Fixture.after tinted true 1))) = Ok a /\
    ReplaceAllFunc cssVariable a cssVariableFunc = Ok v /\
    ReplaceAllFunc jsAssetPath v
      (jsAssetPathFunc (paths (Fixture.after tinted true 1))) = Ok j /\
    min_Bytes Fixture.libs "text/css" j = Some m /\
    ReplaceAllFunc cssSVGEmbed m (cssSVGEmbedFunc tinted) = Ok d /\
    assets (Fixture.after tinted true 2)
      !! fingerprintOf Fixture.libs d = Some asset /\
    Data asset = d /\
    (forall t0 more,
       raw0 = withMarkers (raw "asset-url('") (raw "')") t0 more ->
       wellMarked (raw "asset-url('") (raw "')") t0 more = true ->
       a = withValues (publicRef StyleURL (paths (Fixture.after tinted true 1)))
             t0 more) /\
    (forall t0 more,
       a = withMarkers (raw "var(--") (raw ")") t0 more ->
       wellMarked (raw "var(--") (raw ")") t0 more = true ->
       v = withValues colorOf t0 more) /\
    (forall t0 more,
       v = withMarkers (raw "assetPath('") (raw "')") t0 more ->
       wellMarked (raw "assetPath('") (raw "')") t0 more = true ->
       j = withValues (publicRef ScriptPath (paths (Fixture.after tinted true 1)))
             t0 more).
Proof.
  apply (stylesheet_pass_order Fixture.libs tinted true
           (Fixture.after tinted true 1) (Fixture.after tinted true 2) "s.css").
  - reflexivity.
  - vm_compute. reflexivity.
Defined.

(** The stylesheet of [tinted], pass by pass: the color first, the path
    after it. *)
Example tinted_passes :
  ReplaceAllFunc cssVariable
    (withMarkers (raw "var(--") (raw ")")
       (raw "a{b:assetPath('images/") [(raw "blue", raw ".png')}")])
    cssVariableFunc
  = Ok (withMarkers (raw "assetPath('") (raw "')")
          (raw "a{b:") [(raw "images/#007bff.png", raw "}")]) /\
  withValues (publicRef ScriptPath (paths (Fixture.after tinted true 1)))
    (raw "a{b:") [(raw "images/#007bff.png", raw "}")]
  = raw "a{b:'/assets/UE5HAAAAAAAAAAAAAAAAAA'}".
Proof. vm_compute. split; reflexivity. Qed.

(** C6 as stated fails: the assetPath references of a stylesheet are
    resolved after its color variables, not before.  In [tinted] the
    variable inside the marker is replaced first, and the path looked up
    is that of the image; in the order claimed the path looked up would
    be the one spelled with the variable, which the tree lacks. *)
Lemma assetPath_after_variables :
  processingOrder [("images/#007bff.png", false); ("s.css", false)]
  = ["images/#007bff.png"; "s.css"] /\
  transformedBytes Fixture.libs tinted (paths (Fixture.after tinted true 1))
    "s.css"
  = Ok (raw "a{b:'/assets/UE5HAAAAAAAAAAAAAAAAAA'}") /\
  claimedStylesheetOrder Fixture.libs tinted
    (paths (Fixture.after tinted true 1))
    (raw "a{b:assetPath('images/var(--blue).png')}")
  = Ok (raw "a{b:''}") /\
  transformedBytes Fixture.libs tinted (paths (Fixture.after tinted true 1))
    "s.css"
  <> claimedStylesheetOrder Fixture.libs tinted
       (paths (Fixture.after tinted true 1))
       (raw "a{b:assetPath('images/var(--blue).png')}").
Proof.
  split; [vm_compute; reflexivity |]. split; [vm_compute; reflexivity |].
  split; [vm_compute; reflexivity |].
  intros E. vm_compute in E. discriminate E.
Qed.

(** C10: a stylesheet goes through the pass of the scripts as well.
    Every [assetPath('...')] marker in the text that its own two passes
    leave is replaced by the quoted entry of the path table for the path
    it names, the rest of the text is kept, and the result of that is
    what the minifier receives. *)
Theorem stylesheet_shares_script_pass (L : Libs) (fs : FS) (dev : bool)
    (st st' : State) (file : string) (raw0 t0 : bytes)
    (more : list (bytes * bytes)) :
  Ext file = ".css" ->
  readFile fs file = Some raw0 ->
  stylePasses (paths st) raw0
  = Ok (withMarkers (raw "assetPath('") (raw "')") t0 more) ->
  wellMarked (raw "assetPath('") (raw "')") t0 more = true ->
  processFile L fs dev st file = Ok st' ->
  exists m d asset,
    min_Bytes L "text/css"
      (withValues
         (fun path => raw "'" ++ raw (mapStr (paths st) (str path)) ++ raw "'")
         t0 more)
    = Some m /\
    ReplaceAllFunc cssSVGEmbed m (cssSVGEmbedFunc fs) = Ok d /\
    assets st' !! fingerprintOf L d = Some asset /\ Data asset = d.
Proof.
  intros Hext Hread Hstyle Hwell H.
  apply processFile_css in H
    as (raw0' & a & v & j & m & d & enc & Hr & Ha & Hv & Hj & Hm & Hd & ->);
    [| assumption].
  rewrite Hread in Hr. injection Hr as <-.
  unfold stylePasses in Hstyle. rewrite Ha in Hstyle. cbn [bind] in Hstyle.
  rewrite Hv in Hstyle.
  assert (v = withMarkers (raw "assetPath('") (raw "')") t0 more) as ->
    by congruence.
  pose proof (reference_pass ScriptPath (paths st) t0 more Hwell) as Hpass.
  cbn [refPattern refOpen refClose refResolver] in Hpass.
  rewrite Hpass in Hj. injection Hj as <-.
  exists m, d, (mkAsset (fst enc) d (snd enc) "text/css").
  split; [exact Hm |]. split; [assumption |].
  split; [apply lookup_insert_eq | reflexivity].
Qed.

Lemma stylesheet_shares_script_pass_witness :
  exists m d asset,
    min_Bytes Fixture.libs "text/css"
      (withValues
         (fun path =>
            raw "'"
              ++ raw (mapStr (paths (Fixture.after Fixture.styled false 1))
                             (str path))
              ++ raw "'")
         (raw "a{b:") [(raw "images/a.png", raw ";c:}")])
    = Some m /\
    ReplaceAllFunc cssSVGEmbed m (cssSVGEmbedFunc Fixture.styled) = Ok d /\
    assets (Fixture.after Fixture.styled false 2)
      !! fingerprintOf Fixture.libs d = Some asset /\
    Data asset = d.
Proof.
  apply (stylesheet_shares_script_pass Fixture.libs Fixture.styled false
           (Fixture.after Fixture.styled false 1)
           (Fixture.after Fixture.styled false 2) "s.css"
           (raw "a{b:assetPath('images/a.png');c:var(--nope)}")).
  - reflexivity.
  - reflexivity.
  - vm_compute. reflexivity.
  - reflexivity.
  - vm_compute. reflexivity.
Defined.

(** The stylesheet of [Fixture.styled], after the image it names: the
    script marker is rewritten to the quoted public path. *)
Example styled_stylesheet_data :
  map (fun e => str (Data (snd e)))
      (map_to_list (assets (Fixture.after Fixture.styled true 2)))
  = ["PNG"; "a{b:'/assets/UE5HAAAAAAAAAAAAAAAAAA';c:}"].
Proof. vm_compute. reflexivity. Qed.

(** ** The passes over a manifest *)

(** X19: a manifest goes through the asset-path pass, then the
    minifier, as application/manifest+json, and then, on the minified
    bytes, through the pass of the "src" fields.  Every
    [assetPath('...')] marker of the file is replaced by the quoted
    entry of the path table before the minifier runs, and every "src"
    field of the minified bytes holds, in the data stored, the entry of
    the path table for the path it held; the rest is kept. *)
Theorem manifest_pipeline (L : Libs) (fs : FS) (dev : bool) (st st' : State)
    (file : string) (r0 t0 : bytes) (rmore more : list (bytes * bytes)) :
  Ext file = ".webmanifest" ->
  readFile fs file = Some (withMarkers (raw "assetPath('") (raw "')") r0 rmore) ->
  wellMarked (raw "assetPath('") (raw "')") r0 rmore = true ->
  min_Bytes L "application/manifest+json"
    (withValues (publicRef ScriptPath (paths st)) r0 rmore)
  = Some (withMarkers srcKey [dq] t0 more) ->
  wellMarked srcKey [dq] t0 more = true ->
  processFile L fs dev st file = Ok st' ->
  exists asset,
    paths st' !! file = Some ("/assets/" +:+ fingerprintOf L (Data asset)) /\
    assets st' !! fingerprintOf L (Data asset) = Some asset /\
    Data asset
    = withValues
        (fun path => srcKey ++ raw (mapStr (paths st) (str path)) ++ [dq])
        t0 more /\
    Mime asset = "application/manifest+json".
Proof.
  intros Hext Hread Hwell1 Hmin Hwell2 H.
  apply processFile_Ok in H
    as (mime & raw0 & d & enc & Hmime & Hread' & Htr & _ & ->);
    [| rewrite Hext; discriminate].
  assert (raw0 = withMarkers (raw "assetPath('") (raw "')") r0 rmore) as ->
    by congruence.
  rewrite Hext in Hmime, Htr. vm_compute in Hmime. injection Hmime as <-.
  rewrite transform_webmanifest in Htr.
  pose proof (reference_pass ScriptPath (paths st) r0 rmore Hwell1) as Hpass1.
  pose proof (reference_pass ManifestIcon (paths st) t0 more Hwell2) as Hpass2.
  cbn [refPattern refOpen refClose refResolver] in Hpass1, Hpass2.
  rewrite Hpass1 in Htr. cbn [bind] in Htr.
  rewrite Hmin in Htr. cbn [orPanic bind] in Htr.
  rewrite Hpass2 in Htr.
  assert (d = withValues (publicRef ManifestIcon (paths st)) t0 more) as ->
    by congruence.
  eexists (mkAsset (fst enc) _ (snd enc) "application/manifest+json").
  cbn [paths assets Data Mime].
  split; [apply lookup_insert_eq |]. split; [apply lookup_insert_eq |].
  split; reflexivity.
Qed.

Lemma manifest_pipeline_witness :
  exists asset,
    paths (Fixture.after manifestTree false 2) !! "site.webmanifest"
    = Some ("/assets/" +:+ fingerprintOf Fixture.libs (Data asset)) /\
    assets (Fixture.after manifestTree false 2)
      !! fingerprintOf Fixture.libs (Data asset) = Some asset /\
    Data asset
    = withValues
        (fun path =>
           srcKey
             ++ raw (mapStr (paths (Fixture.after manifestTree false 1))
                            (str path))
             ++ [dq])
        (raw "{") [(raw "images/i.png", raw "}")] /\
    Mime asset = "application/manifest+json".
Proof.
  apply (manifest_pipeline Fixture.libs manifestTree false
           (Fixture.after manifestTree false 1)
           (Fixture.after manifestTree false 2) "site.webmanifest"
           (raw ("{" +:+ str srcKey +:+ "images/i.png" +:+ str [dq] +:+ "}"))
           (raw "{") [] [(raw "images/i.png", raw "}")]).
  - reflexivity.
  - reflexivity.
  - reflexivity.
  - reflexivity.
  - reflexivity.
  - vm_compute. reflexivity.
Defined.

(** ** Inlined vector graphics, in place *)







(** The marker of the witness, resolved: the override in the place of
    FILL, the color in the place of the variable, the quotes and the
    [#] escaped. *)
Example svg_embed_resolved :
  withFill (Some (raw "#fff")) (raw "<svg fill='FILL' stroke='var(--blue)'/>")
  = withMarkers (raw "var(--") (raw ")")
      (raw "<svg fill='#fff' stroke='") [(raw "blue", raw "'/>")] /\
  wellMarked (raw "var(--") (raw ")")
    (raw "<svg fill='#fff' stroke='") [(raw "blue", raw "'/>")] = true /\
  cssSVGEmbedFunc icon (raw "svg-embed('i.svg',#fff)")
  = Ok (dataURI (raw "<svg fill='%23fff' stroke='%23007bff'/>")) /\
  ReplaceAllFunc cssSVGEmbed (raw "a{b:svg-embed('i.svg',#fff);c:d}")
    (cssSVGEmbedFunc icon)
  = Ok (raw "a{b:"
          ++ dataURI (raw "<svg fill='%23fff' stroke='%23007bff'/>")
          ++ raw ";c:d}").
Proof. vm_compute. repeat split; reflexivity. Qed.

